(** * aochat: the Anarchy Online chat client (lib/aochat/__init__.py)

    A shallow embedding of the login-key generator ([generate_login_key],
    [_crypt], [_tea_encrypt]) and of the [Chat] session class
    ([__read_socket], [__write_socket], [wait_packet], [send_packet],
    [login], [ping], [start]), followed by the properties proved of them.

    Conventions.  A Python 2 [str] holding binary data (socket data,
    plaintext, payloads) is a [list byte]; a [str] holding text (hexadecimal
    keys, names, messages) is a [string].  Python integers are [Z].
    Exceptions are values of [py_exn] (built-in and library exceptions) and,
    at the session level, of [exn]. *)

From Stdlib Require Import ZArith Lia List Bool.
From Stdlib Require Import Strings.Ascii Strings.String Strings.Byte.
From stdpp Require Import base option list gmap.

Local Open Scope string_scope.
Local Open Scope Z_scope.

(* ================================================================= *)
(** * Exceptions of the interpreter and of its standard library *)

Inductive py_exn : Type :=
| ValueError (msg : string)
| StructError            (* struct.error *)
| IndexError
| TypeError
| OverflowError
| KeyError
| AttributeError
| KeyboardInterrupt
| SocketError (args : list (Z + string))   (* socket.error, with its args tuple *)
| SocketTimeout.                           (* socket.timeout, args = ("timed out",) *)

(** Fallible pure code: [inl e] is a raised exception, [inr v] a value. *)
Definition res (A : Type) : Type := py_exn + A.

Definition Raise {A} (e : py_exn) : res A := inl e.
Definition Return {A} (v : A) : res A := inr v.

Definition res_bind {A B} (m : res A) (k : A -> res B) : res B :=
  match m with
  | inl e => inl e
  | inr v => k v
  end.

Declare Scope res_scope.
Delimit Scope res_scope with res.
Notation "x <-- m ; k" := (res_bind m (fun x => k))
  (at level 20, m at level 100, k at level 200, only parsing) : res_scope.
Local Open Scope res_scope.

Fixpoint res_mapM {A B} (f : A -> res B) (l : list A) : res (list B) :=
  match l with
  | [] => Return []
  | x :: r => y <-- f x ; ys <-- res_mapM f r ; Return (y :: ys)
  end.

(* ================================================================= *)
(** * Bytes and integers *)

(** [sys.byteorder] of the machine the client runs on. *)
Inductive byteorder : Type := LittleEndian | BigEndian.

Definition byte_val (b : byte) : Z := Z.of_N (Byte.to_N b).

Definition byte_of_Z (z : Z) : byte :=
  match Byte.of_N (Z.to_N (z mod 256)) with
  | Some b => b
  | None => x00
  end.

(** Value of a byte string read least-significant byte first. *)
Fixpoint le_value (bs : list byte) : Z :=
  match bs with
  | [] => 0
  | b :: r => byte_val b + 256 * le_value r
  end.

(** The [n] low bytes of [w], least-significant first. *)
Fixpoint le_bytes (n : nat) (w : Z) : list byte :=
  match n with
  | O => []
  | S n' => byte_of_Z w :: le_bytes n' (w / 256)
  end.

Definition be_value (bs : list byte) : Z := le_value (rev bs).
Definition be_bytes (n : nat) (w : Z) : list byte := rev (le_bytes n w).

Definition int_from_bytes (o : byteorder) (bs : list byte) : Z :=
  match o with
  | LittleEndian => le_value bs
  | BigEndian => be_value bs
  end.

Definition int_to_bytes (o : byteorder) (n : nat) (w : Z) : list byte :=
  match o with
  | LittleEndian => le_bytes n w
  | BigEndian => be_bytes n w
  end.

(** [socket.ntohl]: the four network-order (big-endian) bytes of [x] read
    as an integer of the host; out-of-range arguments overflow. *)
Definition ntohl (host : byteorder) (x : Z) : res Z :=
  if (0 <=? x) && (x <? 2 ^ 32)
  then Return (int_from_bytes host (be_bytes 4 x))
  else Raise OverflowError.

(** [socket.htonl]: the four host-order bytes of [x] read as a network-order
    (big-endian) integer. *)
Definition htonl (host : byteorder) (x : Z) : res Z :=
  if (0 <=? x) && (x <? 2 ^ 32)
  then Return (be_value (int_to_bytes host 4 x))
  else Raise OverflowError.

(* ----------------------------------------------------------------- *)
(** ** [struct] *)

(** [struct.pack(">I", v)] and [struct.pack(">Q", v)]. *)
Definition struct_pack_be (n : nat) (v : Z) : res (list byte) :=
  if (0 <=? v) && (v <? 256 ^ Z.of_nat n)
  then Return (be_bytes n v)
  else Raise StructError.

(** The words of a byte string, four bytes each, in byte order [o]; a
    trailing group of fewer than four bytes is dropped. *)
Fixpoint unpack_words (o : byteorder) (s : list byte) : list Z :=
  match s with
  | b0 :: b1 :: b2 :: b3 :: r => int_from_bytes o [b0; b1; b2; b3] :: unpack_words o r
  | _ => []
  end.

(** [struct.unpack("I" * k, s)]: native byte order, four bytes per item. *)
Definition struct_unpack_I (host : byteorder) (k : Z) (s : list byte) : res (list Z) :=
  if Z.of_nat (length s) =? 4 * k
  then Return (unpack_words host s)
  else Raise StructError.

Fixpoint chunks8 (s : string) : list string :=
  match s with
  | String c0 (String c1 (String c2 (String c3
      (String c4 (String c5 (String c6 (String c7 r))))))) =>
      String c0 (String c1 (String c2 (String c3
        (String c4 (String c5 (String c6 (String c7 EmptyString))))))) :: chunks8 r
  | _ => []
  end.

(** [struct.unpack("8s" * k, s)]. *)
Definition struct_unpack_8s (k : Z) (s : string) : res (list string) :=
  if Z.of_nat (String.length s) =? 8 * k
  then Return (chunks8 s)
  else Raise StructError.

(* ----------------------------------------------------------------- *)
(** ** Formatting and parsing integers *)

Definition digit_char (d : Z) : ascii :=
  match d with
  | 0 => "0" | 1 => "1" | 2 => "2" | 3 => "3" | 4 => "4"
  | 5 => "5" | 6 => "6" | 7 => "7" | 8 => "8" | 9 => "9"
  | 10 => "a" | 11 => "b" | 12 => "c" | 13 => "d" | 14 => "e"
  | _ => "f"
  end%char.

(** Value of a hexadecimal digit, by its character code: '0'..'9',
    'a'..'f' or 'A'..'F'. *)
Definition hex_val (c : ascii) : option Z :=
  let code := Z.of_N (N_of_ascii c) in
  if (48 <=? code) && (code <=? 57) then Some (code - 48)
  else if (97 <=? code) && (code <=? 102) then Some (code - 87)
  else if (65 <=? code) && (code <=? 70) then Some (code - 55)
  else None.

(** The [k] low digits of [n] in base [base], most significant first,
    put in front of [acc]. *)
Fixpoint fixed_digits (k : nat) (base n : Z) (acc : string) : string :=
  match k with
  | O => acc
  | S k' => fixed_digits k' base (n / base) (String (digit_char (n mod base)) acc)
  end.

Fixpoint ndigits_fuel (fuel : nat) (base n : Z) : nat :=
  match fuel with
  | O => 1
  | S f => if n <? base then 1%nat else S (ndigits_fuel f base (n / base))
  end.

(** Number of digits of [n >= 0] in base [base]; [Z.log2 n] divisions by a
    base of at least two always reach a single digit. *)
Definition ndigits (base n : Z) : nat :=
  ndigits_fuel (Z.to_nat (Z.log2 n)) base n.

Definition digits (base n : Z) : string :=
  if n <? 0
  then String "-" (fixed_digits (ndigits base (- n)) base (- n) "")
  else fixed_digits (ndigits base n) base n "".

(** ["%x" % n] (also ["%0x" % n]). *)
Definition fmt_x (n : Z) : string := digits 16 n.

(** [str(n)]. *)
Definition str (n : Z) : string := digits 10 n.

(** ["%08x" % n]: zero-padded to a width of eight characters. *)
Definition fmt_08x (n : Z) : string :=
  if n <? 0
  then String "-" (fixed_digits (Nat.max 7 (ndigits 16 (- n))) 16 (- n) "")
  else fixed_digits (Nat.max 8 (ndigits 16 n)) 16 n "".

Fixpoint hex_value (acc : Z) (s : string) : option Z :=
  match s with
  | EmptyString => Some acc
  | String c r =>
      match hex_val c with
      | Some d => hex_value (acc * 16 + d) r
      | None => None
      end
  end.

(** [int(s, 16)] on the strings ["%x"] produces: hexadecimal digits with
    an optional leading minus sign. *)
Definition int16 (s : string) : res Z :=
  let bad := ValueError "invalid literal for int() with base 16" in
  match s with
  | EmptyString => Raise bad
  | String "-" EmptyString => Raise bad
  | String "-" r =>
      match hex_value 0 r with Some v => Return (- v) | None => Raise bad end
  | _ =>
      match hex_value 0 s with Some v => Return v | None => Raise bad end
  end.

(** [s[:n]] *)
Fixpoint str_take (n : nat) (s : string) : string :=
  match n, s with
  | S n', String c r => String c (str_take n' r)
  | _, _ => EmptyString
  end.

(** [c * n] for a one-character string [c]. *)
Fixpoint str_repeat (c : ascii) (n : nat) : string :=
  match n with
  | O => EmptyString
  | S n' => String c (str_repeat c n')
  end.

(** [pow(b, e, n)] by square and multiply. *)
Fixpoint pow_mod_pos (b : Z) (e : positive) (n : Z) : Z :=
  match e with
  | xH => b mod n
  | xO e' => let r := pow_mod_pos b e' n in (r * r) mod n
  | xI e' => let r := pow_mod_pos b e' n in ((r * r) mod n * b) mod n
  end.

Definition pow3 (b e n : Z) : res Z :=
  match e with
  | Z0 => Return (1 mod n)
  | Zpos p => Return (pow_mod_pos b p n)
  | Zneg _ => Raise TypeError
  end.

(* ================================================================= *)
(** * Login key generator *)

Definition mask32 : Z := 0xFFFFFFFF.
Definition delta : Z := 0x9E3779B9.

(** [keys[i]] *)
Definition getitem {A} (l : list A) (i : nat) : res A :=
  match l !! i with
  | Some v => Return v
  | None => Raise IndexError
  end.

(** One half-round: the value added to a word from the other word [v]. *)
Definition tea_mix (v sum k k' : Z) : Z :=
  Z.land
    (Z.lxor (Z.lxor (Z.land (Z.shiftl v 4) 0xFFFFFFF0 + k) (v + sum))
            (Z.land (Z.shiftr v 5) 0x7FFFFFF + k'))
    mask32.

(** The [while i:] loop of [_tea_encrypt], [i] rounds left. *)
Fixpoint tea_loop (i : nat) (keys : list Z) (a b sum : Z) : res (Z * Z) :=
  match i with
  | O => Return (a, b)
  | S i' =>
      let sum := Z.land (sum + delta) mask32 in
      k0 <-- getitem keys 0 ;
      k1 <-- getitem keys 1 ;
      let a := Z.land (a + tea_mix b sum k0 k1) mask32 in
      k2 <-- getitem keys 2 ;
      k3 <-- getitem keys 3 ;
      let b := Z.land (b + tea_mix a sum k2 k3) mask32 in
      tea_loop i' keys a b sum
  end.

Definition _tea_encrypt (cycle : Z * Z) (keys : list Z) : res (Z * Z) :=
  let '(a, b) := cycle in
  tea_loop 32 keys a b 0.

(** The key words of [_crypt]. *)
Definition crypt_keys (host : byteorder) (key : Z) : res (list Z) :=
  ss <-- struct_unpack_8s (Z.of_nat (String.length (str key)) / 8) (fmt_x key) ;
  res_mapM (fun s => v <-- int16 s ; ntohl host v) ss.

(** The [while i < len(data):] loop of [_crypt]; [data] is [data[i:]]. *)
Fixpoint crypt_loop (host : byteorder) (keys : list Z) (data : list Z)
    (result : Z * Z) (crypted : string) : res string :=
  match data with
  | [] => Return crypted
  | [_] => Raise IndexError
  | d0 :: d1 :: rest =>
      let cycle := (Z.lxor d0 (fst result), Z.lxor d1 (snd result)) in
      result <-- _tea_encrypt cycle keys ;
      h0 <-- htonl host (fst result) ;
      h1 <-- htonl host (snd result) ;
      let crypted :=
        crypted ++ (fmt_08x (Z.land h0 mask32) ++ fmt_08x (Z.land h1 mask32)) in
      crypt_loop host keys rest result crypted
  end.

Definition _crypt (host : byteorder) (key : Z) (plain : list byte) : res string :=
  if negb (Z.of_nat (length plain) mod 8 =? 0)
  then Raise (ValueError "Length of plain text must be multiple of 8.")
  else
    keys <-- crypt_keys host key ;
    data <-- struct_unpack_I host (Z.of_nat (length plain) / 4) plain ;
    crypt_loop host keys data (0, 0) "".

Definition dhY : Z :=
  0x9C32CC23D559CA90FC31BE72DF817D0E124769E809F936BC14360FF4BED758F260A0D596584EACBBC2B88BDD410416163E11DBF62173393FBC0C6FEFB2D855F1A03DEC8E9F105BBAD91B3437D8EB73FE2F44159597AA4053CF788D2F9D7012FB8D7C4CE3876F7D6CD5D0C31754F4CD96166708641958DE54A6DEF5657B9F2E92.
Definition dhN : Z :=
  0xECA2E8C85D863DCDC26A429A71A9815AD052F6139669DD659F98AE159D313D13C6BF2838E10A69B6478B64A24BD054BA8248E8FA778703B418408249440B2C1EDD28853E240D8A7E49540B76D120D3B1AD2878B1B99490EB4A2A5E84CAA8A91CECBDB1AA7C816E8BE343246F80C637ABC653B893FD91686CF8D32D6CFE5F2A6F.
Definition dhG : Z := 0x5.

(** ["%s|%s|%s" % (username, server_key, password)] *)
Definition challenge_of (username server_key password : string) : string :=
  username ++ "|" ++ server_key ++ "|" ++ password.

(** The plaintext [plain] built by [generate_login_key]; [nonce] is the
    value drawn by [random.randrange(0, 2 ** 64)]. *)
Definition login_plain (nonce : Z) (server_key username password : string)
    : res (list byte) :=
  let challenge := challenge_of username server_key password in
  prefix <-- struct_pack_be 8 nonce ;
  let length := 8 + 4 + Z.of_nat (String.length challenge) in
  let pad := str_repeat " " (Z.to_nat ((8 - length mod 8) mod 8)) in
  packed <-- struct_pack_be 4 (Z.of_nat (String.length challenge)) ;
  Return (prefix ++ packed ++ list_byte_of_string challenge ++ list_byte_of_string pad)%list.

(** [generate_login_key]; [dhx] and [nonce] are the two values of
    [random.randrange], in the order in which the function draws them. *)
Definition generate_login_key (host : byteorder) (dhx nonce : Z)
    (server_key username password : string) : res string :=
  dhX <-- pow3 dhG dhx dhN ;
  s <-- pow3 dhY dhx dhN ;
  dhK <-- int16 (str_take 32 (fmt_x s)) ;
  plain <-- login_plain nonce server_key username password ;
  crypted <-- _crypt host dhK plain ;
  Return (fmt_x dhX ++ "-" ++ crypted).

(* ----------------------------------------------------------------- *)
(** ** The cipher as the specification words it *)

(** One round of [_tea_encrypt] with the four key words at hand, as a
    function on the triple (a, b, sum). *)
Definition enc_round (k0 k1 k2 k3 : Z) (st : Z * Z * Z) : Z * Z * Z :=
  let '(a, b, sum) := st in
  let sum := Z.land (sum + delta) mask32 in
  let a := Z.land (a + tea_mix b sum k0 k1) mask32 in
  let b := Z.land (b + tea_mix a sum k2 k3) mask32 in
  (a, b, sum).

(** The round that undoes [enc_round]. *)
Definition dec_round (k0 k1 k2 k3 : Z) (st : Z * Z * Z) : Z * Z * Z :=
  let '(a, b, sum) := st in
  let b := Z.land (b - tea_mix a sum k2 k3) mask32 in
  let a := Z.land (a - tea_mix b sum k0 k1) mask32 in
  (a, b, Z.land (sum - delta) mask32).

(** TEA encryption of one block of two words, 32 rounds. *)
Definition tea_block (k0 k1 k2 k3 : Z) (ab : Z * Z) : Z * Z :=
  fst (Nat.iter 32 (enc_round k0 k1 k2 k3) (fst ab, snd ab, 0)).

(** TEA decryption of one block; the source has no decryption routine, this
    is the inverse the specification's round-trip property names. *)
Definition tea_decrypt (cycle : Z * Z) (keys : list Z) : res (Z * Z) :=
  match keys with
  | k0 :: k1 :: k2 :: k3 :: _ =>
      Return (fst (Nat.iter 32 (dec_round k0 k1 k2 k3)
                     (fst cycle, snd cycle, 0xC6EF3720)))
  | _ => Raise IndexError
  end.

(** The inverse of the loop of [_crypt] on the ciphertext cut in groups of
    eight hexadecimal digits: TEA decrypt of each block, then XOR with the
    previous ciphertext block ([prev], zero for the first). *)
Fixpoint decrypt_loop (host : byteorder) (keys : list Z) (groups : list string)
    (prev : Z * Z) : res (list byte) :=
  match groups with
  | [] => Return []
  | [_] => Raise IndexError
  | s0 :: s1 :: rest =>
      v0 <-- int16 s0 ;
      v1 <-- int16 s1 ;
      c0 <-- ntohl host v0 ;
      c1 <-- ntohl host v1 ;
      ab <-- tea_decrypt (c0, c1) keys ;
      let p0 := Z.lxor (fst ab) (fst prev) in
      let p1 := Z.lxor (snd ab) (snd prev) in
      tail <-- decrypt_loop host keys rest (c0, c1) ;
      Return (int_to_bytes host 4 p0 ++ int_to_bytes host 4 p1 ++ tail)%list
  end.

(** The inverse of [_crypt], with the key schedule of [_crypt]. *)
Definition cbc_tea_decrypt (host : byteorder) (key : Z) (crypted : string)
    : res (list byte) :=
  if negb (Z.of_nat (String.length crypted) mod 16 =? 0)
  then Raise (ValueError "Length of cipher text must be multiple of 16.")
  else
    keys <-- crypt_keys host key ;
    decrypt_loop host keys (chunks8 crypted) (0, 0).

(** Lowercase hexadecimal text of a byte string, two digits per byte. *)
Fixpoint hexlify (bs : list byte) : string :=
  match bs with
  | [] => ""
  | b :: r => fixed_digits 2 16 (byte_val b) (hexlify r)
  end.

(** The most-significant 32 hexadecimal digits of [s], as a number. *)
Definition top32 (s : Z) : Z := s / 16 ^ Z.of_nat (ndigits 16 s - 32).

(** The key of the specification: the 16 bytes those digits spell, parsed
    as four 32-bit words of byte order [o]. *)
Definition spec_key_words (o : byteorder) (s : Z) : list Z :=
  unpack_words o (be_bytes 16 (top32 s)).

(** The blocks of a byte string: eight bytes each, two 32-bit words
    converted from bytes in byte order [o]. *)
Fixpoint blocks_of (o : byteorder) (plain : list byte) : list (Z * Z) :=
  match plain with
  | b0 :: b1 :: b2 :: b3 :: b4 :: b5 :: b6 :: b7 :: rest =>
      (int_from_bytes o [b0; b1; b2; b3], int_from_bytes o [b4; b5; b6; b7])
        :: blocks_of o rest
  | _ => []
  end.

Fixpoint bytes_of_blocks (o : byteorder) (blocks : list (Z * Z)) : list byte :=
  match blocks with
  | [] => []
  | c :: r => (int_to_bytes o 4 (fst c) ++ int_to_bytes o 4 (snd c) ++ bytes_of_blocks o r)%list
  end.

(** Cipher-block chaining, C_i = enc (P_i XOR C_{i-1}), from the chaining
    value [prev]. *)
Fixpoint cbc_chain (enc : Z * Z -> Z * Z) (prev : Z * Z) (blocks : list (Z * Z))
    : list (Z * Z) :=
  match blocks with
  | [] => []
  | p :: r =>
      let c := enc (Z.lxor (fst p) (fst prev), Z.lxor (snd p) (snd prev)) in
      c :: cbc_chain enc c r
  end.

(** Cipher-block chaining as the specification gives it,
    C_i = TEA_encrypt(P_i XOR C_{i-1}, key), with a zero initial chaining
    value, each block two 32-bit words converted between bytes and integers
    in byte order [o]. *)
Definition spec_cbc (o : byteorder) (keys : list Z) (plain : list byte) : list byte :=
  bytes_of_blocks o
    (cbc_chain (tea_block (keys !!! 0%nat) (keys !!! 1%nat) (keys !!! 2%nat) (keys !!! 3%nat))
       (0, 0) (blocks_of o plain)).

(** The login key of the specification for byte order [o]:
    "<lowercase-hex of X>-<lowercase-hex of the ciphertext blocks>". *)
Definition spec_login_key (o : byteorder) (dhx : Z) (plain : list byte) : string :=
  fmt_x (dhG ^ dhx mod dhN) ++ "-" ++
  hexlify (spec_cbc o (spec_key_words o (dhY ^ dhx mod dhN)) plain).

(* ----------------------------------------------------------------- *)
(** ** Predicates used in the statements *)

Definition word32 (x : Z) : Prop := 0 <= x < 2 ^ 32.

Definition st_ok (st : Z * Z * Z) : Prop :=
  word32 (fst (fst st)) /\ word32 (snd (fst st)) /\ word32 (snd st).

Definition key32 (key : Z) : Prop := 16 ^ 31 <= key < 16 ^ 32.

Definition word_pair (p : Z * Z) : Prop := word32 (fst p) /\ word32 (snd p).

Definition length_error : py_exn :=
  ValueError "Length of plain text must be multiple of 8.".

(** A lowercase hexadecimal digit, '0'..'9' or 'a'..'f'. *)
Definition lower_hex (c : ascii) : bool :=
  let code := Z.of_N (N_of_ascii c) in
  ((48 <=? code) && (code <=? 57)) || ((97 <=? code) && (code <=? 102)).

(** Text made of lowercase hexadecimal digits only. *)
Fixpoint all_lower_hex (s : string) : bool :=
  match s with
  | EmptyString => true
  | String c r => lower_hex c && all_lower_hex r
  end.

(** Sample plaintext used in the examples: the challenge plaintext for
    nonce 0, server seed "seed", user "user", password "pass". *)
Definition example_plain : list byte :=
  Eval vm_compute in
    match login_plain 0 "seed" "user" "pass" with
    | inr p => p
    | inl _ => []
    end.

(* ================================================================= *)
(** * The socket and the poll object *)

(** What a call of [socket.recv] meets: bytes that have arrived (the empty
    string is the end of the stream), a socket error or the timeout. *)
Inductive recv_event : Type :=
| RecvData (chunk : list byte)
| RecvError (args : list (Z + string))
| RecvTimeout.

(** What a call of [socket.send] meets: room for [room] bytes, a socket
    error or the timeout. *)
Inductive send_event : Type :=
| SendRoom (room : nat)
| SendError (args : list (Z + string))
| SendTimeout.

(** A connected socket: the events its next calls meet, in order, the
    bytes handed to the peer so far and whether [close] was called.  An
    exhausted [sock_rx] means nothing arrives any more and the timeout set
    by [create_connection] elapses; an exhausted [sock_tx] means every
    [send] is taken whole. *)
Record socket_state : Type := mkSocket {
  sock_rx : list recv_event;
  sock_tx : list send_event;
  sock_sent : list byte;
  sock_closed : bool
}.

Definition set_rx (rx : list recv_event) (s : socket_state) : socket_state :=
  mkSocket rx (sock_tx s) (sock_sent s) (sock_closed s).

Definition bad_descriptor : py_exn :=
  SocketError [inl 9; inr "Bad file descriptor"].

(** [socket.recv(bufsize)] *)
Definition sock_recv (bufsize : Z) (s : socket_state) : res (list byte) * socket_state :=
  if sock_closed s then (Raise bad_descriptor, s)
  else
    match sock_rx s with
    | [] => (Raise SocketTimeout, s)
    | RecvData [] :: _ => (Return [], s)
    | RecvData chunk :: rest =>
        let k := Z.to_nat bufsize in
        (Return (take k chunk),
         set_rx (match drop k chunk with
                 | [] => rest
                 | more => RecvData more :: rest
                 end) s)
    | RecvError args :: rest => (Raise (SocketError args), set_rx rest s)
    | RecvTimeout :: rest => (Raise SocketTimeout, set_rx rest s)
    end.

(** [socket.send(data)] *)
Definition sock_send (data : list byte) (s : socket_state) : res Z * socket_state :=
  if sock_closed s then (Raise bad_descriptor, s)
  else
    match sock_tx s with
    | [] =>
        (Return (Z.of_nat (length data)),
         mkSocket (sock_rx s) [] (sock_sent s ++ data) (sock_closed s))
    | SendRoom room :: rest =>
        let k := Nat.min room (length data) in
        (Return (Z.of_nat k),
         mkSocket (sock_rx s) rest (sock_sent s ++ take k data) (sock_closed s))
    | SendError args :: rest =>
        (Raise (SocketError args),
         mkSocket (sock_rx s) rest (sock_sent s) (sock_closed s))
    | SendTimeout :: rest =>
        (Raise SocketTimeout,
         mkSocket (sock_rx s) rest (sock_sent s) (sock_closed s))
    end.

(** [socket.close()]; no method of [Chat] calls it. *)
Definition sock_close (s : socket_state) : socket_state :=
  mkSocket (sock_rx s) (sock_tx s) (sock_sent s) true.

(** The answer of one call of [poll.poll(ping_interval)]: the list of
    (descriptor, event mask) pairs, empty when the interval elapsed, or
    the interrupt of the user. *)
Inductive poll_event : Type :=
| PollReady (io_events : list (Z * Z))
| PollInterrupt.

Definition POLLIN : Z := 1.
Definition POLLERR : Z := 8.
Definition POLLHUP : Z := 16.

(** Classes named in the [except] clauses of the module. *)
Inductive exc_class : Type :=
| class_socket_error
| class_socket_timeout
| class_KeyError
| class_KeyboardInterrupt.

(** [isinstance(e, c)].  In Python 2 [socket.timeout] is a subclass of
    [socket.error]. *)
Definition isinstance (e : py_exn) (c : exc_class) : bool :=
  match c, e with
  | class_socket_error, SocketError _ => true
  | class_socket_error, SocketTimeout => true
  | class_socket_timeout, SocketTimeout => true
  | class_KeyError, KeyError => true
  | class_KeyboardInterrupt, KeyboardInterrupt => true
  | _, _ => false
  end.

(** [tuple(error)]: the arguments of the exception. *)
Definition exn_args (e : py_exn) : list (Z + string) :=
  match e with
  | SocketError args => args
  | SocketTimeout => [inr "timed out"]
  | _ => []
  end.

(** ["Socket error %d: %s" % tuple(error)] *)
Definition fmt_socket_error (args : list (Z + string)) : res string :=
  match args with
  | [inl code; inl n] => Return ("Socket error " ++ str code ++ ": " ++ str n)
  | [inl code; inr msg] => Return ("Socket error " ++ str code ++ ": " ++ msg)
  | _ => Raise TypeError
  end.

(** [struct.unpack(">2H", head)] *)
Definition struct_unpack_2H (head : list byte) : res (Z * Z) :=
  match head with
  | [b0; b1; b2; b3] => Return (be_value [b0; b1], be_value [b2; b3])
  | _ => Raise StructError
  end.

(* ================================================================= *)
(** * The packet classes of [aochat.core.packets] *)

(** A packet class: its [type] and its constructor from the payload. *)
Record PacketClass (Packet : Type) : Type := mkPacketClass {
  cls_type : Z;
  cls_make : list byte -> res Packet
}.
Arguments cls_type {Packet} _.
Arguments cls_make {Packet} _ _.

(** The module [aochat.core.packets] is not part of the sources at hand;
    the session code is given over what it imports from it: the packet
    objects with the attributes the session reads, the packet classes and
    the registry of server packets. *)
Class Codec : Type := {
  Packet : Type;
  ClientPacket : Type;
  Character : Type;
  packet_type : Packet -> Z;                       (* packet.type *)
  packet_server_key : Packet -> string;            (* packet.server_key *)
  packet_characters : Packet -> list Character;    (* packet.characters *)
  packet_message : Packet -> string;               (* packet.message *)
  char_id : Character -> Z;                        (* character.id *)
  pack : ClientPacket -> list byte;                (* packet.pack() *)
  SERVER_PACKETS : gmap Z (PacketClass Packet);
  AOSP_SEED : PacketClass Packet;
  AOSP_LOGIN_OK : PacketClass Packet;
  AOSP_AUTH_ERROR : PacketClass Packet;
  AOSP_CHARACTERS_LIST : PacketClass Packet;
  AOSP_PING : PacketClass Packet;
  AOCP_AUTH : string -> string -> ClientPacket;
  AOCP_LOGIN : Z -> ClientPacket;
  AOCP_PING : ClientPacket
}.

(* ================================================================= *)
(** * The session: class [Chat] *)

Section Session.
Context `{codec : Codec}.

(** Exceptions of the session: those of the interpreter and the two
    classes the module defines. *)
Inductive exn : Type :=
| PyExn (e : py_exn)
| ChatError (msg : string)
| UnexpectedPacket (type : Z) (arg : Packet + list byte).

(** Lines written by the [print] statements. *)
Inductive log_line : Type :=
| GotPacket (p : Packet)
| SentPacket (p : ClientPacket)
| UnexpectedLine (type : Z) (arg : Packet + list byte)
| HupLine
| ErrLine.

(** The attributes of a [Chat] object, and the standard output. *)
Record chat : Type := mkChat {
  socket : socket_state;
  character : option Character;
  characters : list Character;
  stdout : list log_line
}.

Definition set_socket (s : socket_state) (w : chat) : chat :=
  mkChat s (character w) (characters w) (stdout w).
Definition set_character (c : option Character) (w : chat) : chat :=
  mkChat (socket w) c (characters w) (stdout w).
Definition set_characters (cs : list Character) (w : chat) : chat :=
  mkChat (socket w) (character w) cs (stdout w).

(** Methods: a result or a raised exception, and the object after. *)
Definition M (A : Type) : Type := chat -> (exn + A) * chat.

Definition ret {A} (v : A) : M A := fun w => (inr v, w).
Definition raise {A} (e : exn) : M A := fun w => (inl e, w).
Definition bind {A B} (m : M A) (k : A -> M B) : M B :=
  fun w =>
    match m w with
    | (inl e, w') => (inl e, w')
    | (inr v, w') => k v w'
    end.
Definition lift {A} (r : res A) : M A :=
  match r with
  | inl e => raise (PyExn e)
  | inr v => ret v
  end.
Definition print (l : log_line) : M unit :=
  fun w => (inr tt, mkChat (socket w) (character w) (characters w) (stdout w ++ [l])).

Notation "x <- m ; k" := (bind m (fun x => k))
  (at level 20, m at level 100, k at level 200, only parsing).

(** The two [except] clauses around [recv] and [send], in their order. *)
Definition socket_except {A} (e : py_exn) : M A :=
  if isinstance e class_socket_error then
    msg <- lift (fmt_socket_error (exn_args e)) ;
    raise (ChatError msg)
  else if isinstance e class_socket_timeout then
    raise (ChatError "Connection timed out.")
  else raise (PyExn e).

(** [self.socket.recv(bytes)] inside its [try]. *)
Definition try_recv (bytes : Z) : M (list byte) :=
  fun w =>
    match sock_recv bytes (socket w) with
    | (inr chunk, s) => (inr chunk, set_socket s w)
    | (inl e, s) => socket_except e (set_socket s w)
    end.

(** [self.socket.send(data)] inside its [try]. *)
Definition try_send (data : list byte) : M Z :=
  fun w =>
    match sock_send data (socket w) with
    | (inr sent, s) => (inr sent, set_socket s w)
    | (inl e, s) => socket_except e (set_socket s w)
    end.

(** The [while bytes > 0:] loop of [__read_socket].  Every pass takes at
    least one byte, so [bytes] passes are enough: [fuel] counts them. *)
Fixpoint read_loop (fuel : nat) (bytes : Z) (data : list byte) : M (list byte) :=
  match fuel with
  | O => ret data
  | S fuel' =>
      if 0 <? bytes then
        chunk <- try_recv bytes ;
        match chunk with
        | [] => raise (ChatError "Connection broken.")
        | _ => read_loop fuel' (bytes - Z.of_nat (length chunk)) (data ++ chunk)
        end
      else ret data
  end.

Definition __read_socket (bytes : Z) : M (list byte) :=
  read_loop (Z.to_nat bytes) bytes [].

(** The [while bytes > 0:] loop of [__write_socket]. *)
Fixpoint write_loop (fuel : nat) (bytes : Z) (data : list byte) : M unit :=
  match fuel with
  | O => ret tt
  | S fuel' =>
      if 0 <? bytes then
        sent <- try_send data ;
        if sent =? 0 then raise (ChatError "Connection broken.")
        else write_loop fuel' (bytes - sent) (drop (Z.to_nat sent) data)
      else ret tt
  end.

Definition __write_socket (data : list byte) : M unit :=
  write_loop (length data) (Z.of_nat (length data)) data.

(** [Class(data)] under [try: ... except KeyError:]. *)
Definition make_registered (C : PacketClass Packet) (packet_type : Z)
    (data : list byte) : M Packet :=
  match cls_make C data with
  | inr packet => ret packet
  | inl e =>
      if isinstance e class_KeyError
      then raise (UnexpectedPacket packet_type (inr data))
      else raise (PyExn e)
  end.

(** The packet [wait_packet] makes of a frame it has read, or the
    exception it raises: the [if Expect: ... else: ...] block. *)
Definition make_packet (Expect Error : option (PacketClass Packet))
    (packet_type : Z) (data : list byte) : M Packet :=
  match Expect with
  | Some expect =>
      if negb (packet_type =? cls_type expect) then
        match Error with
        | Some error =>
            if packet_type =? cls_type error then
              packet <- lift (cls_make error data) ;
              raise (UnexpectedPacket packet_type (inl packet))
            else raise (ChatError "Unexpected error.")
        | None => raise (ChatError "Unexpected error.")
        end
      else lift (cls_make expect data)
  | None =>
      match SERVER_PACKETS !! packet_type with
      | Some C => make_registered C packet_type data
      | None => raise (UnexpectedPacket packet_type (inr data))
      end
  end.

Definition wait_packet (Expect Error : option (PacketClass Packet)) : M Packet :=
  head <- __read_socket 4 ;
  hdr <- lift (struct_unpack_2H head) ;
  let packet_type := fst hdr in
  let packet_length := snd hdr in
  data <- __read_socket packet_length ;
  packet <- make_packet Expect Error packet_type data ;
  _ <- print (GotPacket packet) ;
  ret packet.

(** [send_packet]; the result is [None] when no reply is expected. *)
Definition send_packet (packet : ClientPacket)
    (Expect Error : option (PacketClass Packet)) : M (option Packet) :=
  let data := pack packet in
  _ <- __write_socket data ;
  _ <- print (SentPacket packet) ;
  match Expect with
  | Some _ => reply <- wait_packet Expect Error ; ret (Some reply)
  | None => ret None
  end.

(** [except UnexpectedPacket, (type, packet): raise ChatError(packet.message)] *)
Definition except_unexpected_message {A} (m : M A) : M A :=
  fun w =>
    match m w with
    | (inl (UnexpectedPacket _ (inl packet)), w') =>
        (inl (ChatError (packet_message packet)), w')
    | (inl (UnexpectedPacket _ (inr _)), w') => (inl (PyExn AttributeError), w')
    | r => r
    end.

Definition login (character_id : Z) : M unit :=
  fun w =>
    match List.find (fun c => character_id =? char_id c) (characters w) with
    | None => raise (ChatError "no valid characters to login.") w
    | Some character =>
        (_ <- except_unexpected_message
                (send_packet (AOCP_LOGIN character_id)
                   (Some AOSP_LOGIN_OK) (Some AOSP_AUTH_ERROR)) ;
         fun w' => (inr tt, set_character (Some character) w')) w
    end.

Definition logout : M unit :=
  fun w => (inr tt, set_character None w).

Definition ping : M unit :=
  _ <- send_packet AOCP_PING (Some AOSP_PING) None ;
  ret tt.

(** Outcome of the body of the [for] loop of [start]: go on with the
    next event, or [return]. *)
Inductive flow : Type := Next | Returned.

(** A registered callback, called as [events[packet.type](self, packet)]. *)
Definition handler : Type := Packet -> M unit.

(** The body of [for socket, io_event in io_events:]. *)
Definition on_event (events : gmap Z handler) (io_event : Z) : M flow :=
  if io_event =? POLLIN then
    fun w =>
      match wait_packet None None w with
      | (inl (UnexpectedPacket type data), w') =>
          (_ <- print (UnexpectedLine type data) ; ret Next) w'
      | (inl e, w') => (inl e, w')
      | (inr packet, w') =>
          match events !! packet_type packet with
          | Some callback => (_ <- callback packet ; ret Next) w'
          | None => (inr Next, w')
          end
      end
  else if io_event =? POLLHUP then
    _ <- print HupLine ; ret Returned
  else if io_event =? POLLERR then
    _ <- print ErrLine ; ret Returned
  else ret Next.

Fixpoint for_events (events : gmap Z handler) (io_events : list (Z * Z)) : M flow :=
  match io_events with
  | [] => ret Next
  | (_, io_event) :: rest =>
      f <- on_event events io_event ;
      match f with
      | Returned => ret Returned
      | Next => for_events events rest
      end
  end.

(** One pass of [while True:] after [poll.poll] answered [io_events]. *)
Definition on_poll (events : gmap Z handler) (io_events : list (Z * Z)) : M flow :=
  f <- for_events events io_events ;
  match f with
  | Returned => ret Returned
  | Next =>
      match io_events with
      | [] => _ <- ping ; ret Next
      | _ => ret Next
      end
  end.

(** [start]: [polls] lists the answers of the successive calls of
    [poll.poll]; when they are exhausted the user interrupts.  A
    [KeyboardInterrupt] raised inside the [try] leaves the loop. *)
Fixpoint start (events : gmap Z handler) (polls : list poll_event) : M unit :=
  match polls with
  | [] => ret tt
  | PollInterrupt :: _ => ret tt
  | PollReady io_events :: rest =>
      fun w =>
        match on_poll events io_events w with
        | (inl (PyExn KeyboardInterrupt), w') => (inr tt, w')
        | (inl e, w') => (inl e, w')
        | (inr Returned, w') => (inr tt, w')
        | (inr Next, w') => start events rest w'
        end
  end.

(** The object under construction once [self.socket] is assigned. *)
Definition new_chat (s : socket_state) : chat := mkChat s None [] [].

(** The body of [__init__] after the connection is made; [host] is the
    byte order of the machine, [dhx] and [nonce] the random draws of
    [generate_login_key]. *)
Definition handshake (host : byteorder) (dhx nonce : Z)
    (username password : string) : M unit :=
  fun w =>
    match (seed <- wait_packet (Some AOSP_SEED) None ;
           lift (generate_login_key host dhx nonce
                   (packet_server_key seed) username password)) w with
    | (inl (UnexpectedPacket type _), w') =>
        (inl (ChatError ("Invalid greeting packet: " ++ str type)), w')
    | (inl e, w') => (inl e, w')
    | (inr login_key, w') =>
        (reply <- except_unexpected_message
                    (send_packet (AOCP_AUTH username login_key)
                       (Some AOSP_CHARACTERS_LIST) (Some AOSP_AUTH_ERROR)) ;
         fun w'' =>
           match reply with
           | Some packet => (inr tt, set_characters (packet_characters packet) w'')
           | None => (inl (PyExn AttributeError), w'')
           end) (set_character None w')
    end.

(** [Chat.__init__]; [connection] is the outcome of
    [socket.create_connection].  The object is [None] when no socket
    was made. *)
Definition __init__ (host : byteorder) (dhx nonce : Z) (username password : string)
    (connection : res socket_state) : (exn + unit) * option chat :=
  match connection with
  | inl e =>
      if isinstance e class_socket_error then
        match fmt_socket_error (exn_args e) with
        | inr msg => (inl (ChatError msg), None)
        | inl e' => (inl (PyExn e'), None)
        end
      else (inl (PyExn e), None)
  | inr s =>
      let (r, w) := handshake host dhx nonce username password (new_chat s) in
      (r, Some w)
  end.
End Session.

(** A frame on the wire: type, length of the payload, payload. *)
Definition frame (type : Z) (payload : list byte) : list byte :=
  (be_bytes 2 type ++ be_bytes 2 (Z.of_nat (length payload)) ++ payload)%list.

(* ----------------------------------------------------------------- *)
(** ** A codec set for the examples *)

(** Packets that keep their type and payload, characters that are their
    id; the type numbers are those of the protocol. *)
Record ex_packet : Type := mkExPacket { ex_type : Z; ex_payload : list byte }.

Definition ex_class (type : Z) : PacketClass ex_packet :=
  mkPacketClass ex_packet type (fun data => Return (mkExPacket type data)).

Definition ex_registry : gmap Z (PacketClass ex_packet) :=
  Eval vm_compute in
    list_to_map [(0, ex_class 0); (5, ex_class 5); (6, ex_class 6);
                 (7, ex_class 7); (100, ex_class 100)].

Definition example_codec : Codec := {|
  Packet := ex_packet;
  ClientPacket := ex_packet;
  Character := Z;
  packet_type := ex_type;
  packet_server_key := fun p => string_of_list_byte (ex_payload p);
  packet_characters := fun p => map byte_val (ex_payload p);
  packet_message := fun p => string_of_list_byte (ex_payload p);
  char_id := fun c => c;
  pack := fun p => frame (ex_type p) (ex_payload p);
  SERVER_PACKETS := ex_registry;
  AOSP_SEED := ex_class 0;
  AOSP_LOGIN_OK := ex_class 5;
  AOSP_AUTH_ERROR := ex_class 6;
  AOSP_CHARACTERS_LIST := ex_class 7;
  AOSP_PING := ex_class 100;
  AOCP_AUTH := fun username login_key =>
    mkExPacket 2 (list_byte_of_string (username ++ " " ++ login_key));
  AOCP_LOGIN := fun character_id => mkExPacket 3 (be_bytes 4 character_id);
  AOCP_PING := mkExPacket 100 []
|}.

(** An open socket on which [rx] arrives and every [send] is taken whole. *)
Definition ex_socket (rx : list recv_event) : socket_state := mkSocket rx [] [] false.

(** A class whose constructor looks the first byte of the payload up in a
    table of its own and raises [KeyError] when there is none. *)
Definition ex_keyed_class (type : Z) : PacketClass ex_packet :=
  mkPacketClass ex_packet type
    (fun data =>
       match data with
       | [] => Raise KeyError
       | _ => Return (mkExPacket type data)
       end).

(** The codec of the examples with one more server packet, of type 20 and
    of that class. *)
Definition keyed_codec : Codec := {|
  Packet := ex_packet;
  ClientPacket := ex_packet;
  Character := Z;
  packet_type := ex_type;
  packet_server_key := fun p => string_of_list_byte (ex_payload p);
  packet_characters := fun p => map byte_val (ex_payload p);
  packet_message := fun p => string_of_list_byte (ex_payload p);
  char_id := fun c => c;
  pack := fun p => frame (ex_type p) (ex_payload p);
  SERVER_PACKETS := <[20 := ex_keyed_class 20]> ex_registry;
  AOSP_SEED := ex_class 0;
  AOSP_LOGIN_OK := ex_class 5;
  AOSP_AUTH_ERROR := ex_class 6;
  AOSP_CHARACTERS_LIST := ex_class 7;
  AOSP_PING := ex_class 100;
  AOCP_AUTH := fun username login_key =>
    mkExPacket 2 (list_byte_of_string (username ++ " " ++ login_key));
  AOCP_LOGIN := fun character_id => mkExPacket 3 (be_bytes 4 character_id);
  AOCP_PING := mkExPacket 100 []
|}.

(* ----------------------------------------------------------------- *)
(** ** Descriptions of the object after a step, used in the statements *)

Section States.
Context `{codec : Codec}.

(** The object once its socket has [rx] left to receive. *)
Definition received (rx : list recv_event) (w : chat) : chat :=
  set_socket (set_rx rx (socket w)) w.

(** The object once [data] went out, [tx] being left of the send events. *)
Definition transmitted (tx : list send_event) (data : list byte) (w : chat) : chat :=
  set_socket (mkSocket (sock_rx (socket w)) tx (sock_sent (socket w) ++ data)%list
                (sock_closed (socket w))) w.

(** The object once [l] was printed. *)
Definition logged (l : log_line) (w : chat) : chat :=
  mkChat (socket w) (character w) (characters w) (stdout w ++ [l])%list.
(** A method that leaves the [closed] flag of the socket as it finds it. *)
Definition keeps_closed {A} (m : M A) : Prop :=
  forall w r w', m w = (r, w') -> sock_closed (socket w') = sock_closed (socket w).

Definition handlers_keep_closed (events : gmap Z handler) : Prop :=
  forall t callback packet, events !! t = Some callback -> keeps_closed (callback packet).
End States.

(** Chunks as [recv] returns them outside the end of the stream. *)
Definition nonempty (c : list byte) : Prop := c <> [].

(** Send events that all take at least one byte. *)
Definition good_tx (tx : list send_event) : Prop :=
  Forall (fun e => exists k, e = SendRoom (S k)) tx.

Definition seed_then_error : list byte :=
frame 0 (list_byte_of_string "seed") ++ frame 6 (list_byte_of_string "Wrong password.").

(** A session with characters 1, 2 and 42, to which the server sends the
    login-ok packet in two pieces. *)
Definition ex_session : chat (codec := example_codec) :=
  @mkChat example_codec (ex_socket [RecvData [x00; x05; x00]; RecvData [x00]])
    None [1; 2; 42] [].

(* ================================================================= *)
(** * Properties of the login key generator *)

Lemma byte_val_range b : 0 <= byte_val b < 256.
Proof.
  unfold byte_val. pose proof (Byte.to_N_bounded b). lia.
Qed.

Lemma byte_of_Z_val b : byte_of_Z (byte_val b) = b.
Proof.
  unfold byte_of_Z. pose proof (byte_val_range b).
  rewrite Z.mod_small by lia. unfold byte_val.
  rewrite N2Z.id, Byte.of_to_N. reflexivity.
Qed.

Lemma byte_val_of_Z z : byte_val (byte_of_Z z) = z mod 256.
Proof.
  unfold byte_of_Z, byte_val.
  pose proof (Z.mod_pos_bound z 256 ltac:(lia)).
  destruct (Byte.of_N (Z.to_N (z mod 256))) as [b|] eqn:E.
  - apply Byte.to_of_N in E. rewrite E. lia.
  - apply Byte.of_N_None_iff in E. lia.
Qed.

Lemma length_le_bytes n w : length (le_bytes n w) = n.
Proof. revert w. induction n; intros; simpl; auto. Qed.

Lemma le_value_range bs : 0 <= le_value bs < 256 ^ Z.of_nat (length bs).
Proof.
  induction bs as [|b r IH].
  - simpl. lia.
  - cbn [le_value length]. rewrite Nat2Z.inj_succ, Z.pow_succ_r by lia.
    pose proof (byte_val_range b). lia.
Qed.

Lemma le_value_le_bytes n w : le_value (le_bytes n w) = w mod 256 ^ Z.of_nat n.
Proof.
  revert w. induction n as [|n IH]; intros w.
  - simpl. rewrite Z.mod_1_r. reflexivity.
  - cbn [le_bytes le_value]. rewrite IH, byte_val_of_Z.
    rewrite Nat2Z.inj_succ, Z.pow_succ_r by lia.
    rewrite Z.rem_mul_r by lia. lia.
Qed.

Lemma le_bytes_le_value bs : le_bytes (length bs) (le_value bs) = bs.
Proof.
  induction bs as [|b r IH]; [reflexivity|].
  cbn [length le_bytes le_value].
  pose proof (byte_val_range b).
  f_equal.
  - rewrite <- (byte_of_Z_val b) at 2. unfold byte_of_Z.
    replace ((byte_val b + 256 * le_value r) mod 256) with (byte_val b mod 256)
      by (Z.div_mod_to_equations; lia).
    reflexivity.
  - replace ((byte_val b + 256 * le_value r) / 256) with (le_value r); [exact IH|].
    rewrite Z.add_comm, Z.mul_comm, Z.div_add_l by lia. rewrite Z.div_small by lia. lia.
Qed.

Lemma int_from_bytes_range o bs : 0 <= int_from_bytes o bs < 256 ^ Z.of_nat (length bs).
Proof.
  destruct o; simpl; [apply le_value_range|].
  unfold be_value. rewrite <- length_rev. apply le_value_range.
Qed.

Lemma int_to_from_bytes o bs : int_to_bytes o (length bs) (int_from_bytes o bs) = bs.
Proof.
  destruct o; simpl; [apply le_bytes_le_value|].
  unfold be_bytes, be_value. rewrite <- (length_rev bs), le_bytes_le_value.
  apply rev_involutive.
Qed.

Lemma int_from_to_bytes o n w : int_from_bytes o (int_to_bytes o n w) = w mod 256 ^ Z.of_nat n.
Proof.
  destruct o; simpl; [apply le_value_le_bytes|].
  unfold be_bytes, be_value. rewrite rev_involutive. apply le_value_le_bytes.
Qed.

Lemma length_int_to_bytes o n w : length (int_to_bytes o n w) = n.
Proof.
  destruct o; simpl; [apply length_le_bytes|].
  unfold be_bytes. rewrite length_rev. apply length_le_bytes.
Qed.

Lemma land_mask32 x : Z.land x mask32 = x mod 2 ^ 32.
Proof. change mask32 with (Z.ones 32). apply Z.land_ones. lia. Qed.

Lemma land_mask32_word x : word32 (Z.land x mask32).
Proof. rewrite land_mask32. apply Z.mod_pos_bound. lia. Qed.

Lemma land_mask32_id x : word32 x -> Z.land x mask32 = x.
Proof. intros H. rewrite land_mask32. apply Z.mod_small. exact H. Qed.

Lemma lxor_word32 x y : word32 x -> word32 y -> word32 (Z.lxor x y).
Proof.
  intros Hx Hy. unfold word32 in *.
  assert (Hlog : forall v, 0 <= v < 2 ^ 32 -> Z.log2 v < 32).
  { intros v Hv. destruct (Z.eq_dec v 0) as [->|Hn]; [reflexivity|].
    apply Z.log2_lt_pow2; lia. }
  assert (H0 : 0 <= Z.lxor x y) by (apply Z.lxor_nonneg; lia).
  split; [exact H0|].
  destruct (Z.eq_dec (Z.lxor x y) 0) as [->|Hn]; [lia|].
  apply Z.log2_lt_pow2; [lia|].
  pose proof (Z.log2_lxor x y ltac:(lia) ltac:(lia)).
  pose proof (Hlog x Hx). pose proof (Hlog y Hy). lia.
Qed.

Lemma add_sub_mask32 x m : word32 x ->
  Z.land (Z.land (x + m) mask32 - m) mask32 = x.
Proof.
  intros Hx. rewrite !land_mask32.
  rewrite Zminus_mod_idemp_l. replace (x + m - m) with x by lia.
  apply Z.mod_small. exact Hx.
Qed.

Lemma dec_enc_round k0 k1 k2 k3 a b s :
  word32 a -> word32 b -> word32 s ->
  dec_round k0 k1 k2 k3 (enc_round k0 k1 k2 k3 (a, b, s)) = (a, b, s).
Proof.
  intros Ha Hb Hs. unfold enc_round, dec_round.
  rewrite (add_sub_mask32 b) by exact Hb.
  rewrite (add_sub_mask32 a) by exact Ha.
  rewrite (add_sub_mask32 s) by exact Hs.
  reflexivity.
Qed.

Lemma enc_round_ok k0 k1 k2 k3 st : st_ok (enc_round k0 k1 k2 k3 st).
Proof.
  destruct st as [[a b] s]. unfold enc_round, st_ok. simpl.
  repeat split; apply land_mask32_word.
Qed.

Lemma dec_enc_iter k0 k1 k2 k3 n st : st_ok st ->
  Nat.iter n (dec_round k0 k1 k2 k3) (Nat.iter n (enc_round k0 k1 k2 k3) st) = st.
Proof.
  intros Hst. induction n as [|n IH]; [reflexivity|].
  rewrite Nat.iter_succ_r, Nat.iter_succ.
  assert (Hn : st_ok (Nat.iter n (enc_round k0 k1 k2 k3) st)).
  { destruct n; [exact Hst|rewrite Nat.iter_succ; apply enc_round_ok]. }
  destruct (Nat.iter n (enc_round k0 k1 k2 k3) st) as [[a b] s] eqn:E.
  destruct Hn as (Ha & Hb & Hs). simpl in Ha, Hb, Hs.
  rewrite dec_enc_round by assumption. exact IH.
Qed.

Lemma enc_iter_sum k0 k1 k2 k3 n a b s :
  snd (Nat.iter n (enc_round k0 k1 k2 k3) (a, b, s))
  = Nat.iter n (fun s => Z.land (s + delta) mask32) s.
Proof.
  induction n as [|n IH]; [reflexivity|].
  rewrite !Nat.iter_succ. rewrite <- IH.
  destruct (Nat.iter n (enc_round k0 k1 k2 k3) (a, b, s)) as [[a' b'] s'].
  reflexivity.
Qed.

Lemma tea_loop_rounds n k0 k1 k2 k3 more a b s :
  tea_loop n (k0 :: k1 :: k2 :: k3 :: more) a b s
  = Return (fst (Nat.iter n (enc_round k0 k1 k2 k3) (a, b, s))).
Proof.
  revert a b s. induction n as [|n IH]; intros a b s; [reflexivity|].
  rewrite Nat.iter_succ_r. cbn [tea_loop].
  change (getitem (k0 :: k1 :: k2 :: k3 :: more) 0) with (Return (A:=Z) k0).
  change (getitem (k0 :: k1 :: k2 :: k3 :: more) 1) with (Return (A:=Z) k1).
  change (getitem (k0 :: k1 :: k2 :: k3 :: more) 2) with (Return (A:=Z) k2).
  change (getitem (k0 :: k1 :: k2 :: k3 :: more) 3) with (Return (A:=Z) k3).
  cbn [res_bind Return]. rewrite IH. reflexivity.
Qed.

Lemma tea_loop_short n keys a b s :
  (length keys < 4)%nat -> tea_loop (S n) keys a b s = Raise IndexError.
Proof.
  intros H. destruct keys as [|k0 [|k1 [|k2 [|k3 more]]]]; simpl in H; try lia; reflexivity.
Qed.

Lemma tea_encrypt_block k0 k1 k2 k3 more c :
  _tea_encrypt c (k0 :: k1 :: k2 :: k3 :: more) = Return (tea_block k0 k1 k2 k3 c).
Proof.
  destruct c as [a b]. unfold _tea_encrypt, tea_block.
  rewrite tea_loop_rounds. cbn [fst snd]. reflexivity.
Qed.

Lemma tea_block_word k0 k1 k2 k3 c :
  word32 (fst (tea_block k0 k1 k2 k3 c)) /\ word32 (snd (tea_block k0 k1 k2 k3 c)).
Proof.
  unfold tea_block. rewrite Nat.iter_succ.
  pose proof (enc_round_ok k0 k1 k2 k3
    (Nat.iter 31 (enc_round k0 k1 k2 k3) (fst c, snd c, 0))) as (H1 & H2 & _).
  split; assumption.
Qed.

Lemma delta_sum_32 :
  Nat.iter 32 (fun s => Z.land (s + delta) mask32) 0 = 0xC6EF3720.
Proof. vm_compute. reflexivity. Qed.

Lemma tea_decrypt_block k0 k1 k2 k3 more c :
  word32 (fst c) -> word32 (snd c) ->
  tea_decrypt (tea_block k0 k1 k2 k3 c) (k0 :: k1 :: k2 :: k3 :: more) = Return c.
Proof.
  intros Ha Hb. unfold tea_decrypt, tea_block.
  assert (Hok : st_ok (fst c, snd c, 0)).
  { unfold st_ok. cbn [fst snd]. split; [exact Ha|]. split; [exact Hb|].
    split; [apply Z.le_refl | reflexivity]. }
  pose proof (dec_enc_iter k0 k1 k2 k3 32 _ Hok) as Hinv.
  pose proof (enc_iter_sum k0 k1 k2 k3 32 (fst c) (snd c) 0) as Hs.
  rewrite delta_sum_32 in Hs.
  revert Hinv Hs.
  generalize (Nat.iter 32 (enc_round k0 k1 k2 k3) (fst c, snd c, 0)).
  intros [[x y] z] Hinv Hs. cbn [fst snd] in *. subst z.
  rewrite Hinv. destruct c; reflexivity.
Qed.
Lemma str_app_nil_l (b : string) : "" ++ b = b.
Proof. reflexivity. Qed.

Lemma str_app_cons x (a b : string) : String x a ++ b = String x (a ++ b).
Proof. reflexivity. Qed.

Lemma str_app_assoc (a b c : string) : (a ++ b) ++ c = a ++ (b ++ c).
Proof.
  induction a as [|x a IH]; [reflexivity|].
  rewrite !str_app_cons, IH. reflexivity.
Qed.

Lemma str_app_nil_r (a : string) : a ++ "" = a.
Proof.
  induction a as [|x a IH]; [reflexivity|].
  rewrite str_app_cons, IH. reflexivity.
Qed.

Lemma str_length_app (a b : string) :
  String.length (a ++ b) = (String.length a + String.length b)%nat.
Proof.
  induction a as [|x a IH]; [reflexivity|].
  rewrite str_app_cons. cbn [String.length]. rewrite IH. reflexivity.
Qed.

Lemma str_take_app (a b : string) : str_take (String.length a) (a ++ b) = a.
Proof.
  induction a as [|x a IH]; [destruct b; reflexivity|].
  rewrite str_app_cons. cbn [String.length str_take]. rewrite IH. reflexivity.
Qed.

Lemma hex_val_digit_char d : 0 <= d < 16 -> hex_val (digit_char d) = Some d.
Proof.
  intros H.
  assert (Hc : d = 0 \/ d = 1 \/ d = 2 \/ d = 3 \/ d = 4 \/ d = 5 \/ d = 6 \/ d = 7 \/
               d = 8 \/ d = 9 \/ d = 10 \/ d = 11 \/ d = 12 \/ d = 13 \/ d = 14 \/ d = 15)
    by lia.
  repeat (destruct Hc as [->|Hc]; [reflexivity|]). subst d. reflexivity.
Qed.

Lemma digit_char_not_minus d : 0 <= d < 16 -> digit_char d <> "-"%char.
Proof.
  intros H.
  assert (Hc : d = 0 \/ d = 1 \/ d = 2 \/ d = 3 \/ d = 4 \/ d = 5 \/ d = 6 \/ d = 7 \/
               d = 8 \/ d = 9 \/ d = 10 \/ d = 11 \/ d = 12 \/ d = 13 \/ d = 14 \/ d = 15)
    by lia.
  repeat (destruct Hc as [->|Hc]; [discriminate|]). subst d. discriminate.
Qed.

Lemma fixed_digits_app k base n acc :
  fixed_digits k base n acc = fixed_digits k base n "" ++ acc.
Proof.
  revert n acc. induction k as [|k IH]; intros n acc; [reflexivity|].
  cbn [fixed_digits]. rewrite IH. rewrite (IH _ (String _ "")).
  rewrite str_app_assoc. reflexivity.
Qed.

Lemma length_fixed_digits k base n acc :
  String.length (fixed_digits k base n acc) = (k + String.length acc)%nat.
Proof.
  revert n acc. induction k as [|k IH]; intros n acc; [reflexivity|].
  cbn [fixed_digits]. rewrite IH. simpl. lia.
Qed.

Lemma fixed_digits_split k2 k1 base n acc : 0 < base ->
  fixed_digits (k2 + k1) base n acc
  = fixed_digits k1 base (n / base ^ Z.of_nat k2) (fixed_digits k2 base n acc).
Proof.
  intros Hb. revert n acc. induction k2 as [|k2 IH]; intros n acc.
  - simpl. rewrite Z.div_1_r. reflexivity.
  - cbn [Nat.add fixed_digits]. rewrite IH.
    rewrite Nat2Z.inj_succ, Z.pow_succ_r by lia.
    rewrite Z.div_div by lia. reflexivity.
Qed.

Lemma hex_value_fixed_digits k v acc rest :
  0 <= acc ->
  hex_value acc (fixed_digits k 16 v rest)
  = hex_value (acc * 16 ^ Z.of_nat k + v mod 16 ^ Z.of_nat k) rest.
Proof.
  revert v acc rest. induction k as [|k IH]; intros v acc rest Hacc.
  - simpl. rewrite Z.mod_1_r. f_equal. lia.
  - cbn [fixed_digits]. rewrite IH by exact Hacc. cbn [hex_value].
    rewrite hex_val_digit_char by (apply Z.mod_pos_bound; lia).
    f_equal. rewrite Nat2Z.inj_succ, Z.pow_succ_r by lia.
    rewrite (Z.rem_mul_r v 16 (16 ^ Z.of_nat k)) by lia. lia.
Qed.

Lemma fixed_digits_head k v rest :
  exists d s, 0 <= d < 16 /\ fixed_digits (S k) 16 v rest = String (digit_char d) s.
Proof.
  revert v rest. induction k as [|k IH]; intros v rest.
  - exists (v mod 16), rest. split; [apply Z.mod_pos_bound; lia|reflexivity].
  - change (fixed_digits (S (S k)) 16 v rest)
      with (fixed_digits (S k) 16 (v / 16) (String (digit_char (v mod 16)) rest)).
    apply IH.
Qed.

Lemma int16_fixed_digits k v :
  int16 (fixed_digits (S k) 16 v "") = Return (v mod 16 ^ Z.of_nat (S k)).
Proof.
  destruct (fixed_digits_head k v "") as (d & s & Hd & E).
  pose proof (hex_value_fixed_digits (S k) v 0 "" ltac:(lia)) as Hv.
  rewrite E in *. unfold int16.
  pose proof (digit_char_not_minus d Hd) as Hm.
  destruct (digit_char d) as [[] [] [] [] [] [] [] []] eqn:Ec;
    try (exfalso; apply Hm; reflexivity);
    rewrite Hv; cbn [hex_value]; rewrite Z.mul_0_l, Z.add_0_l; reflexivity.
Qed.

Section Digits.
Variable base : Z.
Hypothesis base_ge_2 : 2 <= base.

Lemma ndigits_fuel_le f n k :
  n < base ^ Z.of_nat (S k) -> (ndigits_fuel f base n <= S k)%nat.
Proof.
  revert n k. induction f as [|f IH]; intros n k Hn; cbn [ndigits_fuel]; [lia|].
  destruct (Z.ltb_spec n base) as [Hlt|Hge]; [lia|].
  destruct k as [|k]; [change (base ^ Z.of_nat 1) with (base ^ 1) in Hn; lia|].
  apply le_n_S. apply IH.
  rewrite Nat2Z.inj_succ, Z.pow_succ_r in Hn by lia.
  apply Z.div_lt_upper_bound; lia.
Qed.

Lemma pow_base_ge k : (0 < k)%nat -> base <= base ^ Z.of_nat k.
Proof.
  intros Hk. destruct k as [|k]; [lia|].
  rewrite Nat2Z.inj_succ, Z.pow_succ_r by lia.
  assert (0 < base ^ Z.of_nat k) by (apply Z.pow_pos_nonneg; lia). nia.
Qed.

Lemma ndigits_fuel_eq f n k :
  0 <= n < 2 ^ Z.of_nat (S f) ->
  (k = 0%nat \/ base ^ Z.of_nat k <= n) -> n < base ^ Z.of_nat (S k) ->
  ndigits_fuel f base n = S k.
Proof.
  revert n k. induction f as [|f IH]; intros n k Hf Hlo Hhi; cbn [ndigits_fuel].
  - destruct Hlo as [->|Hlo]; [reflexivity|].
    destruct k as [|k]; [reflexivity|].
    pose proof (pow_base_ge (S k) ltac:(lia)).
    change (2 ^ Z.of_nat 1) with 2 in Hf. lia.
  - destruct (Z.ltb_spec n base) as [Hlt|Hge].
    + destruct Hlo as [->|Hlo]; [reflexivity|].
      destruct k as [|k]; [reflexivity|].
      pose proof (pow_base_ge (S k) ltac:(lia)). lia.
    + destruct k as [|k]; [change (base ^ Z.of_nat 1) with (base ^ 1) in Hhi; lia|].
      f_equal. apply IH.
      * rewrite (Nat2Z.inj_succ (S f)), Z.pow_succ_r in Hf by lia.
        split; [apply Z.div_pos; lia|].
        apply Z.div_lt_upper_bound; [lia|].
        assert (0 < 2 ^ Z.of_nat (S f)) by (apply Z.pow_pos_nonneg; lia). nia.
      * destruct Hlo as [Hk|Hlo]; [discriminate|].
        right. rewrite Nat2Z.inj_succ, Z.pow_succ_r in Hlo by lia.
        apply Z.div_le_lower_bound; lia.
      * rewrite (Nat2Z.inj_succ (S k)), Z.pow_succ_r in Hhi by lia.
        apply Z.div_lt_upper_bound; lia.
Qed.

Lemma ndigits_eq n k :
  0 <= n -> (k = 0%nat \/ base ^ Z.of_nat k <= n) -> n < base ^ Z.of_nat (S k) ->
  ndigits base n = S k.
Proof.
  intros Hn Hlo Hhi. unfold ndigits. apply ndigits_fuel_eq; try assumption.
  split; [exact Hn|].
  destruct (Z.eq_dec n 0) as [->|Hne]; [reflexivity|].
  rewrite Nat2Z.inj_succ, Z2Nat.id by apply Z.log2_nonneg.
  apply Z.log2_spec. lia.
Qed.

Lemma ndigits_le n k : n < base ^ Z.of_nat (S k) -> (ndigits base n <= S k)%nat.
Proof. apply ndigits_fuel_le. Qed.

Lemma ndigits_pos n : (1 <= ndigits base n)%nat.
Proof. unfold ndigits. destruct (Z.to_nat (Z.log2 n)); simpl; [lia|]. destruct (n <? base); lia. Qed.

Lemma ndigits_fuel_spec f n :
  0 <= n < 2 ^ Z.of_nat (S f) ->
  n < base ^ Z.of_nat (ndigits_fuel f base n) /\
  (ndigits_fuel f base n = 1%nat \/
   base ^ (Z.of_nat (ndigits_fuel f base n) - 1) <= n).
Proof.
  revert n. induction f as [|f IH]; intros n Hn; cbn [ndigits_fuel].
  - change (2 ^ Z.of_nat 1) with 2 in Hn. change (base ^ Z.of_nat 1) with (base ^ 1).
    split; [lia|left; reflexivity].
  - destruct (Z.ltb_spec n base) as [Hlt|Hge].
    + change (base ^ Z.of_nat 1) with (base ^ 1). split; [lia|left; reflexivity].
    + assert (Hq : 0 <= n / base < 2 ^ Z.of_nat (S f)).
      { rewrite (Nat2Z.inj_succ (S f)), Z.pow_succ_r in Hn by lia.
        split; [apply Z.div_pos; lia|].
        apply Z.div_lt_upper_bound; [lia|].
        assert (0 < 2 ^ Z.of_nat (S f)) by (apply Z.pow_pos_nonneg; lia). nia. }
      destruct (IH _ Hq) as [Hhi Hlo].
      set (r := ndigits_fuel f base (n / base)) in *.
      assert (Hr : 0 < base ^ Z.of_nat r) by (apply Z.pow_pos_nonneg; lia).
      pose proof (Z.div_mod n base ltac:(lia)) as Hdm.
      pose proof (Z.mod_pos_bound n base ltac:(lia)) as Hmb.
      rewrite Nat2Z.inj_succ, Z.pow_succ_r by lia.
      split; [nia|]. right.
      replace (Z.succ (Z.of_nat r) - 1) with (Z.of_nat r) by lia.
      destruct Hlo as [Hlo|Hlo].
      * rewrite Hlo. change (base ^ Z.of_nat 1) with (base ^ 1). lia.
      * assert (Hrp : (1 <= r)%nat).
        { unfold r. destruct f; cbn [ndigits_fuel]; [lia|].
          destruct (n / base <? base); lia. }
        replace (Z.of_nat r) with (Z.succ (Z.of_nat r - 1)) by lia.
        rewrite Z.pow_succ_r by lia. nia.
Qed.

Lemma ndigits_spec n : 0 <= n ->
  n < base ^ Z.of_nat (ndigits base n) /\
  (ndigits base n = 1%nat \/ base ^ (Z.of_nat (ndigits base n) - 1) <= n).
Proof.
  intros Hn. unfold ndigits. apply ndigits_fuel_spec.
  split; [exact Hn|].
  destruct (Z.eq_dec n 0) as [->|Hne]; [reflexivity|].
  rewrite Nat2Z.inj_succ, Z2Nat.id by apply Z.log2_nonneg.
  apply Z.log2_spec. lia.
Qed.
End Digits.

Lemma pow_mod_pos_spec b p n : 0 < n -> pow_mod_pos b p n = b ^ Zpos p mod n.
Proof.
  intros Hn. induction p as [p IH|p IH|]; cbn [pow_mod_pos].
  - rewrite IH. rewrite Pos2Z.inj_xI.
    replace (2 * Z.pos p + 1) with (Z.pos p + Z.pos p + 1) by lia.
    rewrite !Z.pow_add_r by lia. rewrite Z.pow_1_r.
    rewrite <- Z.mul_mod by lia. rewrite Z.mul_mod_idemp_l by lia. reflexivity.
  - rewrite IH. rewrite Pos2Z.inj_xO.
    replace (2 * Z.pos p) with (Z.pos p + Z.pos p) by lia.
    rewrite Z.pow_add_r by lia. rewrite <- Z.mul_mod by lia. reflexivity.
  - rewrite Z.pow_1_r. reflexivity.
Qed.

Lemma pow3_spec b e n : 0 <= e -> 0 < n -> pow3 b e n = Return (b ^ e mod n).
Proof.
  intros He Hn. destruct e as [|p|p]; cbn [pow3]; [reflexivity| |lia].
  rewrite pow_mod_pos_spec by exact Hn. reflexivity.
Qed.

Lemma le_bytes_split n1 n2 w :
  le_bytes (n1 + n2) w = (le_bytes n1 w ++ le_bytes n2 (w / 256 ^ Z.of_nat n1))%list.
Proof.
  revert w. induction n1 as [|n1 IH]; intros w.
  - simpl. rewrite Z.div_1_r. reflexivity.
  - cbn [Nat.add le_bytes]. rewrite IH. cbn [app]. do 3 f_equal.
    rewrite Nat2Z.inj_succ, Z.pow_succ_r by lia. rewrite Z.div_div by lia. reflexivity.
Qed.

Lemma le_bytes_mod n w : le_bytes n (w mod 256 ^ Z.of_nat n) = le_bytes n w.
Proof.
  rewrite <- (le_value_le_bytes n w).
  rewrite <- (length_le_bytes n w) at 1.
  apply le_bytes_le_value.
Qed.

Lemma be_bytes_split n1 n2 w :
  be_bytes (n2 + n1) w = (be_bytes n1 (w / 256 ^ Z.of_nat n2) ++ be_bytes n2 w)%list.
Proof. unfold be_bytes. rewrite le_bytes_split, rev_app_distr. reflexivity. Qed.

Lemma be_bytes_mod n w : be_bytes n (w mod 256 ^ Z.of_nat n) = be_bytes n w.
Proof. unfold be_bytes. rewrite le_bytes_mod. reflexivity. Qed.

Lemma length_be_bytes n w : length (be_bytes n w) = n.
Proof. unfold be_bytes. rewrite length_rev. apply length_le_bytes. Qed.

Lemma be_bytes_be_value bs : be_bytes (length bs) (be_value bs) = bs.
Proof. exact (int_to_from_bytes BigEndian bs). Qed.

Lemma unpack_words_app4 o l r :
  length l = 4%nat -> unpack_words o (l ++ r) = int_from_bytes o l :: unpack_words o r.
Proof.
  intros H. destruct l as [|b0 [|b1 [|b2 [|b3 [|b4 l]]]]]; try discriminate H.
  reflexivity.
Qed.

Lemma ntohl_word host v :
  0 <= v < 2 ^ 32 -> ntohl host v = Return (int_from_bytes host (be_bytes 4 v)).
Proof.
  intros H. unfold ntohl.
  destruct (Z.leb_spec 0 v); [|lia]. destruct (Z.ltb_spec v (2 ^ 32)); [|lia].
  reflexivity.
Qed.

Lemma htonl_word host v :
  0 <= v < 2 ^ 32 -> htonl host v = Return (be_value (int_to_bytes host 4 v)).
Proof.
  intros H. unfold htonl.
  destruct (Z.leb_spec 0 v); [|lia]. destruct (Z.ltb_spec v (2 ^ 32)); [|lia].
  reflexivity.
Qed.

Lemma chunks8_fixed_digits base m rest :
  chunks8 (fixed_digits 8 base m rest) = fixed_digits 8 base m "" :: chunks8 rest.
Proof. reflexivity. Qed.

Lemma fmt_x_key32 key : key32 key -> fmt_x key = fixed_digits 32 16 key "".
Proof.
  intros [Hlo Hhi]. unfold fmt_x, digits.
  destruct (Z.ltb_spec key 0) as [Hneg|_]; [lia|].
  rewrite (ndigits_eq 16 ltac:(lia) key 31); [reflexivity|lia| |exact Hhi].
  right. exact Hlo.
Qed.

Lemma str_key32_length key : key32 key ->
  Z.of_nat (String.length (str key)) / 8 = 4.
Proof.
  intros [Hlo Hhi]. unfold str, digits.
  destruct (Z.ltb_spec key 0) as [Hneg|_]; [lia|].
  rewrite length_fixed_digits. cbn [String.length]. rewrite Nat.add_0_r.
  destruct (Z.lt_ge_cases key (10 ^ 38)) as [H|H].
  - rewrite (ndigits_eq 10 ltac:(lia) key 37); [reflexivity|lia| |exact H].
    right. change (Z.of_nat 37) with 37. lia.
  - rewrite (ndigits_eq 10 ltac:(lia) key 38); [reflexivity|lia| |].
    + right. exact H.
    + change (Z.of_nat 39) with 39. lia.
Qed.
Lemma crypt_keys_key32 host key : key32 key ->
  crypt_keys host key = Return (unpack_words host (be_bytes 16 key)).
Proof.
  intros Hk. unfold crypt_keys.
  rewrite (str_key32_length key Hk), (fmt_x_key32 key Hk).
  unfold struct_unpack_8s. rewrite length_fixed_digits.
  change (Z.of_nat (32 + String.length "") =? 8 * 4) with true.
  cbn [res_bind Return].
  change (fixed_digits 32 16 key "") with (fixed_digits (24 + 8) 16 key "").
  rewrite (fixed_digits_split 24 8 16 key "") by lia.
  change (fixed_digits 24 16 key "") with (fixed_digits (16 + 8) 16 key "").
  rewrite (fixed_digits_split 16 8 16 key "") by lia.
  change (fixed_digits 16 16 key "") with (fixed_digits (8 + 8) 16 key "").
  rewrite (fixed_digits_split 8 8 16 key "") by lia.
  rewrite !chunks8_fixed_digits.
  change (chunks8 "") with (@nil string).
  cbn [res_mapM res_bind Return].
  rewrite !int16_fixed_digits. cbn [res_bind Return].
  assert (Hw : forall v, ntohl host (v mod 16 ^ Z.of_nat 8)
                         = Return (int_from_bytes host (be_bytes 4 v))).
  { intros v. rewrite ntohl_word by (apply Z.mod_pos_bound; lia).
    change (16 ^ Z.of_nat 8) with (256 ^ Z.of_nat 4).
    rewrite be_bytes_mod. reflexivity. }
  rewrite !Hw. cbn [res_bind Return].
  change (be_bytes 16 key) with (be_bytes (12 + 4) key).
  rewrite (be_bytes_split 4 12 key).
  change (be_bytes 12 key) with (be_bytes (8 + 4) key).
  rewrite (be_bytes_split 4 8 key).
  change (be_bytes 8 key) with (be_bytes (4 + 4) key).
  rewrite (be_bytes_split 4 4 key).
  rewrite !unpack_words_app4 by apply length_be_bytes.
  rewrite <- (app_nil_r (be_bytes 4 key)).
  rewrite unpack_words_app4 by apply length_be_bytes.
  reflexivity.
Qed.

Lemma crypt_keys_length host key : key32 key ->
  exists k0 k1 k2 k3, crypt_keys host key = Return [k0; k1; k2; k3].
Proof.
  intros Hk. rewrite (crypt_keys_key32 host key Hk).
  change (be_bytes 16 key) with (be_bytes (12 + 4) key).
  rewrite (be_bytes_split 4 12 key).
  change (be_bytes 12 key) with (be_bytes (8 + 4) key).
  rewrite (be_bytes_split 4 8 key).
  change (be_bytes 8 key) with (be_bytes (4 + 4) key).
  rewrite (be_bytes_split 4 4 key).
  rewrite !unpack_words_app4 by apply length_be_bytes.
  rewrite <- (app_nil_r (be_bytes 4 key)).
  rewrite unpack_words_app4 by apply length_be_bytes.
  eauto.
Qed.
Global Opaque tea_block.

Lemma hexlify_app a b : hexlify (a ++ b) = hexlify a ++ hexlify b.
Proof.
  induction a as [|x a IH]; [reflexivity|].
  cbn [app hexlify]. rewrite IH.
  rewrite (fixed_digits_app 2 16 _ (hexlify a ++ hexlify b)).
  rewrite (fixed_digits_app 2 16 _ (hexlify a)).
  rewrite str_app_assoc. reflexivity.
Qed.

Lemma hexlify_le_value bs acc :
  fixed_digits (2 * length bs) 16 (le_value bs) acc = hexlify (rev bs) ++ acc.
Proof.
  revert acc. induction bs as [|b r IH]; intros acc; [reflexivity|].
  replace (2 * length (b :: r))%nat with (S (S (2 * length r))) by (cbn [length]; lia).
  cbn [fixed_digits le_value rev].
  pose proof (byte_val_range b) as Hb.
  replace ((byte_val b + 256 * le_value r) / 16 / 16) with (le_value r)
    by (Z.div_mod_to_equations; lia).
  rewrite IH, hexlify_app, str_app_assoc. f_equal.
  cbn [hexlify fixed_digits]. rewrite str_app_cons, str_app_cons, str_app_nil_l.
  replace ((byte_val b + 256 * le_value r) / 16 mod 16) with (byte_val b / 16 mod 16)
    by (Z.div_mod_to_equations; lia).
  replace ((byte_val b + 256 * le_value r) mod 16) with (byte_val b mod 16)
    by (Z.div_mod_to_equations; lia).
  reflexivity.
Qed.

Lemma hexlify_be_value bs : length bs = 4%nat ->
  fixed_digits 8 16 (be_value bs) "" = hexlify bs.
Proof.
  intros H. unfold be_value.
  pose proof (hexlify_le_value (rev bs) "") as E.
  rewrite length_rev, H, rev_involutive, str_app_nil_r in E. exact E.
Qed.

Lemma fmt_08x_word v : word32 v -> fmt_08x v = fixed_digits 8 16 v "".
Proof.
  intros [Hlo Hhi]. unfold fmt_08x.
  destruct (Z.ltb_spec v 0) as [Hneg|_]; [lia|].
  pose proof (ndigits_le 16 ltac:(lia) v 7 ltac:(change (16 ^ Z.of_nat 8) with (2 ^ 32); lia)).
  rewrite Nat.max_l by lia. reflexivity.
Qed.

Lemma be_value_word bs : length bs = 4%nat -> word32 (be_value bs).
Proof.
  intros H. pose proof (int_from_bytes_range BigEndian bs) as R.
  rewrite H in R. exact R.
Qed.

Lemma int_from_bytes_word o bs : length bs = 4%nat -> word32 (int_from_bytes o bs).
Proof.
  intros H. pose proof (int_from_bytes_range o bs) as R.
  rewrite H in R. exact R.
Qed.

(** One formatted word of [_crypt]: the hexadecimal text of the four
    bytes of [r] in host order. *)
Lemma crypt_word host r : word32 r ->
  res_bind (htonl host r) (fun h => Return (fmt_08x (Z.land h mask32)))
  = Return (hexlify (int_to_bytes host 4 r)).
Proof.
  intros Hr. rewrite htonl_word by exact Hr. cbn [res_bind Return].
  pose proof (be_value_word (int_to_bytes host 4 r) (length_int_to_bytes host 4 r)) as Hw.
  rewrite land_mask32_id by exact Hw.
  rewrite fmt_08x_word by exact Hw.
  rewrite hexlify_be_value by apply length_int_to_bytes. reflexivity.
Qed.

Lemma list_ind8 (P : list byte -> Prop) :
  P [] ->
  (forall b0 b1 b2 b3 b4 b5 b6 b7 r, P r ->
     P (b0 :: b1 :: b2 :: b3 :: b4 :: b5 :: b6 :: b7 :: r)) ->
  forall l, Z.of_nat (length l) mod 8 = 0 -> P l.
Proof.
  intros Hnil Hstep l.
  assert (H : forall n l, (length l <= n)%nat -> Z.of_nat (length l) mod 8 = 0 -> P l).
  { clear l. induction n as [|n IH]; intros l Hlen Hmod.
    - destruct l; [exact Hnil|cbn [length] in Hlen; lia].
    - destruct l as [|b0 [|b1 [|b2 [|b3 [|b4 [|b5 [|b6 [|b7 r]]]]]]]];
        try exact Hnil; try (exfalso; cbn in Hmod; discriminate Hmod).
      apply Hstep. apply IH.
      + cbn [length] in Hlen. lia.
      + cbn [length] in Hmod. rewrite !Nat2Z.inj_succ in Hmod.
        Z.div_mod_to_equations. lia. }
  apply (H (length l)). lia.
Qed.

Lemma crypt_loop_spec host k0 k1 k2 k3 more plain :
  Z.of_nat (length plain) mod 8 = 0 ->
  forall result crypted,
    crypt_loop host (k0 :: k1 :: k2 :: k3 :: more) (unpack_words host plain) result crypted
    = Return (crypted ++
        hexlify (bytes_of_blocks host
          (cbc_chain (tea_block k0 k1 k2 k3) result (blocks_of host plain)))).
Proof.
  intros Hlen. pattern plain. revert plain Hlen. apply list_ind8.
  - intros result crypted. cbn [unpack_words crypt_loop blocks_of cbc_chain bytes_of_blocks hexlify].
    rewrite str_app_nil_r. reflexivity.
  - intros b0 b1 b2 b3 b4 b5 b6 b7 r IH result crypted.
    cbn [unpack_words crypt_loop blocks_of cbc_chain bytes_of_blocks fst snd].
    set (cyc := (Z.lxor (int_from_bytes host [b0; b1; b2; b3]) (fst result),
                 Z.lxor (int_from_bytes host [b4; b5; b6; b7]) (snd result))).
    rewrite tea_encrypt_block. cbn [res_bind Return].
    destruct (tea_block_word k0 k1 k2 k3 cyc) as [Hc0 Hc1].
    set (c := tea_block k0 k1 k2 k3 cyc) in *.
    rewrite (htonl_word host (fst c) Hc0), (htonl_word host (snd c) Hc1).
    cbn [res_bind Return].
    rewrite IH. f_equal.
    pose proof (crypt_word host (fst c) Hc0) as E0.
    pose proof (crypt_word host (snd c) Hc1) as E1.
    rewrite (htonl_word host _ Hc0) in E0. rewrite (htonl_word host _ Hc1) in E1.
    cbn [res_bind Return] in E0, E1.
    injection E0 as E0. injection E1 as E1. rewrite E0, E1.
    rewrite !hexlify_app, !str_app_assoc. reflexivity.
Qed.

Lemma lxor_cancel_r a b : Z.lxor (Z.lxor a b) b = a.
Proof. rewrite Z.lxor_assoc, Z.lxor_nilpotent, Z.lxor_0_r. reflexivity. Qed.

Lemma int16_hexlify_word host r : word32 r ->
  res_bind (int16 (fixed_digits 8 16 (be_value (int_to_bytes host 4 r)) ""))
           (fun v => ntohl host v) = Return r.
Proof.
  intros Hr.
  pose proof (be_value_word (int_to_bytes host 4 r) (length_int_to_bytes host 4 r)) as Hw.
  rewrite int16_fixed_digits. cbn [res_bind Return].
  change (16 ^ Z.of_nat 8) with (2 ^ 32).
  rewrite Z.mod_small by exact Hw.
  rewrite ntohl_word by exact Hw.
  rewrite <- (length_int_to_bytes host 4 r) at 1.
  rewrite be_bytes_be_value, int_from_to_bytes.
  change (256 ^ Z.of_nat 4) with (2 ^ 32).
  rewrite Z.mod_small by exact Hr. reflexivity.
Qed.

Lemma decrypt_loop_spec host k0 k1 k2 k3 more ps :
  Forall word_pair ps ->
  forall prev, word_pair prev ->
    decrypt_loop host (k0 :: k1 :: k2 :: k3 :: more)
      (chunks8 (hexlify (bytes_of_blocks host
                  (cbc_chain (tea_block k0 k1 k2 k3) prev ps)))) prev
    = Return (bytes_of_blocks host ps).
Proof.
  induction 1 as [|p ps Hp Hps IH]; intros prev Hprev; [reflexivity|].
  cbn [cbc_chain bytes_of_blocks].
  set (cyc := (Z.lxor (fst p) (fst prev), Z.lxor (snd p) (snd prev))).
  assert (Hcyc : word_pair cyc).
  { destruct Hp, Hprev. split; apply lxor_word32; assumption. }
  pose proof (tea_block_word k0 k1 k2 k3 cyc) as Hc.
  pose proof (tea_decrypt_block k0 k1 k2 k3 more cyc (proj1 Hcyc) (proj2 Hcyc)) as Hdec.
  set (c := tea_block k0 k1 k2 k3 cyc) in *.
  rewrite !hexlify_app.
  rewrite <- !hexlify_be_value by apply length_int_to_bytes.
  rewrite <- (fixed_digits_app 8 16 (be_value (int_to_bytes host 4 (snd c)))).
  rewrite <- (fixed_digits_app 8 16 (be_value (int_to_bytes host 4 (fst c)))).
  rewrite !chunks8_fixed_digits. cbn [decrypt_loop].
  pose proof (int16_hexlify_word host (fst c) (proj1 Hc)) as E0.
  pose proof (int16_hexlify_word host (snd c) (proj2 Hc)) as E1.
  destruct (int16 (fixed_digits 8 16 (be_value (int_to_bytes host 4 (fst c))) ""))
    as [e0|v0]; [discriminate E0|].
  destruct (int16 (fixed_digits 8 16 (be_value (int_to_bytes host 4 (snd c))) ""))
    as [e1|v1]; [discriminate E1|].
  cbn [res_bind] in *. rewrite E0, E1. cbn [res_bind Return].
  replace (fst c, snd c) with c by (destruct c; reflexivity).
  rewrite Hdec. cbn [res_bind Return].
  rewrite (IH c Hc). cbn [res_bind Return].
  unfold cyc. cbn [fst snd]. rewrite !lxor_cancel_r. reflexivity.
Qed.

Lemma blocks_of_word_pairs o plain : Forall word_pair (blocks_of o plain).
Proof.
  assert (H : forall n l, (length l <= n)%nat -> Forall word_pair (blocks_of o l)).
  { induction n as [|n IH]; intros l Hl.
    - destruct l; [constructor|cbn [length] in Hl; lia].
    - destruct l as [|b0 [|b1 [|b2 [|b3 [|b4 [|b5 [|b6 [|b7 r]]]]]]]]; try constructor.
      + split; apply int_from_bytes_word; reflexivity.
      + apply IH. cbn [length] in Hl. lia. }
  apply (H (length plain)). lia.
Qed.

Lemma bytes_of_blocks_of o plain :
  Z.of_nat (length plain) mod 8 = 0 -> bytes_of_blocks o (blocks_of o plain) = plain.
Proof.
  intros H. revert plain H. apply list_ind8; [reflexivity|].
  intros b0 b1 b2 b3 b4 b5 b6 b7 r IH.
  cbn [blocks_of bytes_of_blocks fst snd]. rewrite IH.
  change 4%nat with (length [b0; b1; b2; b3]) at 1.
  rewrite (int_to_from_bytes o [b0; b1; b2; b3]).
  change 4%nat with (length [b4; b5; b6; b7]).
  rewrite (int_to_from_bytes o [b4; b5; b6; b7]). reflexivity.
Qed.

Lemma length_hexlify bs : String.length (hexlify bs) = (2 * length bs)%nat.
Proof.
  induction bs as [|b r IH]; [reflexivity|].
  cbn [hexlify length]. rewrite length_fixed_digits, IH. lia.
Qed.

Lemma length_bytes_of_blocks o bl : length (bytes_of_blocks o bl) = (8 * length bl)%nat.
Proof.
  induction bl as [|c r IH]; [reflexivity|].
  cbn [bytes_of_blocks length]. rewrite !length_app, !length_int_to_bytes, IH. lia.
Qed.

Lemma unpack_words_aligned host plain :
  Z.of_nat (length plain) mod 8 = 0 ->
  struct_unpack_I host (Z.of_nat (length plain) / 4) plain = Return (unpack_words host plain).
Proof.
  intros H. unfold struct_unpack_I.
  destruct (Z.eqb_spec (Z.of_nat (length plain)) (4 * (Z.of_nat (length plain) / 4)))
    as [_|Hne]; [reflexivity|].
  exfalso. apply Hne. Z.div_mod_to_equations. lia.
Qed.

Lemma crypt_aligned host key plain :
  Z.of_nat (length plain) mod 8 = 0 ->
  _crypt host key plain
  = res_bind (crypt_keys host key)
      (fun keys => crypt_loop host keys (unpack_words host plain) (0, 0) "").
Proof.
  intros H. unfold _crypt. rewrite H. cbn [Z.eqb negb].
  rewrite unpack_words_aligned by exact H. reflexivity.
Qed.

Lemma crypt_loop_short host keys d0 d1 rest result crypted :
  (length keys < 4)%nat ->
  crypt_loop host keys (d0 :: d1 :: rest) result crypted = Raise IndexError.
Proof.
  intros H. cbn [crypt_loop]. unfold _tea_encrypt.
  rewrite tea_loop_short by exact H. reflexivity.
Qed.

(** Claim C2, as amended.  CBC-TEA round trip: for every plaintext whose
    length is a multiple of 8 bytes, whatever ciphertext [_crypt] produces,
    under any key, is turned back into the plaintext by the inverse
    transformation (TEA decrypt of each block, XOR with the previous
    ciphertext block, zero for the first); and [_crypt] does produce a
    ciphertext for every key whose hexadecimal form has exactly 32 digits,
    16^31 <= key < 16^32 -- not for every 128-bit key. *)
Theorem crypt_roundtrip host key plain :
  Z.of_nat (length plain) mod 8 = 0 ->
  (forall c, _crypt host key plain = Return c ->
             cbc_tea_decrypt host key c = Return plain) /\
  (16 ^ 31 <= key < 16 ^ 32 -> exists c, _crypt host key plain = Return c).
Proof.
  intros Hlen. rewrite crypt_aligned by exact Hlen. split.
  - intros c Hc. unfold cbc_tea_decrypt.
    destruct (crypt_keys host key) as [e|keys]; [discriminate Hc|].
    cbn [res_bind] in *.
    destruct keys as [|k0 [|k1 [|k2 [|k3 more]]]].
    5: { rewrite crypt_loop_spec in Hc by exact Hlen. injection Hc as <-.
         rewrite str_app_nil_l, length_hexlify, length_bytes_of_blocks.
         replace (Z.of_nat (2 * (8 * _)) mod 16 =? 0) with true.
         2: { symmetry. apply Z.eqb_eq. rewrite !Nat2Z.inj_mul.
              Z.div_mod_to_equations. lia. }
         cbn [negb]. rewrite decrypt_loop_spec.
         - rewrite bytes_of_blocks_of by exact Hlen. reflexivity.
         - apply blocks_of_word_pairs.
         - split; cbn [fst snd]; (split; [apply Z.le_refl|reflexivity]). }
    all: revert c Hc; pattern plain; revert plain Hlen; apply list_ind8;
      [ intros c Hc; injection Hc as <-; reflexivity
      | intros b0 b1 b2 b3 b4 b5 b6 b7 r _ c Hc; exfalso;
        cbn [unpack_words] in Hc;
        rewrite crypt_loop_short in Hc by (cbn [length]; lia); discriminate Hc ].
  - intros Hk. destruct (crypt_keys_length host key Hk) as (k0 & k1 & k2 & k3 & E).
    rewrite E. cbn [res_bind Return]. rewrite crypt_loop_spec by exact Hlen. eauto.
Qed.
(** Claim C2 fails as stated: 0xfffffffffffffffffffffffffffffff is a
    128-bit key, with 31 hexadecimal digits, and on a plaintext of 32 bytes
    [_crypt] raises [struct.error] under it on either host, so that there
    is no ciphertext to turn back into the plaintext. *)
Lemma crypt_rejects_some_128_bit_key :
  0 <= 0xfffffffffffffffffffffffffffffff < 2 ^ 128 /\
  Z.of_nat (length example_plain) mod 8 = 0 /\
  _crypt LittleEndian 0xfffffffffffffffffffffffffffffff example_plain
  = Raise StructError /\
  _crypt BigEndian 0xfffffffffffffffffffffffffffffff example_plain
  = Raise StructError.
Proof.
  split; [split; [discriminate|reflexivity]|].
  split; [reflexivity|].
  split; vm_compute; reflexivity.
Qed.

Lemma Return_inj {A} (a b : A) : Return a = Return b -> a = b.
Proof. intros H. injection H as H. exact H. Qed.

Lemma dhN_pos : 0 < dhN.
Proof. reflexivity. Qed.

Lemma fmt_x_nonneg s : 0 <= s -> fmt_x s = fixed_digits (ndigits 16 s) 16 s "".
Proof.
  intros H. unfold fmt_x, digits. destruct (Z.ltb_spec s 0); [lia|reflexivity].
Qed.

Lemma top32_spec s : 16 ^ 31 <= s ->
  int16 (str_take 32 (fmt_x s)) = Return (top32 s) /\ 16 ^ 31 <= top32 s < 16 ^ 32.
Proof.
  intros Hs. assert (H0 : 0 <= s) by lia.
  destruct (ndigits_spec 16 ltac:(lia) s H0) as [Hhi Hlo].
  unfold top32. set (h := ndigits 16 s) in *.
  assert (Hh : (32 <= h)%nat).
  { destruct (Nat.le_gt_cases 32 h) as [|Hlt]; [assumption|exfalso].
    assert (16 ^ Z.of_nat h <= 16 ^ 31) by (apply Z.pow_le_mono_r; lia). lia. }
  destruct Hlo as [Hlo|Hlo]; [lia|].
  assert (Hp : 0 < 16 ^ Z.of_nat (h - 32)) by (apply Z.pow_pos_nonneg; lia).
  assert (E1 : 16 ^ Z.of_nat h = 16 ^ Z.of_nat (h - 32) * 16 ^ 32).
  { rewrite <- Z.pow_add_r by lia. f_equal. lia. }
  assert (E2 : 16 ^ (Z.of_nat h - 1) = 16 ^ Z.of_nat (h - 32) * 16 ^ 31).
  { rewrite <- Z.pow_add_r by lia. f_equal. lia. }
  assert (Hk : 16 ^ 31 <= s / 16 ^ Z.of_nat (h - 32) < 16 ^ 32).
  { split.
    - apply Z.div_le_lower_bound; [exact Hp|]. rewrite <- E2. exact Hlo.
    - apply Z.div_lt_upper_bound; [exact Hp|]. rewrite <- E1. exact Hhi. }
  split; [|exact Hk].
  rewrite fmt_x_nonneg by exact H0. fold h.
  replace h with ((h - 32) + 32)%nat at 1 by lia.
  rewrite fixed_digits_split by lia.
  rewrite fixed_digits_app.
  replace 32%nat with (String.length (fixed_digits 32 16 (s / 16 ^ Z.of_nat (h - 32)) "")) at 1
    by (rewrite length_fixed_digits; reflexivity).
  rewrite str_take_app, int16_fixed_digits.
  change (16 ^ Z.of_nat 32) with (16 ^ 32).
  rewrite Z.mod_small by lia. reflexivity.
Qed.

Lemma length_list_byte_of_string s :
  length (list_byte_of_string s) = String.length s.
Proof.
  induction s as [|c s IH]; [reflexivity|].
  change (list_byte_of_string (String c s))
    with (byte_of_ascii c :: list_byte_of_string s).
  cbn [length String.length]. rewrite IH. reflexivity.
Qed.

Lemma length_str_repeat c n : String.length (str_repeat c n) = n.
Proof. induction n as [|n IH]; [reflexivity|]. cbn [str_repeat String.length]. rewrite IH. reflexivity. Qed.

Lemma struct_pack_be_inv n v r :
  struct_pack_be n v = r ->
  r = Raise StructError \/ (0 <= v < 256 ^ Z.of_nat n /\ r = Return (be_bytes n v)).
Proof.
  intros <-. unfold struct_pack_be.
  destruct (Z.leb_spec 0 v); destruct (Z.ltb_spec v (256 ^ Z.of_nat n)); cbn [andb];
    auto.
Qed.

(** Shape of the plaintext of [generate_login_key]. *)
Lemma login_plain_inv nonce server_key username password r :
  login_plain nonce server_key username password = r ->
  r = Raise StructError \/
  exists pad : nat,
    (pad < 8)%nat /\
    r = Return (be_bytes 8 nonce
                ++ be_bytes 4 (Z.of_nat (String.length (challenge_of username server_key password)))
                ++ list_byte_of_string (challenge_of username server_key password)
                ++ list_byte_of_string (str_repeat " " pad))%list /\
    (12 + Z.of_nat (String.length (challenge_of username server_key password))
       + Z.of_nat pad) mod 8 = 0.
Proof.
  intros <-. unfold login_plain.
  destruct (struct_pack_be_inv 8 nonce _ eq_refl) as [->|[_ ->]]; [left; reflexivity|].
  cbn [res_bind Return].
  destruct (struct_pack_be_inv 4 (Z.of_nat (String.length (challenge_of username server_key password)))
              _ eq_refl) as [->|[_ ->]]; [left; reflexivity|].
  cbn [res_bind Return]. right.
  set (L := Z.of_nat (String.length (challenge_of username server_key password))).
  exists (Z.to_nat ((8 - (8 + 4 + L) mod 8) mod 8)).
  assert (Hp : 0 <= (8 - (8 + 4 + L) mod 8) mod 8 < 8) by (apply Z.mod_pos_bound; lia).
  split; [lia|]. split; [reflexivity|].
  rewrite Z2Nat.id by lia. Z.div_mod_to_equations. lia.
Qed.

Lemma login_plain_length nonce server_key username password plain :
  login_plain nonce server_key username password = Return plain ->
  Z.of_nat (length plain) mod 8 = 0 /\ (16 <= length plain)%nat.
Proof.
  intros H. destruct (login_plain_inv _ _ _ _ _ H) as [E|(pad & Hpad & E & Hmod)];
    [discriminate E|].
  apply Return_inj in E. subst plain.
  rewrite !length_app, !length_be_bytes, !length_list_byte_of_string, length_str_repeat.
  set (L := String.length (challenge_of username server_key password)) in *.
  replace (Z.of_nat (8 + (4 + (L + pad)))) with (12 + Z.of_nat L + Z.of_nat pad) by lia.
  split; [exact Hmod|].
  assert (12 + Z.of_nat L + Z.of_nat pad <> 12 + 0) by
    (intros E; rewrite E in Hmod; discriminate Hmod).
  Z.div_mod_to_equations. lia.
Qed.

Lemma crypt_top32 host s plain :
  16 ^ 31 <= s -> Z.of_nat (length plain) mod 8 = 0 ->
  crypt_keys host (top32 s) = Return (spec_key_words host s) /\
  _crypt host (top32 s) plain
  = Return (hexlify (spec_cbc host (spec_key_words host s) plain)).
Proof.
  intros Hs Hlen. destruct (top32_spec s Hs) as [_ Hk].
  pose proof (crypt_keys_key32 host _ Hk) as E.
  destruct (crypt_keys_length host _ Hk) as (k0 & k1 & k2 & k3 & E').
  fold (spec_key_words host s) in E. split; [exact E|].
  rewrite crypt_aligned by exact Hlen. rewrite E. cbn [res_bind Return].
  rewrite E in E'. apply Return_inj in E'. rewrite E'.
  rewrite crypt_loop_spec by exact Hlen. reflexivity.
Qed.

(** Claim C1, as amended.  When the shared secret S has at least 32
    hexadecimal digits, the cipher key of [generate_login_key] is the
    number spelt by the most-significant 32 digits of S, its four key words
    are the 16 bytes of those digits read as 32-bit words in the byte
    order of the host, and the login key is the one of the specification
    computed with every word of plaintext and ciphertext converted in the
    byte order of the host (big-endian on a big-endian host only). *)
Theorem login_key_host_order host dhx nonce server_key username password plain :
  0 <= dhx ->
  16 ^ 31 <= dhY ^ dhx mod dhN ->
  login_plain nonce server_key username password = Return plain ->
  int16 (str_take 32 (fmt_x (dhY ^ dhx mod dhN))) = Return (top32 (dhY ^ dhx mod dhN)) /\
  crypt_keys host (top32 (dhY ^ dhx mod dhN))
    = Return (unpack_words host (be_bytes 16 (top32 (dhY ^ dhx mod dhN)))) /\
  generate_login_key host dhx nonce server_key username password
    = Return (spec_login_key host dhx plain).
Proof.
  intros Hx Hs Hp.
  destruct (top32_spec _ Hs) as [Ek Hk].
  destruct (login_plain_length _ _ _ _ _ Hp) as [Hlen _].
  destruct (crypt_top32 host _ plain Hs Hlen) as [Ekeys Ecrypt].
  split; [exact Ek|]. split; [exact Ekeys|].
  unfold generate_login_key.
  rewrite !pow3_spec by (try exact Hx; exact dhN_pos).
  cbn [res_bind Return]. rewrite Ek. cbn [res_bind Return].
  rewrite Hp. cbn [res_bind Return]. rewrite Ecrypt. reflexivity.
Qed.

Lemma login_key_host_order_witness :
  0 <= 1 /\
  16 ^ 31 <= dhY ^ 1 mod dhN /\
  login_plain 0 "seed" "user" "pass" = Return example_plain /\
  generate_login_key BigEndian 1 0 "seed" "user" "pass"
  = Return (spec_login_key BigEndian 1 example_plain).
Proof.
  assert (H1 : 0 <= 1) by discriminate.
  assert (H2 : 16 ^ 31 <= dhY ^ 1 mod dhN) by (vm_compute; discriminate).
  assert (H3 : login_plain 0 "seed" "user" "pass" = Return example_plain)
    by (vm_compute; reflexivity).
  split; [exact H1|]. split; [exact H2|]. split; [exact H3|].
  exact (proj2 (proj2 (login_key_host_order BigEndian 1 0 "seed" "user" "pass"
                         example_plain H1 H2 H3))).
Defined.

(** Claim C1 fails as stated: on a little-endian host, for the private
    exponent 1, nonce 0, seed "seed", user "user" and password "pass", the
    key words are not the big-endian words of the key digits and the login
    key is not the one obtained with big-endian words. *)
Lemma login_key_little_endian_host :
  16 ^ 31 <= dhY ^ 1 mod dhN /\
  login_plain 0 "seed" "user" "pass" = Return example_plain /\
  crypt_keys LittleEndian (top32 (dhY ^ 1 mod dhN))
    = Return [0x23CC329C; 0x90CA59D5; 0x72BE31FC; 0x0E7D81DF] /\
  spec_key_words BigEndian (dhY ^ 1 mod dhN)
    = [0x9C32CC23; 0xD559CA90; 0xFC31BE72; 0xDF817D0E] /\
  generate_login_key LittleEndian 1 0 "seed" "user" "pass"
    = Return "5-0f1cb3a948928a1e0677f7dd6368f549619c6f85e2b2c48b7768b866409aa9ab" /\
  spec_login_key BigEndian 1 example_plain
    = "5-234e4b1f6b567f2dc9d5f9945717d483a88dd33f94df019117cdba5332dc367c" /\
  generate_login_key LittleEndian 1 0 "seed" "user" "pass"
    <> Return (spec_login_key BigEndian 1 example_plain).
Proof.
  split; [vm_compute; discriminate|].
  do 5 (split; [vm_compute; reflexivity|]).
  vm_compute. discriminate.
Qed.

Lemma res_bind_raise {A B} (m : res A) (k : A -> res B) e :
  res_bind m k = Raise e -> m = Raise e \/ exists v, m = Return v /\ k v = Raise e.
Proof.
  destruct m as [e'|v]; cbn [res_bind]; intros H; [left|right; eauto].
  injection H as ->. reflexivity.
Qed.

Lemma res_mapM_raise {A B} (f : A -> res B) l e :
  res_mapM f l = Raise e -> exists x, f x = Raise e.
Proof.
  induction l as [|x l IH]; cbn [res_mapM]; intros H; [discriminate H|].
  apply res_bind_raise in H. destruct H as [H|(y & _ & H)]; [eauto|].
  apply res_bind_raise in H. destruct H as [H|(ys & _ & H)]; [auto|discriminate H].
Qed.

Lemma int16_raise s e : int16 s = Raise e -> e <> length_error.
Proof.
  unfold int16. intros H E. subst e.
  destruct s as [|c s]; [discriminate H|].
  repeat match type of H with
         | context [match ?x with _ => _ end] => destruct x; try discriminate H
         end.
Qed.

Lemma ntohl_raise host v e : ntohl host v = Raise e -> e = OverflowError.
Proof.
  unfold ntohl. destruct (_ && _); intros H; [discriminate H|].
  injection H as <-. reflexivity.
Qed.

Lemma htonl_raise host v e : htonl host v = Raise e -> e = OverflowError.
Proof.
  unfold htonl. destruct (_ && _); intros H; [discriminate H|].
  injection H as <-. reflexivity.
Qed.

Lemma crypt_keys_raise host key e : crypt_keys host key = Raise e -> e <> length_error.
Proof.
  unfold crypt_keys. intros H.
  apply res_bind_raise in H. destruct H as [H|(ss & _ & H)].
  - unfold struct_unpack_8s in H. destruct (_ =? _); [discriminate H|].
    injection H as <-. discriminate.
  - apply res_mapM_raise in H. destruct H as (s & H).
    apply res_bind_raise in H. destruct H as [H|(v & _ & H)].
    + exact (int16_raise _ _ H).
    + apply ntohl_raise in H. subst e. discriminate.
Qed.

Lemma getitem_raise {A} (l : list A) i e : getitem l i = Raise e -> e = IndexError.
Proof. unfold getitem. destruct (l !! i); intros H; [discriminate H|]. injection H as <-. reflexivity. Qed.

Lemma tea_loop_raise n keys a b s e : tea_loop n keys a b s = Raise e -> e = IndexError.
Proof.
  revert a b s. induction n as [|n IH]; intros a b s H; [discriminate H|].
  cbn [tea_loop] in H.
  repeat (apply res_bind_raise in H;
          destruct H as [H|(? & _ & H)]; [exact (getitem_raise _ _ _ H)|]).
  exact (IH _ _ _ H).
Qed.

Lemma tea_encrypt_raise c keys e : _tea_encrypt c keys = Raise e -> e = IndexError.
Proof. destruct c as [a b]. unfold _tea_encrypt. apply tea_loop_raise. Qed.

Lemma crypt_loop_step host keys d0 d1 rest result crypted :
  crypt_loop host keys (d0 :: d1 :: rest) result crypted
  = res_bind (_tea_encrypt (Z.lxor d0 (fst result), Z.lxor d1 (snd result)) keys)
      (fun r => res_bind (htonl host (fst r)) (fun h0 =>
                res_bind (htonl host (snd r)) (fun h1 =>
                  crypt_loop host keys rest r
                    (crypted ++ (fmt_08x (Z.land h0 mask32) ++ fmt_08x (Z.land h1 mask32)))))).
Proof. reflexivity. Qed.

Lemma crypt_loop_raise host keys data result crypted e :
  crypt_loop host keys data result crypted = Raise e ->
  e = IndexError \/ e = OverflowError.
Proof.
  assert (H : forall n data result crypted, (length data <= n)%nat ->
             crypt_loop host keys data result crypted = Raise e ->
             e = IndexError \/ e = OverflowError).
  { clear. induction n as [|n IH]; intros data result crypted Hlen H.
    - destruct data; [discriminate H|cbn [length] in Hlen; lia].
    - destruct data as [|d0 [|d1 rest]]; [discriminate H| |].
      + injection H as <-. left; reflexivity.
      + rewrite crypt_loop_step in H.
        apply res_bind_raise in H. destruct H as [H|(c & _ & H)].
        { left. exact (tea_encrypt_raise _ _ _ H). }
        apply res_bind_raise in H. destruct H as [H|(h0 & _ & H)].
        { right. exact (htonl_raise _ _ _ H). }
        apply res_bind_raise in H. destruct H as [H|(h1 & _ & H)].
        { right. exact (htonl_raise _ _ _ H). }
        apply IH in H; [exact H|]. cbn [length] in Hlen. lia. }
  apply (H (length data)). lia.
Qed.

(** Claim C3.  The challenge plaintext of [generate_login_key] is the
    8-byte nonce, the 4-byte big-endian length of
    "<username>|<server_seed>|<password>", that string and fewer than 8
    spaces of padding; its length is a multiple of 8; it is built whenever
    the nonce and the length fit their fields; and [generate_login_key]
    never raises the plaintext-length error of [_crypt]. *)
Theorem login_plain_block_aligned nonce server_key username password :
  (forall plain,
     login_plain nonce server_key username password = Return plain ->
     Z.of_nat (length plain) mod 8 = 0 /\
     exists pad : nat,
       (pad < 8)%nat /\
       plain = (be_bytes 8 nonce
                ++ be_bytes 4 (Z.of_nat (String.length (challenge_of username server_key password)))
                ++ list_byte_of_string (challenge_of username server_key password)
                ++ repeat " "%byte pad)%list) /\
  (0 <= nonce < 2 ^ 64 ->
   Z.of_nat (String.length (challenge_of username server_key password)) < 2 ^ 32 ->
   exists plain, login_plain nonce server_key username password = Return plain) /\
  (forall host dhx,
     generate_login_key host dhx nonce server_key username password
     <> Raise (ValueError "Length of plain text must be multiple of 8.")).
Proof.
  split; [|split].
  - intros plain H. split; [exact (proj1 (login_plain_length _ _ _ _ _ H))|].
    destruct (login_plain_inv _ _ _ _ _ H) as [E|(pad & Hpad & E & _)]; [discriminate E|].
    exists pad. split; [exact Hpad|]. apply Return_inj in E. rewrite E.
    do 3 f_equal. clear. induction pad as [|pad IH]; [reflexivity|].
    cbn [str_repeat repeat]. rewrite <- IH. reflexivity.
  - intros Hn Hl. unfold login_plain, struct_pack_be.
    destruct (Z.leb_spec 0 nonce); [|lia].
    destruct (Z.ltb_spec nonce (256 ^ Z.of_nat 8));
      [|change (256 ^ Z.of_nat 8) with (2 ^ 64) in *; lia].
    cbn [andb res_bind Return].
    destruct (Z.leb_spec 0 (Z.of_nat (String.length (challenge_of username server_key password))));
      [|lia].
    destruct (Z.ltb_spec (Z.of_nat (String.length (challenge_of username server_key password)))
                (256 ^ Z.of_nat 4));
      [|change (256 ^ Z.of_nat 4) with (2 ^ 32) in *; lia].
    cbn [andb res_bind Return]. eauto.
  - intros host dhx H. fold length_error in H. unfold generate_login_key in H.
    apply res_bind_raise in H. destruct H as [H|(dhX & _ & H)].
    { destruct dhx; discriminate H. }
    apply res_bind_raise in H. destruct H as [H|(s & _ & H)].
    { destruct dhx; discriminate H. }
    apply res_bind_raise in H. destruct H as [H|(dhK & _ & H)].
    { exact (int16_raise _ _ H eq_refl). }
    apply res_bind_raise in H. destruct H as [H|(plain & Hp & H)].
    { destruct (login_plain_inv _ _ _ _ _ H) as [E|(? & _ & E & _)]; discriminate E. }
    apply res_bind_raise in H. destruct H as [H|(c & _ & H)]; [|discriminate H].
    rewrite crypt_aligned in H by exact (proj1 (login_plain_length _ _ _ _ _ Hp)).
    apply res_bind_raise in H. destruct H as [H|(keys & _ & H)].
    { exact (crypt_keys_raise _ _ _ H eq_refl). }
    apply crypt_loop_raise in H. destruct H as [H|H]; discriminate H.
Qed.

Lemma login_plain_block_aligned_witness :
  exists plain,
    login_plain 7 "seed" "user" "pass" = Return plain /\
    Z.of_nat (length plain) mod 8 = 0.
Proof.
  destruct (proj1 (proj2 (login_plain_block_aligned 7 "seed" "user" "pass")))
    as [plain H]; [vm_compute; split; [discriminate|reflexivity] | vm_compute; reflexivity |].
  exists plain. split; [exact H|].
  exact (proj1 (proj1 (login_plain_block_aligned 7 "seed" "user" "pass") plain H)).
Defined.

(** Claim C10.  The private exponent 0 lies in the sampled range, makes
    the shared secret 1, whose hexadecimal form has fewer than 32 digits,
    and [generate_login_key] then raises [struct.error] from the key-word
    unpacking of [_crypt], whatever the other inputs. *)
Theorem login_key_short_secret :
  0 <= 0 < 2 ^ 256 /\
  dhY ^ 0 mod dhN = 1 /\
  (String.length (fmt_x 1) < 32)%nat /\
  forall host nonce server_key username password,
    generate_login_key host 0 nonce server_key username password = Raise StructError.
Proof.
  split; [split; [apply Z.le_refl|reflexivity]|].
  split; [reflexivity|]. split; [vm_compute; lia|].
  intros host nonce server_key username password.
  unfold generate_login_key.
  change (pow3 dhG 0 dhN) with (Return (A:=Z) 1).
  change (pow3 dhY 0 dhN) with (Return (A:=Z) 1).
  cbn [res_bind Return].
  change (int16 (str_take 32 (fmt_x 1))) with (Return (A:=Z) 1).
  cbn [res_bind Return].
  destruct (login_plain nonce server_key username password) as [e|plain] eqn:Hp.
  - destruct (login_plain_inv _ _ _ _ _ Hp) as [E|(? & _ & E & _)]; [|discriminate E].
    injection E as ->. reflexivity.
  - cbn [res_bind].
    rewrite crypt_aligned by exact (proj1 (login_plain_length _ _ _ _ _ Hp)).
    reflexivity.
Qed.

(* ----------------------------------------------------------------- *)
(** ** Ciphertexts, keys that are too short, and the format of the login key *)

Lemma lower_hex_digit_char d : 0 <= d < 16 -> lower_hex (digit_char d) = true.
Proof.
  intros H.
  assert (Hc : d = 0 \/ d = 1 \/ d = 2 \/ d = 3 \/ d = 4 \/ d = 5 \/ d = 6 \/ d = 7 \/
               d = 8 \/ d = 9 \/ d = 10 \/ d = 11 \/ d = 12 \/ d = 13 \/ d = 14 \/ d = 15)
    by lia.
  repeat (destruct Hc as [->|Hc]; [reflexivity|]). subst d. reflexivity.
Qed.

Lemma all_lower_hex_app a b :
  all_lower_hex (a ++ b) = all_lower_hex a && all_lower_hex b.
Proof.
  induction a as [|x a IH]; [reflexivity|].
  rewrite str_app_cons. cbn [all_lower_hex]. rewrite IH, andb_assoc. reflexivity.
Qed.

Lemma all_lower_hex_fixed_digits k n acc :
  all_lower_hex acc = true -> all_lower_hex (fixed_digits k 16 n acc) = true.
Proof.
  revert n acc. induction k as [|k IH]; intros n acc H; [exact H|].
  cbn [fixed_digits]. apply IH. cbn [all_lower_hex].
  rewrite lower_hex_digit_char by (apply Z.mod_pos_bound; lia). exact H.
Qed.

Lemma all_lower_hex_hexlify bs : all_lower_hex (hexlify bs) = true.
Proof.
  induction bs as [|b r IH]; [reflexivity|].
  cbn [hexlify]. apply all_lower_hex_fixed_digits. exact IH.
Qed.

Lemma all_lower_hex_fmt_x n : 0 <= n -> all_lower_hex (fmt_x n) = true.
Proof.
  intros H. rewrite fmt_x_nonneg by exact H.
  apply all_lower_hex_fixed_digits. reflexivity.
Qed.

Lemma length_cbc_chain enc prev bl : length (cbc_chain enc prev bl) = length bl.
Proof.
  revert prev. induction bl as [|p r IH]; intros prev; [reflexivity|].
  cbn [cbc_chain length]. rewrite IH. reflexivity.
Qed.

Lemma length_blocks_of o plain :
  Z.of_nat (length plain) mod 8 = 0 -> (8 * length (blocks_of o plain))%nat = length plain.
Proof.
  intros H. revert plain H. apply list_ind8; [reflexivity|].
  intros b0 b1 b2 b3 b4 b5 b6 b7 r IH. cbn [blocks_of length]. lia.
Qed.

Lemma blocks_of_app o p1 p2 :
  Z.of_nat (length p1) mod 8 = 0 ->
  blocks_of o (p1 ++ p2)%list = (blocks_of o p1 ++ blocks_of o p2)%list.
Proof.
  intros H. revert p1 H. apply list_ind8; [reflexivity|].
  intros b0 b1 b2 b3 b4 b5 b6 b7 r IH.
  cbn [app blocks_of]. rewrite IH. reflexivity.
Qed.

Lemma last_cons_default {A} (c d : A) l : List.last (c :: l) d = List.last l c.
Proof.
  revert c d. induction l as [|x l IH]; intros c d; [reflexivity|].
  change (List.last (c :: x :: l) d) with (List.last (x :: l) d).
  rewrite (IH x d), (IH x c). reflexivity.
Qed.

Lemma cbc_chain_app enc prev l1 l2 :
  cbc_chain enc prev (l1 ++ l2)%list
  = (cbc_chain enc prev l1
     ++ cbc_chain enc (List.last (cbc_chain enc prev l1) prev) l2)%list.
Proof.
  revert prev. induction l1 as [|p r IH]; intros prev; [reflexivity|].
  cbn [app cbc_chain]. rewrite IH, last_cons_default. reflexivity.
Qed.

Lemma bytes_of_blocks_app o l1 l2 :
  bytes_of_blocks o (l1 ++ l2)%list = (bytes_of_blocks o l1 ++ bytes_of_blocks o l2)%list.
Proof.
  induction l1 as [|c r IH]; [reflexivity|].
  cbn [app bytes_of_blocks]. rewrite IH, <- !app_assoc. reflexivity.
Qed.

(** What a ciphertext returned by [_crypt] is made of. *)
Lemma crypt_inv host key plain c :
  _crypt host key plain = Return c ->
  Z.of_nat (length plain) mod 8 = 0 /\
  exists keys,
    crypt_keys host key = Return keys /\
    ((plain = [] /\ c = "") \/
     exists k0 k1 k2 k3 more,
       keys = k0 :: k1 :: k2 :: k3 :: more /\
       c = hexlify (bytes_of_blocks host
             (cbc_chain (tea_block k0 k1 k2 k3) (0, 0) (blocks_of host plain)))).
Proof.
  intros H.
  assert (Hlen : Z.of_nat (length plain) mod 8 = 0).
  { unfold _crypt in H. destruct (Z.eqb_spec (Z.of_nat (length plain) mod 8) 0) as [E|_];
      [exact E|discriminate H]. }
  split; [exact Hlen|].
  rewrite crypt_aligned in H by exact Hlen.
  destruct (crypt_keys host key) as [e|keys]; [discriminate H|].
  exists keys. split; [reflexivity|]. cbn [res_bind] in H.
  destruct keys as [|k0 [|k1 [|k2 [|k3 more]]]].
  5: { right. exists k0, k1, k2, k3, more. split; [reflexivity|].
       rewrite crypt_loop_spec in H by exact Hlen. apply Return_inj in H.
       rewrite str_app_nil_l in H. symmetry. exact H. }
  all: left; revert c H; pattern plain; revert plain Hlen; apply list_ind8;
    [ intros c H; apply Return_inj in H; split; [reflexivity|symmetry; exact H]
    | intros b0 b1 b2 b3 b4 b5 b6 b7 r _ c H; exfalso;
      cbn [unpack_words] in H;
      rewrite crypt_loop_short in H by (cbn [length]; lia); discriminate H ].
Qed.

Lemma crypt_shape host key plain c :
  _crypt host key plain = Return c ->
  String.length c = (2 * length plain)%nat /\ all_lower_hex c = true.
Proof.
  intros H. destruct (crypt_inv _ _ _ _ H) as (Hlen & keys & _ & [[-> ->]|Hc]).
  - split; reflexivity.
  - destruct Hc as (k0 & k1 & k2 & k3 & more & _ & ->). split.
    + rewrite length_hexlify, length_bytes_of_blocks, length_cbc_chain.
      pose proof (length_blocks_of host plain Hlen). lia.
    + apply all_lower_hex_hexlify.
Qed.

Lemma crypt_decrypt host key plain c :
  _crypt host key plain = Return c -> cbc_tea_decrypt host key c = Return plain.
Proof.
  intros H. destruct (crypt_shape _ _ _ _ H) as [L _].
  destruct (crypt_inv _ _ _ _ H) as (Hlen & keys & Ek & C).
  unfold cbc_tea_decrypt. rewrite L.
  replace (Z.of_nat (2 * length plain) mod 16 =? 0) with true.
  2: { symmetry. apply Z.eqb_eq. rewrite Nat2Z.inj_mul.
       change (Z.of_nat 2) with 2. Z.div_mod_to_equations. lia. }
  cbn [negb]. rewrite Ek. cbn [res_bind Return].
  destruct C as [[-> ->]|(k0 & k1 & k2 & k3 & more & -> & ->)]; [reflexivity|].
  rewrite decrypt_loop_spec.
  - rewrite bytes_of_blocks_of by exact Hlen. reflexivity.
  - apply blocks_of_word_pairs.
  - split; cbn [fst snd]; (split; [apply Z.le_refl|reflexivity]).
Qed.

(** [_tea_encrypt] needs four key words: with at least four it returns two
    32-bit words, whatever integers the block and the key words are, and
    reads the first four words only; with fewer it raises [IndexError]. *)
Theorem tea_encrypt_key_words (cycle : Z * Z) (keys : list Z) :
  ((4 <= length keys)%nat ->
     exists a b,
       _tea_encrypt cycle keys = Return (a, b) /\ word32 a /\ word32 b /\
       _tea_encrypt cycle (take 4 keys) = Return (a, b)) /\
  ((length keys < 4)%nat -> _tea_encrypt cycle keys = Raise IndexError).
Proof.
  split.
  - intros H. destruct keys as [|k0 [|k1 [|k2 [|k3 more]]]]; cbn [length] in H; try lia.
    destruct (tea_block_word k0 k1 k2 k3 cycle) as [Ha Hb].
    exists (fst (tea_block k0 k1 k2 k3 cycle)), (snd (tea_block k0 k1 k2 k3 cycle)).
    cbn [take]. rewrite !tea_encrypt_block.
    split; [destruct (tea_block k0 k1 k2 k3 cycle); reflexivity|].
    split; [exact Ha|]. split; [exact Hb|].
    destruct (tea_block k0 k1 k2 k3 cycle); reflexivity.
  - intros H. destruct cycle as [a b]. unfold _tea_encrypt.
    apply tea_loop_short. exact H.
Qed.

(** [_tea_encrypt] is one-to-one on blocks of two 32-bit words: two blocks
    encrypted to the same pair under the same key words are equal. *)
Theorem tea_encrypt_injective (c c' : Z * Z) (keys : list Z) (r : Z * Z) :
  word_pair c -> word_pair c' ->
  _tea_encrypt c keys = Return r -> _tea_encrypt c' keys = Return r -> c = c'.
Proof.
  intros [Ha Hb] [Ha' Hb'] H H'.
  destruct keys as [|k0 [|k1 [|k2 [|k3 more]]]];
    try (destruct c as [a b]; unfold _tea_encrypt in H;
         rewrite tea_loop_short in H by (cbn [length]; lia); discriminate H).
  rewrite tea_encrypt_block in H, H'. apply Return_inj in H, H'.
  pose proof (tea_decrypt_block k0 k1 k2 k3 more c Ha Hb) as D.
  pose proof (tea_decrypt_block k0 k1 k2 k3 more c' Ha' Hb') as D'.
  rewrite H in D. rewrite H' in D'. rewrite D in D'. exact (Return_inj _ _ D').
Qed.

(** A ciphertext returned by [_crypt] is text of lowercase hexadecimal
    digits, two for each byte of the plaintext. *)
Theorem crypt_ciphertext_hex host key plain c :
  _crypt host key plain = Return c ->
  String.length c = (2 * length plain)%nat /\ all_lower_hex c = true.
Proof. apply crypt_shape. Qed.

(** Chaining runs forward only: the ciphertext of a plaintext begins with
    the ciphertext of every block-aligned prefix of it. *)
Theorem crypt_prefix host key p1 p2 c1 c :
  _crypt host key p1 = Return c1 ->
  _crypt host key (p1 ++ p2)%list = Return c ->
  exists c2, c = c1 ++ c2 /\ String.length c2 = (2 * length p2)%nat.
Proof.
  intros H1 H.
  destruct (crypt_shape _ _ _ _ H1) as [L1 _].
  destruct (crypt_shape _ _ _ _ H) as [L _].
  destruct (crypt_inv _ _ _ _ H1) as (Hlen1 & keys & Ek & C1).
  destruct (crypt_inv _ _ _ _ H) as (Hlen & keys' & Ek' & C).
  rewrite Ek in Ek'. apply Return_inj in Ek'. subst keys'.
  assert (G : exists c2, c = c1 ++ c2).
  { destruct C1 as [[-> ->]|(k0 & k1 & k2 & k3 & more & -> & ->)].
    - exists c. rewrite str_app_nil_l. reflexivity.
    - destruct C as [[E ->]|(k0' & k1' & k2' & k3' & more' & Ekeys & ->)].
      + apply app_eq_nil in E. destruct E as [-> ->]. exists "". reflexivity.
      + injection Ekeys as <- <- <- <- <-.
        rewrite blocks_of_app by exact Hlen1.
        rewrite cbc_chain_app, bytes_of_blocks_app, hexlify_app. eauto. }
  destruct G as [c2 ->]. exists c2. split; [reflexivity|].
  rewrite str_length_app, length_app in L. lia.
Qed.

Lemma res_mapM_length {A B} (f : A -> res B) l r :
  res_mapM f l = Return r -> length r = length l.
Proof.
  revert r. induction l as [|x l IH]; intros r H; cbn [res_mapM] in H.
  - apply Return_inj in H. subst r. reflexivity.
  - destruct (f x) as [e|y]; [discriminate H|]. cbn [res_bind] in H.
    destruct (res_mapM f l) as [e|ys]; [discriminate H|]. cbn [res_bind] in H.
    apply Return_inj in H. subst r. cbn [length]. rewrite (IH ys eq_refl). reflexivity.
Qed.

Lemma res_mapM_ok {A B} (f : A -> res B) l :
  Forall (fun x => exists y, f x = Return y) l -> exists r, res_mapM f l = Return r.
Proof.
  induction 1 as [|x l [y Hy] _ [r Hr]]; [exists []; reflexivity|].
  exists (y :: r). cbn [res_mapM]. rewrite Hy. cbn [res_bind]. rewrite Hr. reflexivity.
Qed.

Lemma chunks8_spec s :
  (8 * length (chunks8 s) <= String.length s)%nat /\
  (all_lower_hex s = true ->
   Forall (fun t => String.length t = 8%nat /\ all_lower_hex t = true) (chunks8 s)).
Proof.
  assert (H : forall n s, (String.length s <= n)%nat ->
             (8 * length (chunks8 s) <= String.length s)%nat /\
             (all_lower_hex s = true ->
              Forall (fun t => String.length t = 8%nat /\ all_lower_hex t = true) (chunks8 s))).
  { clear s. induction n as [|n IH]; intros s Hs.
    - destruct s; [split; [cbn; lia|constructor] | cbn in Hs; lia].
    - destruct s as [|c0 [|c1 [|c2 [|c3 [|c4 [|c5 [|c6 [|c7 r]]]]]]]];
        try (split; [cbn; lia|constructor]).
      cbn [chunks8 length String.length] in *.
      destruct (IH r ltac:(lia)) as [IH1 IH2]. split; [lia|].
      intros Hh. cbn [all_lower_hex] in Hh.
      repeat (apply andb_true_iff in Hh; destruct Hh as [? Hh]).
      constructor; [|exact (IH2 Hh)].
      split; [reflexivity|]. cbn [all_lower_hex].
      repeat (apply andb_true_iff; split; [assumption|]). reflexivity. }
  apply (H (String.length s)). lia.
Qed.

Lemma hex_val_lower_hex c :
  lower_hex c = true -> exists d, hex_val c = Some d /\ 0 <= d < 16.
Proof.
  unfold lower_hex, hex_val. cbv zeta. set (code := Z.of_N (N_of_ascii c)).
  intros H. apply orb_true_iff in H.
  destruct ((48 <=? code) && (code <=? 57)) eqn:E1.
  - exists (code - 48). split; [reflexivity|].
    apply andb_true_iff in E1. destruct E1 as [A B].
    apply Z.leb_le in A, B. lia.
  - destruct H as [H|H]; [discriminate H|]. rewrite H.
    exists (code - 87). split; [reflexivity|].
    apply andb_true_iff in H. destruct H as [A B].
    apply Z.leb_le in A, B. lia.
Qed.

Lemma hex_value_lower_hex s :
  all_lower_hex s = true ->
  forall acc, 0 <= acc ->
    exists v, hex_value acc s = Some v /\
              0 <= v < (acc + 1) * 16 ^ Z.of_nat (String.length s).
Proof.
  induction s as [|c s IH]; intros H acc Hacc.
  - exists acc. split; [reflexivity|]. cbn [String.length]. change (16 ^ Z.of_nat 0) with 1. lia.
  - cbn [all_lower_hex] in H. apply andb_true_iff in H. destruct H as [Hc Hs].
    destruct (hex_val_lower_hex c Hc) as (d & Ed & Hd).
    cbn [hex_value]. rewrite Ed.
    destruct (IH Hs (acc * 16 + d) ltac:(lia)) as (v & Ev & Hv).
    exists v. split; [exact Ev|].
    cbn [String.length]. rewrite Nat2Z.inj_succ, Z.pow_succ_r by lia.
    assert (0 < 16 ^ Z.of_nat (String.length s)) by (apply Z.pow_pos_nonneg; lia).
    nia.
Qed.

Lemma lower_hex_not_minus c : lower_hex c = true -> c <> "-"%char.
Proof. intros H ->. discriminate H. Qed.

Lemma int16_lower_hex s :
  all_lower_hex s = true -> String.length s = 8%nat ->
  exists v, int16 s = Return v /\ 0 <= v < 2 ^ 32.
Proof.
  intros H L.
  destruct (hex_value_lower_hex s H 0 ltac:(lia)) as (v & Ev & Hv).
  rewrite L in Hv. exists v. split; [|exact Hv].
  destruct s as [|c s]; [discriminate L|].
  cbn [all_lower_hex] in H. apply andb_true_iff in H. destruct H as [Hc _].
  pose proof (lower_hex_not_minus c Hc) as Hm.
  unfold int16.
  destruct c as [[] [] [] [] [] [] [] []];
    try (exfalso; apply Hm; reflexivity); rewrite Ev; reflexivity.
Qed.

(** The key words of a non-negative key: [struct.error] when the number of
    hexadecimal digits is not eight times the eighth of the number of
    decimal digits, else one word for every eight hexadecimal digits. *)
Lemma crypt_keys_nonneg host key :
  0 <= key ->
  crypt_keys host key = Raise StructError \/
  exists keys, crypt_keys host key = Return keys /\
               (8 * length keys <= String.length (fmt_x key))%nat.
Proof.
  intros Hk. unfold crypt_keys, struct_unpack_8s.
  destruct (_ =? _); [|left; reflexivity]. right. cbn [res_bind Return].
  destruct (chunks8_spec (fmt_x key)) as [Hlen Hhex].
  specialize (Hhex (all_lower_hex_fmt_x key Hk)).
  destruct (res_mapM_ok (fun s => res_bind (int16 s) (fun v => ntohl host v)) (chunks8 (fmt_x key)))
    as [keys E].
  { eapply Forall_impl; [exact Hhex|]. intros t [Lt Ht].
    destruct (int16_lower_hex t Ht Lt) as (v & Ev & Hv).
    rewrite Ev. cbn [res_bind Return]. rewrite ntohl_word by exact Hv. eauto. }
  exists keys. split; [exact E|].
  rewrite (res_mapM_length _ _ _ E). exact Hlen.
Qed.

Lemma crypt_short host key plain :
  0 <= key < 16 ^ 31 ->
  plain <> [] ->
  Z.of_nat (length plain) mod 8 = 0 ->
  _crypt host key plain = Raise StructError \/ _crypt host key plain = Raise IndexError.
Proof.
  intros [Hlo Hhi] Hne Hlen.
  rewrite crypt_aligned by exact Hlen.
  destruct (crypt_keys_nonneg host key Hlo) as [->|(keys & -> & Hk)]; [left; reflexivity|].
  right. cbn [res_bind].
  assert (Hshort : (length keys < 4)%nat).
  { rewrite fmt_x_nonneg, length_fixed_digits in Hk by exact Hlo.
    pose proof (ndigits_le 16 ltac:(lia) key 30 Hhi). cbn [String.length] in Hk. lia. }
  revert Hne. pattern plain. revert plain Hlen. apply list_ind8; [congruence|].
  intros b0 b1 b2 b3 b4 b5 b6 b7 r _ _. cbn [unpack_words].
  apply crypt_loop_short. exact Hshort.
Qed.

(** A key of fewer than 32 hexadecimal digits never encrypts anything:
    on a non-empty block-aligned plaintext [_crypt] raises [struct.error]
    from the unpacking of the key, or [IndexError] from the missing key
    words in [_tea_encrypt]. *)
Theorem crypt_short_key host key plain :
  0 <= key < 16 ^ 31 ->
  plain <> [] ->
  Z.of_nat (length plain) mod 8 = 0 ->
  _crypt host key plain = Raise StructError \/ _crypt host key plain = Raise IndexError.
Proof. apply crypt_short. Qed.

(** [_crypt] is one-to-one: under one key, two plaintexts with the same
    ciphertext are equal. *)
Theorem crypt_injective host key p p' c :
  _crypt host key p = Return c -> _crypt host key p' = Return c -> p = p'.
Proof.
  intros H H'.
  pose proof (crypt_decrypt _ _ _ _ H) as D.
  rewrite (crypt_decrypt _ _ _ _ H') in D.
  symmetry. exact (Return_inj _ _ D).
Qed.

(** The login key is two fields of lowercase hexadecimal digits with one
    dash between them: the public value [dhG ^ dhx mod dhN], then two digits
    for every byte of the challenge plaintext, at least 32 and a multiple
    of 16. *)
Theorem login_key_format host dhx nonce server_key username password key :
  generate_login_key host dhx nonce server_key username password = Return key ->
  exists plain crypted,
    login_plain nonce server_key username password = Return plain /\
    key = fmt_x (dhG ^ dhx mod dhN) ++ "-" ++ crypted /\
    all_lower_hex (fmt_x (dhG ^ dhx mod dhN)) = true /\
    all_lower_hex crypted = true /\
    String.length crypted = (2 * length plain)%nat /\
    (32 <= String.length crypted)%nat /\
    Z.of_nat (String.length crypted) mod 16 = 0.
Proof.
  intros H. unfold generate_login_key in H.
  assert (Hx : 0 <= dhx).
  { destruct dhx as [|p|p]; [lia|lia|discriminate H]. }
  rewrite !pow3_spec in H by (try exact Hx; exact dhN_pos).
  cbn [res_bind Return] in H.
  destruct (int16 _) as [e|dhK]; [discriminate H|]. cbn [res_bind] in H.
  destruct (login_plain nonce server_key username password) as [e|plain] eqn:Hp;
    [discriminate H|]. cbn [res_bind] in H.
  destruct (_crypt host dhK plain) as [e|crypted] eqn:Hc; [discriminate H|].
  cbn [res_bind] in H. apply Return_inj in H.
  destruct (crypt_shape _ _ _ _ Hc) as [L Hhex].
  destruct (login_plain_length _ _ _ _ _ Hp) as [Hmod Hmin].
  exists plain, crypted. split; [reflexivity|]. split; [symmetry; exact H|].
  split. { apply all_lower_hex_fmt_x. apply Z.mod_pos_bound. exact dhN_pos. }
  split; [exact Hhex|]. split; [exact L|]. split; [lia|].
  rewrite L. rewrite Nat2Z.inj_mul. change (Z.of_nat 2) with 2.
  Z.div_mod_to_equations. lia.
Qed.

Lemma str_take_all n (s : string) : (String.length s <= n)%nat -> str_take n s = s.
Proof.
  revert n. induction s as [|c s IH]; intros n H; [destruct n; reflexivity|].
  destruct n as [|n]; [cbn [String.length] in H; lia|].
  cbn [str_take]. rewrite IH by (cbn [String.length] in H; lia). reflexivity.
Qed.

Lemma int16_fmt_x s : 0 <= s -> int16 (fmt_x s) = Return s.
Proof.
  intros Hs. rewrite fmt_x_nonneg by exact Hs.
  destruct (ndigits_spec 16 ltac:(lia) s Hs) as [Hhi _].
  pose proof (ndigits_pos 16 s) as Hpos.
  destruct (ndigits 16 s) as [|k]; [lia|].
  rewrite int16_fixed_digits, Z.mod_small by lia. reflexivity.
Qed.

(** [generate_login_key] returns a key only when the shared secret has at
    least 32 hexadecimal digits: for every other private exponent it
    raises. *)
Theorem login_key_needs_long_secret host dhx nonce server_key username password key :
  generate_login_key host dhx nonce server_key username password = Return key ->
  0 <= dhx /\ 16 ^ 31 <= dhY ^ dhx mod dhN.
Proof.
  intros H. unfold generate_login_key in H.
  assert (Hx : 0 <= dhx).
  { destruct dhx as [|p|p]; [lia|lia|discriminate H]. }
  split; [exact Hx|].
  rewrite !pow3_spec in H by (try exact Hx; exact dhN_pos).
  cbn [res_bind Return] in H.
  set (s := dhY ^ dhx mod dhN) in *.
  assert (Hs : 0 <= s < dhN) by (apply Z.mod_pos_bound; exact dhN_pos).
  destruct (Z.lt_ge_cases s (16 ^ 31)) as [Hlt|Hge]; [exfalso|exact Hge].
  rewrite str_take_all in H.
  2: { rewrite fmt_x_nonneg, length_fixed_digits by lia.
       pose proof (ndigits_le 16 ltac:(lia) s 30 Hlt). cbn [String.length]. lia. }
  rewrite int16_fmt_x in H by lia. cbn [res_bind Return] in H.
  destruct (login_plain nonce server_key username password) as [e|plain] eqn:Hp;
    [discriminate H|]. cbn [res_bind] in H.
  destruct (login_plain_length _ _ _ _ _ Hp) as [Hmod Hmin].
  destruct (crypt_short host s plain) as [E|E];
    [lia|intros ->; cbn [length] in Hmin; lia|exact Hmod| |];
    rewrite E in H; discriminate H.
Qed.

(** The login key carries the credentials to whoever knows the shared
    secret: the text after the dash, decrypted with the key made of the
    first 32 hexadecimal digits of the secret, is the challenge plaintext,
    in which the twelve bytes of nonce and length are followed by
    "<username>|<server_key>|<password>". *)
Theorem login_key_decrypts host dhx nonce server_key username password key :
  generate_login_key host dhx nonce server_key username password = Return key ->
  exists plain crypted,
    key = fmt_x (dhG ^ dhx mod dhN) ++ "-" ++ crypted /\
    cbc_tea_decrypt host (top32 (dhY ^ dhx mod dhN)) crypted = Return plain /\
    login_plain nonce server_key username password = Return plain /\
    take (String.length (challenge_of username server_key password)) (drop 12 plain)
    = list_byte_of_string (challenge_of username server_key password).
Proof.
  intros H. unfold generate_login_key in H.
  assert (Hx : 0 <= dhx).
  { destruct dhx as [|p|p]; [lia|lia|discriminate H]. }
  rewrite !pow3_spec in H by (try exact Hx; exact dhN_pos).
  cbn [res_bind Return] in H.
  set (s := dhY ^ dhx mod dhN) in *.
  assert (Hs : 0 <= s < dhN) by (apply Z.mod_pos_bound; exact dhN_pos).
  destruct (int16 (str_take 32 (fmt_x s))) as [e|dhK] eqn:Ek; [discriminate H|].
  cbn [res_bind] in H.
  destruct (login_plain nonce server_key username password) as [e|plain] eqn:Hp;
    [discriminate H|]. cbn [res_bind] in H.
  destruct (_crypt host dhK plain) as [e|crypted] eqn:Hc; [discriminate H|].
  cbn [res_bind] in H. apply Return_inj in H.
  destruct (login_plain_length _ _ _ _ _ Hp) as [Hmod Hmin].
  assert (Hge : 16 ^ 31 <= s).
  { destruct (Z.lt_ge_cases s (16 ^ 31)) as [Hlt|Hge]; [exfalso|exact Hge].
    rewrite str_take_all in Ek.
    2: { rewrite fmt_x_nonneg, length_fixed_digits by lia.
         pose proof (ndigits_le 16 ltac:(lia) s 30 Hlt). cbn [String.length]. lia. }
    rewrite int16_fmt_x in Ek by lia. apply Return_inj in Ek. subst dhK.
    destruct (crypt_short host s plain) as [E|E];
      [lia|intros ->; cbn [length] in Hmin; lia|exact Hmod| |];
      rewrite E in Hc; discriminate Hc. }
  destruct (top32_spec s Hge) as [Et _].
  rewrite Et in Ek. apply Return_inj in Ek. subst dhK.
  exists plain, crypted. split; [symmetry; exact H|].
  split; [exact (crypt_decrypt _ _ _ _ Hc)|]. split; [reflexivity|].
  destruct (login_plain_inv _ _ _ _ _ Hp) as [E|(pad & _ & E & _)]; [discriminate E|].
  apply Return_inj in E. rewrite E.
  rewrite (app_assoc (be_bytes 8 nonce)).
  rewrite drop_app_length' by (rewrite length_app, !length_be_bytes; reflexivity).
  rewrite <- length_list_byte_of_string. apply take_app_length.
Qed.

(* ================================================================= *)
(** * Properties of the session *)

Local Open Scope list_scope.
Local Open Scope Z_scope.

Section Transport.
Context `{codec : Codec}.

Lemma set_rx_same (w : chat) rx :
  sock_rx (socket w) = rx -> set_socket (set_rx rx (socket w)) w = w.
Proof. destruct w as [[rx' tx sent closed] ch chs out]. cbn. intros ->. reflexivity. Qed.

Lemma bind_ret_l {A B} (v : A) (k : A -> M B) w : bind (ret v) k w = k v w.
Proof. reflexivity. Qed.

Lemma bind_eq {A B} (m : M A) (k : A -> M B) w r w' :
  m w = (r, w') ->
  bind m k w = match r with inl e => (inl e, w') | inr v => k v w' end.
Proof. unfold bind. intros ->. reflexivity. Qed.

Lemma read_loop_done fuel bytes data w :
  bytes <= 0 -> read_loop fuel bytes data w = (inr data, w).
Proof.
  intros H. destruct fuel as [|fuel]; cbn [read_loop]; [reflexivity|].
  destruct (Z.ltb_spec 0 bytes); [lia|reflexivity].
Qed.

(** [recv] on an open socket whose next event is a non-empty chunk. *)
Lemma try_recv_chunk bytes c rest (w : chat) :
  sock_closed (socket w) = false ->
  sock_rx (socket w) = RecvData c :: rest ->
  c <> [] ->
  try_recv bytes w
  = (inr (take (Z.to_nat bytes) c),
     set_socket (set_rx (match drop (Z.to_nat bytes) c with
                         | [] => rest
                         | more => RecvData more :: rest
                         end) (socket w)) w).
Proof.
  intros Hc Hrx Hne. unfold try_recv, sock_recv. rewrite Hc, Hrx.
  destruct c as [|b c]; [contradiction|]. reflexivity.
Qed.

Lemma read_loop_chunks chunks :
  Forall nonempty chunks ->
  forall fuel bytes data tail (w : chat),
    sock_closed (socket w) = false ->
    sock_rx (socket w) = map RecvData chunks ++ tail ->
    0 <= bytes <= Z.of_nat (length (concat chunks)) ->
    (Z.to_nat bytes <= fuel)%nat ->
    exists rest,
      read_loop fuel bytes data w
      = (inr (data ++ take (Z.to_nat bytes) (concat chunks)),
         set_socket (set_rx (map RecvData rest ++ tail) (socket w)) w) /\
      concat rest = drop (Z.to_nat bytes) (concat chunks) /\
      Forall nonempty rest.
Proof.
  induction 1 as [|c chunks Hc Hcs IH]; intros fuel bytes data tail w Hopen Hrx Hb Hfuel.
  - cbn [concat length] in Hb. assert (bytes = 0) by lia. subst bytes.
    exists []. rewrite read_loop_done by lia.
    rewrite set_rx_same by exact Hrx. rewrite app_nil_r. repeat split. constructor.
  - destruct (Z.eq_dec bytes 0) as [->|Hnz].
    { exists (c :: chunks). rewrite read_loop_done by lia.
      rewrite set_rx_same by exact Hrx. rewrite app_nil_r.
      repeat split. constructor; assumption. }
    destruct fuel as [|fuel]; [lia|]. cbn [read_loop].
    destruct (Z.ltb_spec 0 bytes) as [_|]; [|lia].
    cbn [map app] in Hrx.
    rewrite (bind_eq _ _ _ _ _ (try_recv_chunk bytes c _ w Hopen Hrx Hc)).
    set (k := Z.to_nat bytes) in *.
    assert (Ek : k = Z.to_nat bytes) by reflexivity.
    assert (Hk : (0 < k)%nat) by lia.
    assert (Hlc : (0 < length c)%nat).
    { destruct c; [contradiction|cbn [length]; lia]. }
    assert (Htk : take k c <> []).
    { destruct c as [|b c]; [contradiction|]. destruct k; [lia|discriminate]. }
    destruct (take k c) as [|t0 ts] eqn:Etake; [contradiction|]. rewrite <- Etake. clear Htk.
    cbn [concat] in *.
    destruct (Nat.le_gt_cases (length c) k) as [Hle|Hgt].
    + (* the whole chunk is taken *)
      rewrite take_ge by exact Hle. rewrite drop_ge by exact Hle.
      set (w1 := set_socket (set_rx (map RecvData chunks ++ tail) (socket w)) w).
      destruct (IH fuel (bytes - Z.of_nat (length c)) (data ++ c) tail w1)
        as (rest & E & Hcat & Hne).
      * exact Hopen.
      * reflexivity.
      * rewrite length_app in Hb. lia.
      * lia.
      * exists rest. rewrite E. split; [|split; [|exact Hne]].
        -- f_equal.
           ++ f_equal. rewrite <- app_assoc. f_equal.
              rewrite take_app. rewrite (take_ge c k) by exact Hle. f_equal. f_equal. lia.
        -- rewrite Hcat. rewrite drop_app. rewrite (drop_ge c k) by exact Hle.
           cbn [app]. f_equal. lia.
    + (* the chunk holds more than is asked for *)
      assert (Hlen : length (take k c) = k) by (rewrite length_take; lia).
      rewrite Hlen. rewrite read_loop_done by lia.
      assert (Hd : drop k c <> []).
      { intros E. apply (f_equal length) in E. rewrite length_drop in E.
        cbn [length] in E. lia. }
      destruct (drop k c) as [|d0 ds] eqn:Edrop; [contradiction|]. rewrite <- Edrop.
      exists (drop k c :: chunks). split; [|split].
      * f_equal. f_equal. rewrite take_app.
        replace (k - length c)%nat with 0%nat by lia.
        rewrite take_0, app_nil_r. reflexivity.
      * cbn [concat]. rewrite drop_app.
        replace (k - length c)%nat with 0%nat by lia. reflexivity.
      * constructor; [rewrite Edrop; discriminate|exact Hcs].
Qed.

Lemma try_recv_eof bytes rest (w : chat) :
  sock_closed (socket w) = false ->
  sock_rx (socket w) = RecvData [] :: rest ->
  try_recv bytes w = (inr [], w).
Proof.
  intros Hc Hrx. unfold try_recv, sock_recv. rewrite Hc, Hrx.
  destruct w as [s ch chs out]. reflexivity.
Qed.

Lemma read_loop_eof chunks :
  Forall nonempty chunks ->
  forall fuel bytes data tail (w : chat),
    sock_closed (socket w) = false ->
    sock_rx (socket w) = map RecvData chunks ++ RecvData [] :: tail ->
    Z.of_nat (length (concat chunks)) < bytes ->
    (Z.to_nat bytes <= fuel)%nat ->
    read_loop fuel bytes data w
    = (inl (ChatError "Connection broken."),
       set_socket (set_rx (RecvData [] :: tail) (socket w)) w).
Proof.
  induction 1 as [|c chunks Hc Hcs IH]; intros fuel bytes data tail w Hopen Hrx Hb Hfuel.
  - cbn [concat length map app] in *.
    destruct fuel as [|fuel]; [lia|]. cbn [read_loop].
    destruct (Z.ltb_spec 0 bytes) as [_|]; [|lia].
    rewrite (bind_eq _ _ _ _ _ (try_recv_eof bytes tail w Hopen Hrx)).
    rewrite set_rx_same by exact Hrx. reflexivity.
  - cbn [concat map app] in *. rewrite length_app in Hb.
    assert (Hlc : (0 < length c)%nat).
    { destruct c; [contradiction|cbn [length]; lia]. }
    destruct fuel as [|fuel]; [lia|]. cbn [read_loop].
    destruct (Z.ltb_spec 0 bytes) as [_|]; [|lia].
    rewrite (bind_eq _ _ _ _ _ (try_recv_chunk bytes c _ w Hopen Hrx Hc)).
    rewrite (take_ge c) by lia. rewrite (drop_ge c) by lia.
    destruct c as [|b c]; [contradiction|].
    set (w1 := set_socket _ w).
    rewrite (IH fuel _ _ tail w1); [reflexivity|exact Hopen|reflexivity|lia|lia].
Qed.

Lemma socket_except_timeout {A} (w : chat) :
  socket_except (A:=A) SocketTimeout w = (inl (PyExn TypeError), w).
Proof. reflexivity. Qed.

Lemma socket_except_never_timed_out {A} e (w : chat) r w' :
  socket_except (A:=A) e w = (r, w') ->
  r <> inl (ChatError "Connection timed out.").
Proof.
  unfold socket_except. intros H.
  destruct e; try (cbn in H; injection H as <- _; discriminate).
  destruct args as [|[code|s] [|[n|msg] [|? ?]]];
    cbn in H; injection H as <- _; discriminate.
Qed.

Lemma read_loop_never_timed_out fuel :
  forall bytes data (w : chat) r w',
    read_loop fuel bytes data w = (r, w') ->
    r <> inl (ChatError "Connection timed out.").
Proof.
  induction fuel as [|fuel IH]; intros bytes data w r w' H; cbn [read_loop] in H.
  - injection H as <- _. discriminate.
  - destruct (0 <? bytes); [|injection H as <- _; discriminate].
    unfold bind, try_recv in H.
    destruct (sock_recv bytes (socket w)) as [[e|chunk] s].
    + destruct (socket_except (A:=list byte) e (set_socket s w)) as [[e'|v] w1] eqn:E.
      * injection H as <- _. exact (socket_except_never_timed_out _ _ _ _ E).
      * exfalso. unfold socket_except in E.
        destruct (isinstance e class_socket_error).
        -- unfold bind in E. destruct (lift _ _) as [[?|?] ?]; discriminate E.
        -- destruct (isinstance e class_socket_timeout); discriminate E.
    + destruct chunk as [|b chunk]; [injection H as <- _; discriminate|].
      exact (IH _ _ _ _ _ H).
Qed.

Lemma try_send_all data (w : chat) :
  sock_closed (socket w) = false ->
  sock_tx (socket w) = [] ->
  try_send data w
  = (inr (Z.of_nat (length data)),
     set_socket (mkSocket (sock_rx (socket w)) [] (sock_sent (socket w) ++ data) false) w).
Proof.
  intros Hc Htx. unfold try_send, sock_send. rewrite Hc, Htx. reflexivity.
Qed.

Lemma try_send_room data k rest (w : chat) :
  sock_closed (socket w) = false ->
  sock_tx (socket w) = SendRoom k :: rest ->
  try_send data w
  = (inr (Z.of_nat (Nat.min k (length data))),
     set_socket (mkSocket (sock_rx (socket w)) rest
                   (sock_sent (socket w) ++ take (Nat.min k (length data)) data) false) w).
Proof.
  intros Hc Htx. unfold try_send, sock_send. rewrite Hc, Htx. reflexivity.
Qed.

Lemma write_loop_done fuel bytes data (w : chat) :
  bytes <= 0 -> write_loop fuel bytes data w = (inr tt, w).
Proof.
  intros H. destruct fuel as [|fuel]; cbn [write_loop]; [reflexivity|].
  destruct (Z.ltb_spec 0 bytes); [lia|reflexivity].
Qed.

Lemma write_loop_all fuel :
  forall data (w : chat),
    sock_closed (socket w) = false ->
    good_tx (sock_tx (socket w)) ->
    (length data <= fuel)%nat ->
    exists tx',
      write_loop fuel (Z.of_nat (length data)) data w
      = (inr tt,
         set_socket (mkSocket (sock_rx (socket w)) tx'
                       (sock_sent (socket w) ++ data) false) w) /\
      good_tx tx'.
Proof.
  induction fuel as [|fuel IH]; intros data w Hopen Htx Hfuel.
  - destruct data; [|cbn [length] in Hfuel; lia].
    exists (sock_tx (socket w)). split; [|exact Htx].
    cbn [write_loop]. rewrite app_nil_r.
    destruct w as [[rx tx sent closed] ch chs out]. cbn in *. subst closed. reflexivity.
  - destruct data as [|b data].
    { exists (sock_tx (socket w)). split; [|exact Htx].
      rewrite write_loop_done by (cbn [length]; lia). rewrite app_nil_r.
      destruct w as [[rx tx sent closed] ch chs out]. cbn in *. subst closed. reflexivity. }
    cbn [write_loop]. destruct (Z.ltb_spec 0 (Z.of_nat (length (b :: data)))) as [_|H];
      [|cbn [length] in H; lia].
    destruct (sock_tx (socket w)) as [|ev rest] eqn:Etx.
    + rewrite (bind_eq _ _ _ _ _ (try_send_all _ w Hopen Etx)).
      destruct (Z.eqb_spec (Z.of_nat (length (b :: data))) 0) as [H|_];
        [cbn [length] in H; lia|].
      rewrite write_loop_done by lia. exists []. split; [reflexivity|constructor].
    + inversion Htx as [|? ? [k ->] Hrest]; subst.
      rewrite (bind_eq _ _ _ _ _ (try_send_room _ _ _ w Hopen Etx)).
      set (m := Nat.min (S k) (length (b :: data))).
      assert (Hm : (0 < m <= length (b :: data))%nat) by (unfold m; cbn [length]; lia).
      destruct (Z.eqb_spec (Z.of_nat m) 0) as [H|_]; [lia|].
      rewrite Nat2Z.id.
      replace (Z.of_nat (length (b :: data)) - Z.of_nat m)
        with (Z.of_nat (length (drop m (b :: data))))
        by (rewrite length_drop; lia).
      set (w1 := set_socket _ w).
      destruct (IH (drop m (b :: data)) w1) as (tx' & E & Hgood).
      * reflexivity.
      * exact Hrest.
      * rewrite length_drop. cbn [length] in *. lia.
      * exists tx'. split; [|exact Hgood]. rewrite E. f_equal.
        unfold w1, set_socket.
        cbn [socket sock_rx sock_sent sock_tx sock_closed character characters stdout].
        rewrite <- app_assoc, take_drop. reflexivity.
Qed.

Lemma write_socket_all data (w : chat) :
  sock_closed (socket w) = false ->
  good_tx (sock_tx (socket w)) ->
  exists tx',
    __write_socket data w
    = (inr tt,
       set_socket (mkSocket (sock_rx (socket w)) tx'
                     (sock_sent (socket w) ++ data) false) w) /\
    good_tx tx'.
Proof. intros Ho Ht. apply write_loop_all; [exact Ho|exact Ht|lia]. Qed.

Lemma lift_return {A} (v : A) : lift (Return v) = ret v.
Proof. reflexivity. Qed.

Lemma lift_raise {A} e : lift (A:=A) (Raise e) = raise (PyExn e).
Proof. reflexivity. Qed.

Lemma read_socket_chunks n chunks tail (w : chat) :
  sock_closed (socket w) = false ->
  sock_rx (socket w) = map RecvData chunks ++ tail ->
  Forall nonempty chunks ->
  0 <= n <= Z.of_nat (length (concat chunks)) ->
  exists rest,
    __read_socket n w
    = (inr (take (Z.to_nat n) (concat chunks)),
       set_socket (set_rx (map RecvData rest ++ tail) (socket w)) w) /\
    concat rest = drop (Z.to_nat n) (concat chunks) /\
    Forall nonempty rest.
Proof.
  intros Ho Hrx Hne Hn. unfold __read_socket.
  destruct (read_loop_chunks chunks Hne (Z.to_nat n) n [] tail w Ho Hrx Hn (Nat.le_refl _))
    as (rest & E & H1 & H2).
  exists rest. rewrite E. auto.
Qed.

Lemma unpack_frame_header t n rest :
  0 <= t < 65536 -> 0 <= n < 65536 ->
  struct_unpack_2H (take 4 (be_bytes 2 t ++ be_bytes 2 n ++ rest)) = Return (t, n).
Proof.
  intros Ht Hn.
  change (take 4 (be_bytes 2 t ++ be_bytes 2 n ++ rest))
    with (be_bytes 2 t ++ be_bytes 2 n).
  change (struct_unpack_2H (be_bytes 2 t ++ be_bytes 2 n))
    with (Return (A:=Z * Z) (be_value (be_bytes 2 t), be_value (be_bytes 2 n))).
  pose proof (int_from_to_bytes BigEndian 2 t) as Et.
  pose proof (int_from_to_bytes BigEndian 2 n) as En.
  cbn [int_from_bytes int_to_bytes] in Et, En.
  rewrite Et, En. change (256 ^ Z.of_nat 2) with 65536.
  rewrite !Z.mod_small by lia. reflexivity.
Qed.

(** Reading one frame off the wire, however it is cut in chunks. *)
Lemma wait_packet_frame Expect Error chunks tail (w : chat) t p more :
  sock_closed (socket w) = false ->
  sock_rx (socket w) = map RecvData chunks ++ tail ->
  Forall nonempty chunks ->
  concat chunks = frame t p ++ more ->
  0 <= t < 65536 -> Z.of_nat (length p) < 65536 ->
  exists rest,
    wait_packet Expect Error w
    = bind (make_packet Expect Error t p)
        (fun packet => bind (print (GotPacket packet)) (fun _ => ret packet))
        (set_socket (set_rx (map RecvData rest ++ tail) (socket w)) w) /\
    concat rest = more /\
    Forall nonempty rest.
Proof.
  intros Ho Hrx Hne Hcat Ht Hp. unfold wait_packet.
  assert (Hlen : length (concat chunks) = (4 + length p + length more)%nat).
  { rewrite Hcat. unfold frame. rewrite !length_app, !length_be_bytes. lia. }
  destruct (read_socket_chunks 4 chunks tail w Ho Hrx Hne ltac:(lia))
    as (rest1 & E1 & Hc1 & Hn1).
  rewrite (bind_eq _ _ _ _ _ E1).
  rewrite Hcat in *. unfold frame in *. rewrite <- !app_assoc in *.
  change (Z.to_nat 4) with 4%nat in *.
  rewrite unpack_frame_header by lia.
  rewrite lift_return, bind_ret_l. cbn [fst snd].
  set (w1 := set_socket (set_rx (map RecvData rest1 ++ tail) (socket w)) w) in *.
  assert (Hd : drop 4 (be_bytes 2 t ++ be_bytes 2 (Z.of_nat (length p)) ++ p ++ more)
               = p ++ more) by reflexivity.
  rewrite Hd in Hc1.
  destruct (read_socket_chunks (Z.of_nat (length p)) rest1 tail w1 Ho eq_refl Hn1)
    as (rest & E2 & Hc2 & Hn2).
  { rewrite Hc1, length_app. lia. }
  rewrite (bind_eq _ _ _ _ _ E2).
  rewrite Hc1, Nat2Z.id in *.
  rewrite take_app_length in *. rewrite drop_app_length in Hc2.
  exists rest. split; [reflexivity|]. split; assumption.
Qed.

Lemma send_packet_written packet Expect Error (w : chat) :
  sock_closed (socket w) = false ->
  good_tx (sock_tx (socket w)) ->
  exists tx',
    good_tx tx' /\
    send_packet packet Expect Error w
    = match Expect with
      | Some _ => bind (wait_packet Expect Error) (fun reply => ret (Some reply))
      | None => ret None
      end (logged (SentPacket packet) (transmitted tx' (pack packet) w)).
Proof.
  intros Ho Htx. unfold send_packet.
  destruct (write_socket_all (pack packet) w Ho Htx) as (tx' & Ew & Hg).
  exists tx'. split; [exact Hg|].
  rewrite (bind_eq _ _ _ _ _ Ew).
  unfold transmitted. rewrite Ho. reflexivity.
Qed.

Lemma wait_packet_expected expect Error chunks tail (w : chat) p more packet :
  sock_closed (socket w) = false ->
  sock_rx (socket w) = map RecvData chunks ++ tail ->
  Forall nonempty chunks ->
  concat chunks = frame (cls_type expect) p ++ more ->
  0 <= cls_type expect < 65536 -> Z.of_nat (length p) < 65536 ->
  cls_make expect p = Return packet ->
  exists rest,
    wait_packet (Some expect) Error w
    = (inr packet, logged (GotPacket packet) (received (map RecvData rest ++ tail) w)) /\
    concat rest = more /\ Forall nonempty rest.
Proof.
  intros Ho Hrx Hne Hcat Ht Hp Hmake.
  destruct (wait_packet_frame (Some expect) Error chunks tail w _ p more
              Ho Hrx Hne Hcat Ht Hp) as (rest & E & Hc & Hn).
  exists rest. split; [|split; assumption]. rewrite E.
  unfold make_packet. rewrite Z.eqb_refl. cbn [negb].
  rewrite Hmake, lift_return, bind_ret_l. reflexivity.
Qed.

Lemma wait_packet_unexpected expect chunks tail (w : chat) t p more :
  sock_closed (socket w) = false ->
  sock_rx (socket w) = map RecvData chunks ++ tail ->
  Forall nonempty chunks ->
  concat chunks = frame t p ++ more ->
  0 <= t < 65536 -> Z.of_nat (length p) < 65536 ->
  t <> cls_type expect ->
  exists rest,
    wait_packet (Some expect) None w
    = (inl (ChatError "Unexpected error."), received (map RecvData rest ++ tail) w) /\
    concat rest = more /\ Forall nonempty rest.
Proof.
  intros Ho Hrx Hne Hcat Ht Hp Hneq.
  destruct (wait_packet_frame (Some expect) None chunks tail w _ p more
              Ho Hrx Hne Hcat Ht Hp) as (rest & E & Hc & Hn).
  exists rest. split; [|split; assumption]. rewrite E.
  unfold make_packet. destruct (Z.eqb_spec t (cls_type expect)); [contradiction|].
  reflexivity.
Qed.

Lemma wait_packet_unknown chunks tail (w : chat) t p more :
  sock_closed (socket w) = false ->
  sock_rx (socket w) = map RecvData chunks ++ tail ->
  Forall nonempty chunks ->
  concat chunks = frame t p ++ more ->
  0 <= t < 65536 -> Z.of_nat (length p) < 65536 ->
  SERVER_PACKETS !! t = None ->
  exists rest,
    wait_packet None None w
    = (inl (UnexpectedPacket t (inr p)), received (map RecvData rest ++ tail) w) /\
    concat rest = more /\ Forall nonempty rest.
Proof.
  intros Ho Hrx Hne Hcat Ht Hp Hnone.
  destruct (wait_packet_frame None None chunks tail w _ p more
              Ho Hrx Hne Hcat Ht Hp) as (rest & E & Hc & Hn).
  exists rest. split; [|split; assumption]. rewrite E.
  unfold make_packet. rewrite Hnone. reflexivity.
Qed.

(** Claim C4.  On an open socket on which the chunks [chunks] arrive,
    [__read_socket n] returns exactly the first [n] bytes of their
    concatenation and leaves the rest to be read, so that the bytes
    returned are the same however the stream is cut into chunks; when the
    stream ends before [n] bytes came, the zero-length read fails with
    "Connection broken.". *)
Theorem read_socket_chunk_invariant (n : Z) (chunks : list (list byte))
    (tail : list recv_event) (w : chat) :
  sock_closed (socket w) = false ->
  sock_rx (socket w) = map RecvData chunks ++ tail ->
  Forall nonempty chunks ->
  (0 <= n <= Z.of_nat (length (concat chunks)) ->
     (exists rest,
        __read_socket n w
        = (inr (take (Z.to_nat n) (concat chunks)),
           set_socket (set_rx (map RecvData rest ++ tail) (socket w)) w) /\
        concat rest = drop (Z.to_nat n) (concat chunks)) /\
     Z.of_nat (length (take (Z.to_nat n) (concat chunks))) = n /\
     (forall chunks' tail' (w' : chat),
        sock_closed (socket w') = false ->
        sock_rx (socket w') = map RecvData chunks' ++ tail' ->
        Forall nonempty chunks' ->
        concat chunks' = concat chunks ->
        fst (__read_socket n w') = fst (__read_socket n w))) /\
  (Z.of_nat (length (concat chunks)) < n ->
     forall tail', tail = RecvData [] :: tail' ->
       fst (__read_socket n w) = inl (ChatError "Connection broken.")).
Proof.
  intros Ho Hrx Hne. split.
  - intros Hn.
    destruct (read_socket_chunks n chunks tail w Ho Hrx Hne Hn) as (rest & E & Hc & _).
    split; [eauto|]. split; [rewrite length_take; lia|].
    intros chunks' tail' w' Ho' Hrx' Hne' Hcat.
    destruct (read_socket_chunks n chunks' tail' w' Ho' Hrx' Hne' ltac:(rewrite Hcat; exact Hn))
      as (rest' & E' & _ & _).
    rewrite E, E', Hcat. reflexivity.
  - intros Hn tail' ->. unfold __read_socket.
    rewrite (read_loop_eof chunks Hne _ _ _ tail' w Ho Hrx Hn (Nat.le_refl _)).
    reflexivity.
Qed.

Lemma find_absent character_id (cs : list Character) :
  Forall (fun c => char_id c <> character_id) cs ->
  List.find (fun c => character_id =? char_id c) cs = None.
Proof.
  induction 1 as [|c cs Hc _ IH]; [reflexivity|]. cbn [List.find].
  destruct (Z.eqb_spec character_id (char_id c)) as [E|_]; [congruence|exact IH].
Qed.

Lemma find_present character_id (cs : list Character) :
  Exists (fun c => char_id c = character_id) cs ->
  exists c, List.find (fun c => character_id =? char_id c) cs = Some c /\
            In c cs /\ char_id c = character_id.
Proof.
  induction 1 as [c cs Hc|c cs _ IH]; cbn [List.find].
  - destruct (Z.eqb_spec character_id (char_id c)) as [_|N]; [|congruence].
    exists c. repeat split; [left; reflexivity|exact Hc].
  - destruct (Z.eqb_spec character_id (char_id c)) as [E|_].
    + exists c. repeat split; [left; reflexivity|congruence].
    + destruct IH as (c' & E & Hin & Hid). exists c'. repeat split; [exact E|right; exact Hin|exact Hid].
Qed.

(** Claim C5.  [login]: when no stored character has the id, it fails
    with "no valid characters to login." and leaves the object as it was
    (nothing written, active character unchanged); when one has, and the
    exchange ends with the login-ok reply, the active character afterwards
    is an element of the stored list whose id is the one asked for, and
    exactly the login packet went out. *)
Theorem login_contract (character_id : Z) (w : chat) :
  (Forall (fun c => char_id c <> character_id) (characters w) ->
     login character_id w = (inl (ChatError "no valid characters to login."), w)) /\
  (Exists (fun c => char_id c = character_id) (characters w) ->
     exists c,
       In c (characters w) /\ char_id c = character_id /\
       (forall reply w',
          send_packet (AOCP_LOGIN character_id)
            (Some AOSP_LOGIN_OK) (Some AOSP_AUTH_ERROR) w = (inr reply, w') ->
          login character_id w = (inr tt, set_character (Some c) w')) /\
       (forall chunks tail payload more packet,
          sock_closed (socket w) = false ->
          good_tx (sock_tx (socket w)) ->
          sock_rx (socket w) = map RecvData chunks ++ tail ->
          Forall nonempty chunks ->
          concat chunks = frame (cls_type AOSP_LOGIN_OK) payload ++ more ->
          0 <= cls_type AOSP_LOGIN_OK < 65536 ->
          Z.of_nat (length payload) < 65536 ->
          cls_make AOSP_LOGIN_OK payload = Return packet ->
          exists w',
            login character_id w = (inr tt, w') /\
            character w' = Some c /\
            sock_sent (socket w')
            = sock_sent (socket w) ++ pack (AOCP_LOGIN character_id))).
Proof.
  split.
  - intros H. unfold login. rewrite (find_absent _ _ H). reflexivity.
  - intros H. destruct (find_present _ _ H) as (c & Efind & Hin & Hid).
    exists c. split; [exact Hin|]. split; [exact Hid|]. split.
    + intros reply w' E. unfold login. rewrite Efind.
      unfold bind, except_unexpected_message. rewrite E. reflexivity.
    + intros chunks tail payload more packet Ho Htx Hrx Hne Hcat Ht Hp Hmake.
      destruct (send_packet_written (AOCP_LOGIN character_id)
                  (Some AOSP_LOGIN_OK) (Some AOSP_AUTH_ERROR) w Ho Htx)
        as (tx' & _ & Es).
      set (w1 := logged _ (transmitted tx' _ w)) in Es.
      destruct (wait_packet_expected AOSP_LOGIN_OK (Some AOSP_AUTH_ERROR)
                  chunks tail w1 payload more packet Ho Hrx Hne Hcat Ht Hp Hmake)
        as (rest & Ewait & _ & _).
      rewrite (bind_eq _ _ _ _ _ Ewait) in Es.
      unfold login. rewrite Efind.
      unfold bind, except_unexpected_message. rewrite Es.
      eexists. split; [reflexivity|]. split; reflexivity.
Qed.

(** Claim C6.  A well-framed packet whose type is absent from
    [SERVER_PACKETS] makes [wait_packet] hand over the type and the raw
    payload in [UnexpectedPacket]; the event loop prints one line for it,
    calls no handler, and goes on polling. *)
Theorem unknown_packet_skipped (events : gmap Z handler) (chunks : list (list byte))
    (tail : list recv_event) (w : chat) (t : Z) (p more : list byte) :
  sock_closed (socket w) = false ->
  sock_rx (socket w) = map RecvData chunks ++ tail ->
  Forall nonempty chunks ->
  concat chunks = frame t p ++ more ->
  0 <= t < 65536 -> Z.of_nat (length p) < 65536 ->
  SERVER_PACKETS !! t = None ->
  exists rest,
    concat rest = more /\
    wait_packet None None w
    = (inl (UnexpectedPacket t (inr p)), received (map RecvData rest ++ tail) w) /\
    on_event events POLLIN w
    = (inr Next,
       logged (UnexpectedLine t (inr p)) (received (map RecvData rest ++ tail) w)) /\
    forall fd polls,
      start events (PollReady [(fd, POLLIN)] :: polls) w
      = start events polls
          (logged (UnexpectedLine t (inr p)) (received (map RecvData rest ++ tail) w)).
Proof.
  intros Ho Hrx Hne Hcat Ht Hp Hnone.
  destruct (wait_packet_unknown chunks tail w t p more Ho Hrx Hne Hcat Ht Hp Hnone)
    as (rest & E & Hc & _).
  exists rest. split; [exact Hc|]. split; [exact E|].
  assert (Eev : on_event events POLLIN w
                = (inr Next, logged (UnexpectedLine t (inr p))
                               (received (map RecvData rest ++ tail) w))).
  { unfold on_event. change (POLLIN =? POLLIN) with true. cbv beta iota.
    rewrite E. reflexivity. }
  split; [exact Eev|].
  intros fd polls.
  assert (Efor : for_events events [(fd, POLLIN)] w
                 = (inr Next, logged (UnexpectedLine t (inr p))
                                (received (map RecvData rest ++ tail) w))).
  { cbn [for_events]. rewrite (bind_eq _ _ _ _ _ Eev). reflexivity. }
  cbn [start]. unfold on_poll. rewrite (bind_eq _ _ _ _ _ Efor). reflexivity.
Qed.

(** Claim C7.  When [poll] answers with no event, the loop writes exactly
    the ping packet and reads one packet: a pong lets the loop go on
    polling, with no handler called; a packet of any other type ends the
    loop with "Unexpected error.". *)
Theorem keepalive_ping (events : gmap Z handler) (polls : list poll_event)
    (chunks : list (list byte)) (tail : list recv_event) (w : chat)
    (t : Z) (p more : list byte) :
  sock_closed (socket w) = false ->
  good_tx (sock_tx (socket w)) ->
  sock_rx (socket w) = map RecvData chunks ++ tail ->
  Forall nonempty chunks ->
  concat chunks = frame t p ++ more ->
  0 <= t < 65536 -> Z.of_nat (length p) < 65536 ->
  exists rest tx',
    concat rest = more /\
    let w1 := received (map RecvData rest ++ tail)
                (logged (SentPacket AOCP_PING) (transmitted tx' (pack AOCP_PING) w)) in
    sock_sent (socket w1) = sock_sent (socket w) ++ pack AOCP_PING /\
    (forall pong,
       t = cls_type AOSP_PING -> cls_make AOSP_PING p = Return pong ->
       start events (PollReady [] :: polls) w
       = start events polls (logged (GotPacket pong) w1)) /\
    (t <> cls_type AOSP_PING ->
       start events (PollReady [] :: polls) w
       = (inl (ChatError "Unexpected error."), w1)).
Proof.
  intros Ho Htx Hrx Hne Hcat Ht Hp.
  destruct (send_packet_written AOCP_PING (Some AOSP_PING) None w Ho Htx)
    as (tx' & _ & Es).
  set (w0 := logged _ (transmitted tx' _ w)) in Es.
  destruct (wait_packet_frame (Some AOSP_PING) None chunks tail w0 t p more
              Ho Hrx Hne Hcat Ht Hp) as (rest & Ew & Hc & Hn).
  exists rest, tx'. split; [exact Hc|]. cbv zeta.
  split; [reflexivity|]. split.
  - intros pong -> Hmake.
    assert (Ew2 : wait_packet (Some AOSP_PING) None w0
                  = (inr pong, logged (GotPacket pong)
                                 (received (map RecvData rest ++ tail) w0))).
    { rewrite Ew. unfold make_packet. rewrite Z.eqb_refl. cbn [negb].
      rewrite Hmake, lift_return, bind_ret_l. reflexivity. }
    cbn [start]. unfold on_poll. cbn [for_events]. rewrite bind_ret_l.
    assert (Eping : send_packet AOCP_PING (Some AOSP_PING) None w
                    = (inr (Some pong), logged (GotPacket pong)
                         (received (map RecvData rest ++ tail) w0))).
    { rewrite Es. rewrite (bind_eq _ _ _ _ _ Ew2). reflexivity. }
    assert (Ep : ping w = (inr tt, logged (GotPacket pong)
                                    (received (map RecvData rest ++ tail) w0))).
    { unfold ping. rewrite (bind_eq _ _ _ _ _ Eping). reflexivity. }
    rewrite (bind_eq _ _ _ _ _ Ep). reflexivity.
  - intros Hneq.
    cbn [start]. unfold on_poll. cbn [for_events]. rewrite bind_ret_l.
    assert (Ew2 : wait_packet (Some AOSP_PING) None w0
                  = (inl (ChatError "Unexpected error."),
                     received (map RecvData rest ++ tail) w0)).
    { rewrite Ew. unfold make_packet.
      destruct (Z.eqb_spec t (cls_type AOSP_PING)); [contradiction|]. reflexivity. }
    assert (Eping : send_packet AOCP_PING (Some AOSP_PING) None w
                    = (inl (ChatError "Unexpected error."),
                       received (map RecvData rest ++ tail) w0)).
    { rewrite Es. rewrite (bind_eq _ _ _ _ _ Ew2). reflexivity. }
    assert (Ep : ping w = (inl (ChatError "Unexpected error."),
                           received (map RecvData rest ++ tail) w0)).
    { unfold ping. rewrite (bind_eq _ _ _ _ _ Eping). reflexivity. }
    rewrite (bind_eq _ _ _ _ _ Ep). reflexivity.
Qed.

Lemma read_socket_timeout n (w : chat) :
  0 < n ->
  sock_closed (socket w) = false ->
  (sock_rx (socket w) = [] \/ exists rest, sock_rx (socket w) = RecvTimeout :: rest) ->
  fst (__read_socket n w) = inl (PyExn TypeError).
Proof.
  intros Hn Ho Hrx. unfold __read_socket.
  destruct (Z.to_nat n) as [|fuel] eqn:E; [lia|]. cbn [read_loop].
  destruct (Z.ltb_spec 0 n); [|lia].
  unfold bind, try_recv, sock_recv. rewrite Ho.
  destruct Hrx as [->|[rest ->]]; reflexivity.
Qed.

Lemma read_socket_never_timed_out n (w : chat) r w' :
  __read_socket n w = (r, w') -> r <> inl (ChatError "Connection timed out.").
Proof. apply read_loop_never_timed_out. Qed.
End Transport.

(** Claim C8 fails on the code: when the timeout elapses in [recv], the
    clause for [socket.error] comes first and catches [socket.timeout],
    whose single argument does not fit "Socket error %d: %s"; the read ends
    in [TypeError], not in "Connection timed out.". *)
Theorem read_socket_timeout_type_error :
__read_socket (codec := example_codec) 4 (new_chat (ex_socket [RecvTimeout]))
= (inl (PyExn TypeError), new_chat (ex_socket [])).
Proof. reflexivity. Qed.

Section Closing.
Context `{codec : Codec}.

Lemma keeps_ret {A} (v : A) : keeps_closed (ret v).
Proof. intros w r w' H. injection H as _ <-. reflexivity. Qed.

Lemma keeps_raise {A} e : keeps_closed (raise (A:=A) e).
Proof. intros w r w' H. injection H as _ <-. reflexivity. Qed.

Lemma keeps_lift {A} (r : res A) : keeps_closed (lift r).
Proof. destruct r; [apply keeps_raise|apply keeps_ret]. Qed.

Lemma keeps_print l : keeps_closed (print l).
Proof. intros w r w' H. injection H as _ <-. reflexivity. Qed.

Lemma keeps_bind {A B} (m : M A) (k : A -> M B) :
  keeps_closed m -> (forall v, keeps_closed (k v)) -> keeps_closed (bind m k).
Proof.
  intros Hm Hk w r w' H. unfold bind in H.
  destruct (m w) as [[e|v] w1] eqn:E.
  - injection H as _ <-. exact (Hm _ _ _ E).
  - rewrite (Hk v _ _ _ H). exact (Hm _ _ _ E).
Qed.

Lemma sock_recv_closed n s r s' :
  sock_recv n s = (r, s') -> sock_closed s' = sock_closed s.
Proof.
  unfold sock_recv. destruct (sock_closed s) eqn:Ec.
  - intros H. injection H as _ <-. exact Ec.
  - destruct (sock_rx s) as [|[[|b c]|args|] rest]; intros H; injection H as _ <-;
      cbn; rewrite ?Ec; reflexivity.
Qed.

Lemma sock_send_closed data s r s' :
  sock_send data s = (r, s') -> sock_closed s' = sock_closed s.
Proof.
  unfold sock_send. destruct (sock_closed s) eqn:Ec.
  - intros H. injection H as _ <-. exact Ec.
  - destruct (sock_tx s) as [|[room|args|] rest]; intros H; injection H as _ <-;
      cbn; rewrite ?Ec; reflexivity.
Qed.

Lemma keeps_socket_except {A} e : keeps_closed (socket_except (A:=A) e).
Proof.
  unfold socket_except. destruct (isinstance e class_socket_error).
  - apply keeps_bind; [apply keeps_lift|intros; apply keeps_raise].
  - destruct (isinstance e class_socket_timeout); apply keeps_raise.
Qed.

Lemma keeps_try_recv n : keeps_closed (try_recv n).
Proof.
  intros w r w' H. unfold try_recv in H.
  destruct (sock_recv n (socket w)) as [[e|c] s] eqn:E;
    pose proof (sock_recv_closed _ _ _ _ E) as Hs.
  - rewrite (keeps_socket_except e _ _ _ H). exact Hs.
  - injection H as _ <-. exact Hs.
Qed.

Lemma keeps_try_send data : keeps_closed (try_send data).
Proof.
  intros w r w' H. unfold try_send in H.
  destruct (sock_send data (socket w)) as [[e|c] s] eqn:E;
    pose proof (sock_send_closed _ _ _ _ E) as Hs.
  - rewrite (keeps_socket_except e _ _ _ H). exact Hs.
  - injection H as _ <-. exact Hs.
Qed.

Lemma keeps_read_loop fuel : forall bytes data, keeps_closed (read_loop fuel bytes data).
Proof.
  induction fuel as [|fuel IH]; intros bytes data; cbn [read_loop]; [apply keeps_ret|].
  destruct (0 <? bytes); [|apply keeps_ret].
  apply keeps_bind; [apply keeps_try_recv|].
  intros [|b c]; [apply keeps_raise|apply IH].
Qed.

Lemma keeps_write_loop fuel : forall bytes data, keeps_closed (write_loop fuel bytes data).
Proof.
  induction fuel as [|fuel IH]; intros bytes data; cbn [write_loop]; [apply keeps_ret|].
  destruct (0 <? bytes); [|apply keeps_ret].
  apply keeps_bind; [apply keeps_try_send|].
  intros sent. destruct (sent =? 0); [apply keeps_raise|apply IH].
Qed.

Lemma keeps_make_packet Expect Error t data : keeps_closed (make_packet Expect Error t data).
Proof.
  unfold make_packet. destruct Expect as [expect|].
  - destruct (negb _); [|apply keeps_lift].
    destruct Error as [error|]; [|apply keeps_raise].
    destruct (_ =? _); [|apply keeps_raise].
    apply keeps_bind; [apply keeps_lift|intros; apply keeps_raise].
  - destruct (SERVER_PACKETS !! t) as [C|]; [|apply keeps_raise].
    unfold make_registered. destruct (cls_make C data); [|apply keeps_ret].
    destruct (isinstance _ _); apply keeps_raise.
Qed.

Lemma keeps_wait_packet Expect Error : keeps_closed (wait_packet Expect Error).
Proof.
  unfold wait_packet.
  apply keeps_bind; [apply keeps_read_loop|intros head].
  apply keeps_bind; [apply keeps_lift|intros hdr].
  apply keeps_bind; [apply keeps_read_loop|intros data].
  apply keeps_bind; [apply keeps_make_packet|intros packet].
  apply keeps_bind; [apply keeps_print|intros; apply keeps_ret].
Qed.

Lemma keeps_send_packet packet Expect Error : keeps_closed (send_packet packet Expect Error).
Proof.
  unfold send_packet.
  apply keeps_bind; [apply keeps_write_loop|intros _].
  apply keeps_bind; [apply keeps_print|intros _].
  destruct Expect; [|apply keeps_ret].
  apply keeps_bind; [apply keeps_wait_packet|intros; apply keeps_ret].
Qed.

Lemma keeps_except_unexpected {A} (m : M A) :
  keeps_closed m -> keeps_closed (except_unexpected_message m).
Proof.
  intros Hm w r w' H. unfold except_unexpected_message in H.
  destruct (m w) as [[[e|msg|t [p|d]]|v] w1] eqn:E;
    injection H as _ <-; exact (Hm _ _ _ E).
Qed.

Lemma keeps_set_character c : keeps_closed (fun w => (inr tt, set_character c w)).
Proof. intros w r w' H. injection H as _ <-. reflexivity. Qed.

Lemma keeps_login character_id : keeps_closed (login character_id).
Proof.
  intros w r w' H. unfold login in H.
  destruct (List.find _ (characters w)) as [c|].
  - revert H. apply keeps_bind.
    + apply keeps_except_unexpected, keeps_send_packet.
    + intros _. apply keeps_set_character.
  - injection H as _ <-. reflexivity.
Qed.

Lemma keeps_ping : keeps_closed ping.
Proof. apply keeps_bind; [apply keeps_send_packet|intros; apply keeps_ret]. Qed.

Lemma keeps_on_event events io_event :
  handlers_keep_closed events -> keeps_closed (on_event events io_event).
Proof.
  intros Hev. unfold on_event.
  destruct (io_event =? POLLIN).
  - intros w r w' H.
    destruct (wait_packet None None w) as [[[e|msg|t arg]|packet] w1] eqn:E;
      pose proof (keeps_wait_packet _ _ _ _ _ E) as H1.
    + injection H as _ <-. exact H1.
    + injection H as _ <-. exact H1.
    + rewrite <- H1. revert H.
      apply keeps_bind; [apply keeps_print|intros; apply keeps_ret].
    + destruct (events !! packet_type packet) as [callback|] eqn:El.
      * rewrite <- H1. revert H.
        apply keeps_bind; [exact (Hev _ _ _ El)|intros; apply keeps_ret].
      * injection H as _ <-. exact H1.
  - destruct (io_event =? POLLHUP);
      [apply keeps_bind; [apply keeps_print|intros; apply keeps_ret]|].
    destruct (io_event =? POLLERR);
      [apply keeps_bind; [apply keeps_print|intros; apply keeps_ret]|].
    apply keeps_ret.
Qed.

Lemma keeps_for_events events io_events :
  handlers_keep_closed events -> keeps_closed (for_events events io_events).
Proof.
  intros Hev. induction io_events as [|[fd ev] rest IH]; cbn [for_events]; [apply keeps_ret|].
  apply keeps_bind; [apply keeps_on_event; exact Hev|].
  intros [|]; [exact IH|apply keeps_ret].
Qed.

Lemma keeps_on_poll events io_events :
  handlers_keep_closed events -> keeps_closed (on_poll events io_events).
Proof.
  intros Hev. unfold on_poll.
  apply keeps_bind; [apply keeps_for_events; exact Hev|].
  intros [|]; [|apply keeps_ret].
  destruct io_events; [|apply keeps_ret].
  apply keeps_bind; [apply keeps_ping|intros; apply keeps_ret].
Qed.

Lemma keeps_start events polls :
  handlers_keep_closed events -> keeps_closed (start events polls).
Proof.
  intros Hev. induction polls as [|[io_events|] rest IH]; cbn [start];
    [apply keeps_ret| |apply keeps_ret].
  intros w r w' H.
  destruct (on_poll events io_events w) as [[e|[|]] w1] eqn:E;
    pose proof (keeps_on_poll _ _ Hev _ _ _ E) as H1.
  - destruct e as [[]| |]; injection H as _ <-; exact H1.
  - rewrite (IH _ _ _ H). exact H1.
  - injection H as _ <-. exact H1.
Qed.

Lemma keeps_handshake host dhx nonce username password :
  keeps_closed (handshake host dhx nonce username password).
Proof.
  intros w r w' H. unfold handshake in H.
  destruct (bind (wait_packet (Some AOSP_SEED) None) _ w) as [[e|login_key] w1] eqn:E.
  - assert (H1 : sock_closed (socket w1) = sock_closed (socket w)).
    { revert E. apply keeps_bind; [apply keeps_wait_packet|intros; apply keeps_lift]. }
    destruct e as [e|msg|t arg]; injection H as _ <-; exact H1.
  - assert (H1 : sock_closed (socket w1) = sock_closed (socket w)).
    { revert E. apply keeps_bind; [apply keeps_wait_packet|intros; apply keeps_lift]. }
    rewrite <- H1.
    change (sock_closed (socket w1)) with (sock_closed (socket (set_character None w1))).
    revert H. apply keeps_bind.
    + apply keeps_except_unexpected, keeps_send_packet.
    + intros [packet|] w2 r2 w2' H2; injection H2 as _ <-; reflexivity.
Qed.

(** Claim C9, as amended.  No method of the session closes the socket:
    after [__init__], whether the handshake succeeded or failed, after
    [login] and after [start], however it ended, the socket is closed only
    if it was before (for [start], provided the handlers do not close
    it). *)
Theorem session_never_closes_socket :
  (forall host dhx nonce username password s r w,
     __init__ host dhx nonce username password (inr s) = (r, Some w) ->
     sock_closed (socket w) = sock_closed s) /\
  (forall character_id w r w',
     login character_id w = (r, w') ->
     sock_closed (socket w') = sock_closed (socket w)) /\
  (forall events polls w r w',
     handlers_keep_closed events ->
     start events polls w = (r, w') ->
     sock_closed (socket w') = sock_closed (socket w)).
Proof.
  split; [|split].
  - intros host dhx nonce username password s r w H. cbn [__init__] in H.
    destruct (handshake host dhx nonce username password (new_chat s)) as [r1 w1] eqn:E.
    injection H as _ <-. exact (keeps_handshake _ _ _ _ _ _ _ _ E).
  - intros character_id w r w'. apply keeps_login.
  - intros events polls w r w' Hev. apply keeps_start. exact Hev.
Qed.
End Closing.

(** Claim C9 fails as stated: when the server answers the authentication
    with an error packet, [__init__] raises and the socket is still open. *)
Lemma handshake_failure_leaves_socket_open :
let r := __init__ (codec := example_codec) LittleEndian 1 0 "user" "pass"
           (inr (ex_socket [RecvData seed_then_error])) in
fst r = inl (ChatError "Wrong password.") /\
option_map (fun w => sock_closed (socket w)) (snd r) = Some false.
Proof. cbv zeta. split; vm_compute; reflexivity. Qed.

(** The loop of [start] ended by a hang-up leaves the socket open too. *)
Lemma hangup_leaves_socket_open :
let r := start (codec := example_codec) ∅ [PollReady [(3, POLLHUP)]]
           (new_chat (ex_socket [])) in
fst r = inr tt /\ sock_closed (socket (snd r)) = false.
Proof. cbv zeta. split; vm_compute; reflexivity. Qed.

(* ================================================================= *)
(** * Failures of the transport *)

Section Failures.
Context `{codec : Codec}.

(** [socket_except] always raises, so what follows it is not run. *)
Lemma socket_except_bind {A B} e (k : A -> M B) (w : chat) :
  bind (socket_except (A:=A) e) k w = socket_except (A:=B) e w.
Proof.
  unfold socket_except.
  destruct (isinstance e class_socket_error).
  - unfold bind. destruct (lift (fmt_socket_error (exn_args e)) w) as [[e'|msg] w1]; reflexivity.
  - destruct (isinstance e class_socket_timeout); reflexivity.
Qed.

Lemma socket_except_raises {A} e (w : chat) r w' :
  isinstance e class_socket_error = true ->
  socket_except (A:=A) e w = (r, w') ->
  w' = w /\ ((exists msg, r = inl (ChatError msg)) \/ r = inl (PyExn TypeError)).
Proof.
  intros Hi H. unfold socket_except in H. rewrite Hi in H. unfold bind in H.
  destruct (fmt_socket_error (exn_args e)) as [e'|msg] eqn:E; cbn in H.
  - injection H as <- <-. split; [reflexivity|]. right.
    unfold fmt_socket_error in E.
    repeat match type of E with
           | context [match ?x with _ => _ end] => destruct x; try discriminate E
           end; injection E as <-; reflexivity.
  - injection H as <- <-. split; [reflexivity|]. left. eauto.
Qed.

Lemma sock_recv_raises n s e s' :
  sock_recv n s = (inl e, s') -> isinstance e class_socket_error = true.
Proof.
  unfold sock_recv. destruct (sock_closed s).
  - intros H. injection H as <- _. reflexivity.
  - destruct (sock_rx s) as [|[[|b c]|args|] rest]; intros H; try discriminate H;
      injection H as <- _; reflexivity.
Qed.

Lemma sock_send_raises data s e s' :
  sock_send data s = (inl e, s') -> isinstance e class_socket_error = true.
Proof.
  unfold sock_send. destruct (sock_closed s).
  - intros H. injection H as <- _. reflexivity.
  - destruct (sock_tx s) as [|[room|args|] rest]; intros H; try discriminate H;
      injection H as <- _; reflexivity.
Qed.

Lemma try_recv_raises n (w : chat) e w' :
  try_recv n w = (inl e, w') ->
  (exists msg, e = ChatError msg) \/ e = PyExn TypeError.
Proof.
  unfold try_recv. destruct (sock_recv n (socket w)) as [[e0|c] s] eqn:E; [|discriminate].
  intros H. destruct (socket_except_raises _ _ _ _ (sock_recv_raises _ _ _ _ E) H)
    as [_ [[msg Hm]|Hm]]; injection Hm as ->; eauto.
Qed.

Lemma try_send_raises data (w : chat) e w' :
  try_send data w = (inl e, w') ->
  (exists msg, e = ChatError msg) \/ e = PyExn TypeError.
Proof.
  unfold try_send. destruct (sock_send data (socket w)) as [[e0|c] s] eqn:E; [|discriminate].
  intros H. destruct (socket_except_raises _ _ _ _ (sock_send_raises _ _ _ _ E) H)
    as [_ [[msg Hm]|Hm]]; injection Hm as ->; eauto.
Qed.

Lemma read_loop_raises fuel :
  forall bytes data (w : chat) e w',
    read_loop fuel bytes data w = (inl e, w') ->
    (exists msg, e = ChatError msg) \/ e = PyExn TypeError.
Proof.
  induction fuel as [|fuel IH]; intros bytes data w e w' H; cbn [read_loop] in H;
    [discriminate H|].
  destruct (0 <? bytes); [|discriminate H].
  unfold bind in H. destruct (try_recv bytes w) as [[e0|chunk] w1] eqn:E.
  - injection H as <- _. exact (try_recv_raises _ _ _ _ E).
  - destruct chunk as [|b chunk]; [injection H as <- _; eauto|].
    exact (IH _ _ _ _ _ H).
Qed.

Lemma write_loop_raises fuel :
  forall bytes data (w : chat) e w',
    write_loop fuel bytes data w = (inl e, w') ->
    (exists msg, e = ChatError msg) \/ e = PyExn TypeError.
Proof.
  induction fuel as [|fuel IH]; intros bytes data w e w' H; cbn [write_loop] in H;
    [discriminate H|].
  destruct (0 <? bytes); [|discriminate H].
  unfold bind in H. destruct (try_send data w) as [[e0|sent] w1] eqn:E.
  - injection H as <- _. exact (try_send_raises _ _ _ _ E).
  - destruct (sent =? 0); [injection H as <- _; eauto|].
    exact (IH _ _ _ _ _ H).
Qed.

(** No socket exception leaves the transport: whatever [recv] and [send]
    raise, [__read_socket] and [__write_socket] raise [ChatError], or
    [TypeError] when the arguments of the socket exception do not fit the
    format of the message. *)
Theorem transport_wraps_socket_errors :
  (forall n (w : chat) e w',
     __read_socket n w = (inl e, w') ->
     (exists msg, e = ChatError msg) \/ e = PyExn TypeError) /\
  (forall data (w : chat) e w',
     __write_socket data w = (inl e, w') ->
     (exists msg, e = ChatError msg) \/ e = PyExn TypeError).
Proof.
  split.
  - intros n w e w'. apply read_loop_raises.
  - intros data w e w'. apply write_loop_raises.
Qed.


Lemma bind_socket_except {A B} (m : M A) (k : A -> M B) e (w w2 : chat) :
  m w = socket_except (A:=A) e w2 -> bind m k w = socket_except (A:=B) e w2.
Proof.
  intros H. unfold bind. rewrite H.
  exact (socket_except_bind e k w2).
Qed.

Lemma received_received rx rx' (w : chat) :
  received rx (received rx' w) = received rx w.
Proof. reflexivity. Qed.

Lemma read_loop_prefix chunks :
  Forall nonempty chunks ->
  forall fuel bytes data tail (w : chat),
    sock_closed (socket w) = false ->
    sock_rx (socket w) = map RecvData chunks ++ tail ->
    Z.of_nat (length (concat chunks)) < bytes ->
    (Z.to_nat bytes <= fuel)%nat ->
    read_loop fuel bytes data w
    = read_loop (fuel - length chunks) (bytes - Z.of_nat (length (concat chunks)))
        (data ++ concat chunks) (received tail w).
Proof.
  induction 1 as [|c chunks Hc Hcs IH]; intros fuel bytes data tail w Hopen Hrx Hb Hfuel.
  - cbn [concat length map app] in *. rewrite Nat.sub_0_r, Z.sub_0_r, app_nil_r.
    unfold received. rewrite set_rx_same by exact Hrx. reflexivity.
  - cbn [concat map app] in *. rewrite length_app in Hb.
    assert (Hlc : (0 < length c)%nat).
    { destruct c; [contradiction|cbn [length]; lia]. }
    destruct fuel as [|fuel]; [lia|]. cbn [read_loop].
    destruct (Z.ltb_spec 0 bytes) as [_|]; [|lia].
    rewrite (bind_eq _ _ _ _ _ (try_recv_chunk bytes c _ w Hopen Hrx Hc)).
    rewrite (take_ge c) by lia. rewrite (drop_ge c) by lia.
    destruct c as [|b c]; [contradiction|].
    set (w1 := set_socket _ w).
    rewrite (IH fuel _ _ tail w1); [|exact Hopen|reflexivity|lia|lia].
    cbn [length Nat.sub]. f_equal; [rewrite length_app; cbn [length]; lia|].
    rewrite <- app_assoc. reflexivity.
Qed.

Lemma try_recv_error bytes args rest (w : chat) :
  sock_closed (socket w) = false ->
  sock_rx (socket w) = RecvError args :: rest ->
  try_recv bytes w = socket_except (SocketError args) (received rest w).
Proof.
  intros Hc Hrx. unfold try_recv, sock_recv. rewrite Hc, Hrx. reflexivity.
Qed.

(** A socket error raised by [recv], with the usual pair of arguments,
    leaves [__read_socket] as [ChatError] with the number and the text of
    the error; the bytes read before it are dropped with the call. *)
Theorem read_socket_error_wrapped n chunks tail (w : chat) errno strerror :
  sock_closed (socket w) = false ->
  sock_rx (socket w)
  = map RecvData chunks ++ RecvError [inl errno; inr strerror] :: tail ->
  Forall nonempty chunks ->
  Z.of_nat (length (concat chunks)) < n ->
  __read_socket n w
  = (inl (ChatError ("Socket error " ++ str errno ++ ": " ++ strerror)),
     received tail w).
Proof.
  intros Ho Hrx Hne Hn. unfold __read_socket.
  rewrite (read_loop_prefix chunks Hne _ _ _ _ w Ho Hrx Hn (Nat.le_refl _)).
  assert (Hfuel : (length chunks < Z.to_nat n)%nat).
  { assert (length chunks <= length (concat chunks))%nat; [|lia].
    clear -Hne. induction Hne as [|c cs Hc _ IH]; [reflexivity|].
    cbn [concat length]. rewrite length_app.
    destruct c; [contradiction|cbn [length]; lia]. }
  destruct (Z.to_nat n - length chunks)%nat as [|fuel] eqn:Ef; [lia|].
  cbn [read_loop]. destruct (Z.ltb_spec 0 (n - Z.of_nat (length (concat chunks)))); [|lia].
  erewrite bind_socket_except; [|apply try_recv_error; [exact Ho|reflexivity]].
  reflexivity.
Qed.

Lemma transmitted_nil (w : chat) :
  transmitted (sock_tx (socket w)) [] w = w.
Proof.
  destruct w as [[rx tx sent closed] ch chs out]. unfold transmitted. cbn.
  rewrite app_nil_r. reflexivity.
Qed.

Lemma length_le_sum_list pre :
  Forall (fun k => (0 < k)%nat) pre -> (length pre <= sum_list pre)%nat.
Proof. induction 1 as [|k pre Hk _ IH]; simpl; lia. Qed.

Lemma write_loop_rooms pre :
  Forall (fun k => (0 < k)%nat) pre ->
  forall fuel data rest (w : chat),
    sock_closed (socket w) = false ->
    sock_tx (socket w) = map SendRoom pre ++ rest ->
    (sum_list pre < length data)%nat ->
    (length pre <= fuel)%nat ->
    write_loop fuel (Z.of_nat (length data)) data w
    = write_loop (fuel - length pre) (Z.of_nat (length (drop (sum_list pre) data)))
        (drop (sum_list pre) data) (transmitted rest (take (sum_list pre) data) w).
Proof.
  induction 1 as [|k pre Hk Hpre IH]; intros fuel data rest w Hopen Htx Hsum Hfuel.
  - cbn [sum_list_with length map app drop take] in *. rewrite Nat.sub_0_r.
    rewrite <- Htx, transmitted_nil. reflexivity.
  - cbn [sum_list_with length map app] in *. unfold id in *.
    destruct fuel as [|fuel]; [lia|].
    cbn [write_loop]. destruct (Z.ltb_spec 0 (Z.of_nat (length data))) as [_|]; [|lia].
    rewrite (bind_eq _ _ _ _ _ (try_send_room data k _ w Hopen Htx)).
    rewrite Nat.min_l by lia.
    destruct (Z.eqb_spec (Z.of_nat k) 0) as [|_]; [lia|].
    rewrite Nat2Z.id.
    replace (Z.of_nat (length data) - Z.of_nat k) with (Z.of_nat (length (drop k data)))
      by (rewrite length_drop; lia).
    set (w1 := set_socket _ w).
    rewrite (IH fuel (drop k data) rest w1);
      [|reflexivity|reflexivity|rewrite length_drop; lia|lia].
    cbn [Nat.sub]. rewrite drop_drop. f_equal.
    unfold transmitted, w1, set_socket.
    cbn [socket sock_rx sock_sent sock_closed character characters stdout].
    rewrite Hopen, <- app_assoc, take_take_drop. reflexivity.
Qed.

Lemma try_send_error data args rest (w : chat) :
  sock_closed (socket w) = false ->
  sock_tx (socket w) = SendError args :: rest ->
  try_send data w = socket_except (SocketError args) (transmitted rest [] w).
Proof.
  intros Hc Htx. unfold try_send, sock_send, transmitted. rewrite Hc, Htx.
  rewrite app_nil_r. reflexivity.
Qed.

Lemma transmitted_transmitted tx tx' d d' (w : chat) :
  transmitted tx d (transmitted tx' d' w) = transmitted tx (d' ++ d) w.
Proof. unfold transmitted, set_socket. cbn. rewrite app_assoc. reflexivity. Qed.

(** When [send] stops making progress after part of the data went out,
    [__write_socket] raises and the bytes sent before stay sent: "Connection
    broken." when [send] returns 0, the number and text of the error when
    it raises a socket error. *)
Theorem write_socket_partial_failure data pre rest (w : chat) :
  sock_closed (socket w) = false ->
  Forall (fun k => (0 < k)%nat) pre ->
  (sum_list pre < length data)%nat ->
  (sock_tx (socket w) = map SendRoom pre ++ SendRoom 0 :: rest ->
     __write_socket data w
     = (inl (ChatError "Connection broken."),
        transmitted rest (take (sum_list pre) data) w)) /\
  (forall errno strerror,
     sock_tx (socket w)
     = map SendRoom pre ++ SendError [inl errno; inr strerror] :: rest ->
     __write_socket data w
     = (inl (ChatError ("Socket error " ++ str errno ++ ": " ++ strerror)),
        transmitted rest (take (sum_list pre) data) w)).
Proof.
  intros Ho Hpre Hsum.
  pose proof (length_le_sum_list pre Hpre) as Hl.
  assert (Hfuel : exists fuel, (length data - length pre)%nat = S fuel).
  { destruct (length data - length pre)%nat eqn:E; [lia|eauto]. }
  destruct Hfuel as [fuel Ef].
  assert (Hpos : 0 < Z.of_nat (length (drop (sum_list pre) data))).
  { rewrite length_drop. lia. }
  split.
  - intros Htx. unfold __write_socket.
    rewrite (write_loop_rooms pre Hpre (length data) data _ w Ho Htx Hsum) by lia.
    rewrite Ef. cbn [write_loop].
    destruct (Z.ltb_spec 0 (Z.of_nat (length (drop (sum_list pre) data)))); [|lia].
    set (w1 := transmitted _ _ w).
    rewrite (bind_eq _ _ _ _ _ (try_send_room _ 0 rest w1 Ho eq_refl)).
    cbn [Nat.min Z.of_nat Z.eqb take]. unfold w1, transmitted, set_socket. cbn.
    rewrite Ho, !app_nil_r. reflexivity.
  - intros errno strerror Htx. unfold __write_socket.
    rewrite (write_loop_rooms pre Hpre (length data) data _ w Ho Htx Hsum) by lia.
    rewrite Ef. cbn [write_loop].
    destruct (Z.ltb_spec 0 (Z.of_nat (length (drop (sum_list pre) data)))); [|lia].
    set (w1 := transmitted _ _ w).
    erewrite bind_socket_except; [|apply try_send_error; [exact Ho|reflexivity]].
    unfold w1. rewrite transmitted_transmitted, app_nil_r. reflexivity.
Qed.

(** However [send] cuts the data, as long as every call takes at least one
    byte, [__write_socket] hands all of it to the peer, in order and once,
    and touches nothing else of the object. *)
Theorem write_socket_complete data (w : chat) :
  sock_closed (socket w) = false ->
  good_tx (sock_tx (socket w)) ->
  exists tx',
    __write_socket data w = (inr tt, transmitted tx' data w) /\ good_tx tx'.
Proof.
  intros Ho Htx. destruct (write_socket_all data w Ho Htx) as (tx' & E & Hg).
  exists tx'. split; [|exact Hg]. rewrite E. unfold transmitted. rewrite Ho. reflexivity.
Qed.


Lemma try_send_timeout data rest (w : chat) :
  sock_closed (socket w) = false ->
  sock_tx (socket w) = SendTimeout :: rest ->
  try_send data w = socket_except SocketTimeout (transmitted rest [] w).
Proof.
  intros Hc Htx. unfold try_send, sock_send, transmitted. rewrite Hc, Htx.
  rewrite app_nil_r. reflexivity.
Qed.

Lemma write_loop_never_timed_out fuel :
  forall bytes data (w : chat) r w',
    write_loop fuel bytes data w = (r, w') ->
    r <> inl (ChatError "Connection timed out.").
Proof.
  induction fuel as [|fuel IH]; intros bytes data w r w' H; cbn [write_loop] in H.
  - injection H as <- _. discriminate.
  - destruct (0 <? bytes); [|injection H as <- _; discriminate].
    unfold bind in H. destruct (try_send data w) as [[e|sent] w1] eqn:E.
    + injection H as <- _. unfold try_send in E.
      destruct (sock_send data (socket w)) as [[e0|c] s]; [|discriminate E].
      intros Heq. injection Heq as ->.
      exact (socket_except_never_timed_out _ _ _ _ E eq_refl).
    + destruct (sent =? 0); [injection H as <- _; discriminate|].
      exact (IH _ _ _ _ _ H).
Qed.

(** The handler for [socket.timeout] around [send] is never reached
    either: a [send] that times out, after part of the data went out or
    not, makes [__write_socket] raise [TypeError], and no call of
    [__write_socket] raises "Connection timed out.". *)
Theorem write_socket_timeout :
  (forall data pre rest (w : chat),
     sock_closed (socket w) = false ->
     Forall (fun k => (0 < k)%nat) pre ->
     (sum_list pre < length data)%nat ->
     sock_tx (socket w) = map SendRoom pre ++ SendTimeout :: rest ->
     __write_socket data w
     = (inl (PyExn TypeError), transmitted rest (take (sum_list pre) data) w)) /\
  (forall data (w : chat) r w',
     __write_socket data w = (r, w') ->
     r <> inl (ChatError "Connection timed out.")).
Proof.
  split.
  - intros data pre rest w Ho Hpre Hsum Htx.
    pose proof (length_le_sum_list pre Hpre) as Hl.
    assert (Hfuel : exists fuel, (length data - length pre)%nat = S fuel).
    { destruct (length data - length pre)%nat eqn:E; [lia|eauto]. }
    destruct Hfuel as [fuel Ef].
    assert (Hpos : 0 < Z.of_nat (length (drop (sum_list pre) data))).
    { rewrite length_drop. lia. }
    unfold __write_socket.
    rewrite (write_loop_rooms pre Hpre (length data) data _ w Ho Htx Hsum) by lia.
    rewrite Ef. cbn [write_loop].
    destruct (Z.ltb_spec 0 (Z.of_nat (length (drop (sum_list pre) data)))); [|lia].
    set (w1 := transmitted _ _ w).
    erewrite bind_socket_except; [|apply try_send_timeout; [exact Ho|reflexivity]].
    unfold w1. rewrite transmitted_transmitted, app_nil_r. reflexivity.
  - intros data w r w'. apply write_loop_never_timed_out.
Qed.

End Failures.

(* ================================================================= *)
(** * Exchanges with the server and the event loop *)

Section Replies.
Context `{codec : Codec}.

(** [send_packet] writes the packed packet, prints it, and then either
    returns [None] without reading, when no reply is expected, or waits for
    one packet and returns it. *)
Theorem send_packet_exchange packet (w : chat) :
  sock_closed (socket w) = false ->
  good_tx (sock_tx (socket w)) ->
  exists tx',
    let w1 := logged (SentPacket packet) (transmitted tx' (pack packet) w) in
    (forall Error, send_packet packet None Error w = (inr None, w1)) /\
    (forall expect Error chunks tail payload more reply,
       sock_rx (socket w) = map RecvData chunks ++ tail ->
       Forall nonempty chunks ->
       concat chunks = frame (cls_type expect) payload ++ more ->
       0 <= cls_type expect < 65536 -> Z.of_nat (length payload) < 65536 ->
       cls_make expect payload = Return reply ->
       exists rest,
         concat rest = more /\
         send_packet packet (Some expect) Error w
         = (inr (Some reply),
            logged (GotPacket reply) (received (map RecvData rest ++ tail) w1))).
Proof.
  intros Ho Htx.
  destruct (write_socket_all (pack packet) w Ho Htx) as (tx' & Ew & _).
  exists tx'. cbv zeta.
  assert (Ew' : __write_socket (pack packet) w = (inr tt, transmitted tx' (pack packet) w)).
  { rewrite Ew. unfold transmitted. rewrite Ho. reflexivity. }
  split.
  - intros Error. unfold send_packet. rewrite (bind_eq _ _ _ _ _ Ew'). reflexivity.
  - intros expect Error chunks tail payload more reply Hrx Hne Hcat Ht Hp Hmake.
    set (w1 := logged (SentPacket packet) (transmitted tx' (pack packet) w)).
    destruct (wait_packet_expected expect Error chunks tail w1 payload more reply
                Ho Hrx Hne Hcat Ht Hp Hmake) as (rest & E & Hc & _).
    exists rest. split; [exact Hc|].
    unfold send_packet. rewrite (bind_eq _ _ _ _ _ Ew').
    unfold bind at 1. cbn [print]. fold w1.
    rewrite (bind_eq _ _ _ _ _ E). reflexivity.
Qed.

(** The server refuses the login: the login packet went out, [login]
    raises [ChatError] with the message of the error packet, or
    "Unexpected error." for a reply of any other type, and the active
    character is the one there was. *)
Theorem login_rejected character_id (w : chat) chunks tail t payload more :
  Exists (fun c => char_id c = character_id) (characters w) ->
  sock_closed (socket w) = false ->
  good_tx (sock_tx (socket w)) ->
  sock_rx (socket w) = map RecvData chunks ++ tail ->
  Forall nonempty chunks ->
  concat chunks = frame t payload ++ more ->
  0 <= t < 65536 -> Z.of_nat (length payload) < 65536 ->
  t <> cls_type AOSP_LOGIN_OK ->
  exists rest tx',
    concat rest = more /\
    let w' := received (map RecvData rest ++ tail)
                (logged (SentPacket (AOCP_LOGIN character_id))
                   (transmitted tx' (pack (AOCP_LOGIN character_id)) w)) in
    character w' = character w /\
    sock_sent (socket w') = sock_sent (socket w) ++ pack (AOCP_LOGIN character_id) /\
    (forall packet,
       t = cls_type AOSP_AUTH_ERROR ->
       cls_make AOSP_AUTH_ERROR payload = Return packet ->
       login character_id w = (inl (ChatError (packet_message packet)), w')) /\
    (t <> cls_type AOSP_AUTH_ERROR ->
       login character_id w = (inl (ChatError "Unexpected error."), w')).
Proof.
  intros Hex Ho Htx Hrx Hne Hcat Ht Hp Hneq.
  destruct (find_present _ _ Hex) as (c & Efind & _ & _).
  destruct (send_packet_written (AOCP_LOGIN character_id)
              (Some AOSP_LOGIN_OK) (Some AOSP_AUTH_ERROR) w Ho Htx) as (tx' & _ & Es).
  set (w0 := logged _ (transmitted tx' _ w)) in Es.
  destruct (wait_packet_frame (Some AOSP_LOGIN_OK) (Some AOSP_AUTH_ERROR)
              chunks tail w0 t payload more Ho Hrx Hne Hcat Ht Hp)
    as (rest & Ew & Hc & _).
  exists rest, tx'. split; [exact Hc|]. cbv zeta.
  split; [reflexivity|]. split; [reflexivity|].
  unfold make_packet in Ew.
  destruct (Z.eqb_spec t (cls_type AOSP_LOGIN_OK)) as [|_]; [contradiction|].
  cbn [negb] in Ew. split.
  - intros packet Et Hmake. rewrite Et, Z.eqb_refl in Ew.
    rewrite Hmake in Ew. cbv [bind lift Return ret raise] in Ew.
    unfold login. rewrite Efind. unfold bind, except_unexpected_message.
    rewrite Es. unfold bind. rewrite Ew. reflexivity.
  - intros Hneq'.
    destruct (Z.eqb_spec t (cls_type AOSP_AUTH_ERROR)) as [|_]; [contradiction|].
    unfold login. rewrite Efind. unfold bind, except_unexpected_message.
    rewrite Es. unfold bind. rewrite Ew. reflexivity.
Qed.

Lemma wait_packet_registered chunks tail (w : chat) t p more C packet :
  sock_closed (socket w) = false ->
  sock_rx (socket w) = map RecvData chunks ++ tail ->
  Forall nonempty chunks ->
  concat chunks = frame t p ++ more ->
  0 <= t < 65536 -> Z.of_nat (length p) < 65536 ->
  SERVER_PACKETS !! t = Some C ->
  cls_make C p = Return packet ->
  exists rest,
    wait_packet None None w
    = (inr packet, logged (GotPacket packet) (received (map RecvData rest ++ tail) w)) /\
    concat rest = more /\ Forall nonempty rest.
Proof.
  intros Ho Hrx Hne Hcat Ht Hp Hreg Hmake.
  destruct (wait_packet_frame None None chunks tail w _ p more
              Ho Hrx Hne Hcat Ht Hp) as (rest & E & Hc & Hn).
  exists rest. split; [|split; assumption]. rewrite E.
  unfold make_packet. rewrite Hreg. unfold make_registered. rewrite Hmake.
  reflexivity.
Qed.

(** A packet of a registered type that arrives during [start] is decoded
    by its class, printed, and handed once to the callback registered
    under the [type] of the decoded packet; without a callback it is
    dropped.  The loop goes on after the callback returns, ends quietly
    when the callback raises [KeyboardInterrupt], and lets any other
    exception of the callback out. *)
Theorem start_dispatches (events : gmap Z handler) (polls : list poll_event)
    (chunks : list (list byte)) (tail : list recv_event) (w : chat)
    (t : Z) (p more : list byte) (C : PacketClass Packet) (packet : Packet) (fd : Z) :
  sock_closed (socket w) = false ->
  sock_rx (socket w) = map RecvData chunks ++ tail ->
  Forall nonempty chunks ->
  concat chunks = frame t p ++ more ->
  0 <= t < 65536 -> Z.of_nat (length p) < 65536 ->
  SERVER_PACKETS !! t = Some C ->
  cls_make C p = Return packet ->
  exists rest,
    concat rest = more /\
    let w1 := logged (GotPacket packet) (received (map RecvData rest ++ tail) w) in
    (events !! packet_type packet = None ->
       start events (PollReady [(fd, POLLIN)] :: polls) w = start events polls w1) /\
    (forall callback : handler,
       events !! packet_type packet = Some callback ->
       start events (PollReady [(fd, POLLIN)] :: polls) w
       = match callback packet w1 with
         | (inr _, w2) => start events polls w2
         | (inl (PyExn KeyboardInterrupt), w2) => (inr tt, w2)
         | (inl e, w2) => (inl e, w2)
         end).
Proof.
  intros Ho Hrx Hne Hcat Ht Hp Hreg Hmake.
  destruct (wait_packet_registered chunks tail w t p more C packet
              Ho Hrx Hne Hcat Ht Hp Hreg Hmake) as (rest & E & Hc & _).
  exists rest. split; [exact Hc|]. cbv zeta. split.
  - intros Hnone. cbn [start]. unfold on_poll, bind. cbn [for_events].
    unfold bind, on_event. change (POLLIN =? POLLIN) with true. cbv beta iota.
    rewrite E. cbv beta iota. unfold handler in *. rewrite Hnone. reflexivity.
  - intros callback Hsome. cbn [start]. unfold on_poll, bind. cbn [for_events].
    unfold bind, on_event. change (POLLIN =? POLLIN) with true. cbv beta iota.
    rewrite E. cbv beta iota. unfold handler in *. rewrite Hsome. cbv beta iota. unfold bind.
    destruct (callback packet _) as [[[[]| |]|[]] w2]; reflexivity.
Qed.

Lemma for_events_app (events : gmap Z handler) a b (w : chat) :
  for_events events (a ++ b) w
  = match for_events events a w with
    | (inr Next, w1) => for_events events b w1
    | r => r
    end.
Proof.
  revert w. induction a as [|[fd ev] a IH]; intros w; [reflexivity|].
  cbn [app for_events]. unfold bind.
  destruct (on_event events ev w) as [[e|[|]] w1]; [reflexivity|apply IH|reflexivity].
Qed.

(** A hang-up or an error condition reported by [poll] ends [start]
    normally once the events reported before it have been handled: it
    prints "hup" or "err" and returns, without pinging or looking at the
    events after it. *)
Theorem start_hangup (events : gmap Z handler) (before later : list (Z * Z)) (fd : Z)
    (polls : list poll_event) (w w1 : chat) :
  for_events events before w = (inr Next, w1) ->
  start events (PollReady (before ++ (fd, POLLHUP) :: later) :: polls) w
  = (inr tt, logged HupLine w1) /\
  start events (PollReady (before ++ (fd, POLLERR) :: later) :: polls) w
  = (inr tt, logged ErrLine w1).
Proof.
  intros H. split; cbn [start]; unfold on_poll, bind;
    rewrite for_events_app, H; reflexivity.
Qed.

Lemma for_events_ignored (events : gmap Z handler) io_events (w : chat) :
  Forall (fun ev => snd ev <> POLLIN /\ snd ev <> POLLHUP /\ snd ev <> POLLERR) io_events ->
  for_events events io_events w = (inr Next, w).
Proof.
  induction 1 as [|[fd ev] rest (H1 & H2 & H3) _ IH]; [reflexivity|].
  cbn [for_events snd] in *. unfold bind, on_event.
  destruct (Z.eqb_spec ev POLLIN); [contradiction|].
  destruct (Z.eqb_spec ev POLLHUP); [contradiction|].
  destruct (Z.eqb_spec ev POLLERR); [contradiction|].
  cbn [ret]. exact IH.
Qed.

(** The event masks are compared for equality: an answer of [poll] whose
    masks are all other than exactly POLLIN, POLLHUP or POLLERR (a mask
    with two flags set, say) is passed over -- nothing is read, no ping is
    sent -- and the loop polls again. *)
Theorem start_ignores_other_masks (events : gmap Z handler)
    (io_events : list (Z * Z)) (polls : list poll_event) (w : chat) :
  io_events <> [] ->
  Forall (fun ev => snd ev <> POLLIN /\ snd ev <> POLLHUP /\ snd ev <> POLLERR) io_events ->
  start events (PollReady io_events :: polls) w = start events polls w.
Proof.
  intros Hne Hall. cbn [start]. unfold on_poll, bind.
  rewrite (for_events_ignored events io_events w Hall).
  destruct io_events; [contradiction|reflexivity].
Qed.


(** A frame cut short by the end of the stream -- in its header or in its
    payload -- makes [wait_packet] raise "Connection broken.", whatever is
    expected, and that error leaves [start]. *)
Theorem wait_packet_truncated Expect Error chunks tail (w : chat) t p k :
  sock_closed (socket w) = false ->
  sock_rx (socket w) = map RecvData chunks ++ RecvData [] :: tail ->
  Forall nonempty chunks ->
  concat chunks = take k (frame t p) ->
  (k < length (frame t p))%nat ->
  0 <= t < 65536 -> Z.of_nat (length p) < 65536 ->
  wait_packet Expect Error w
  = (inl (ChatError "Connection broken."), received (RecvData [] :: tail) w) /\
  forall (events : gmap Z handler) fd polls,
    start events (PollReady [(fd, POLLIN)] :: polls) w
    = (inl (ChatError "Connection broken."), received (RecvData [] :: tail) w).
Proof.
  intros Ho Hrx Hne Hcat Hk Ht Hp.
  assert (Hframe : length (frame t p) = (4 + length p)%nat).
  { unfold frame. rewrite !length_app, !length_be_bytes. lia. }
  assert (Hlen : length (concat chunks) = k).
  { rewrite Hcat, length_take. lia. }
  assert (Ew : forall Expect Error,
             wait_packet Expect Error w
             = (inl (ChatError "Connection broken."), received (RecvData [] :: tail) w)).
  { clear Expect Error. intros Expect Error. unfold wait_packet.
    destruct (Nat.lt_ge_cases k 4) as [Hk4|Hk4].
    - unfold __read_socket at 1.
      rewrite (bind_eq _ _ _ _ _
                 (read_loop_eof chunks Hne _ 4 [] tail w Ho Hrx ltac:(lia) (Nat.le_refl _))).
      reflexivity.
    - destruct (read_socket_chunks 4 chunks (RecvData [] :: tail) w Ho Hrx Hne ltac:(lia))
        as (rest1 & E1 & Hc1 & Hn1).
      rewrite (bind_eq _ _ _ _ _ E1).
      rewrite Hcat in E1, Hc1 |- *. change (Z.to_nat 4) with 4%nat in *.
      rewrite take_take, Nat.min_l by lia.
      unfold frame at 1. rewrite unpack_frame_header by lia.
      rewrite lift_return, bind_ret_l. cbn [fst snd].
      set (w1 := set_socket (set_rx (map RecvData rest1 ++ RecvData [] :: tail) (socket w)) w).
      unfold __read_socket.
      rewrite (bind_eq _ _ _ _ _
                 (read_loop_eof rest1 Hn1 _ (Z.of_nat (length p)) [] tail w1 Ho eq_refl
                    ltac:(rewrite Hc1, length_drop, length_take; lia) (Nat.le_refl _))).
      reflexivity. }
  split; [apply Ew|].
  intros events fd polls. cbn [start]. unfold on_poll, bind. cbn [for_events].
  unfold bind, on_event. change (POLLIN =? POLLIN) with true. cbv beta iota.
  rewrite Ew. reflexivity.
Qed.

(** One pass of the loop of [start] on a readable socket, by the outcome
    of [wait_packet]. *)
Lemma start_pollin (events : gmap Z handler) fd polls (w : chat) :
  start events (PollReady [(fd, POLLIN)] :: polls) w
  = match wait_packet None None w with
    | (inl (UnexpectedPacket t d), w') =>
        start events polls (logged (UnexpectedLine t d) w')
    | (inl (PyExn KeyboardInterrupt), w') => (inr tt, w')
    | (inl e, w') => (inl e, w')
    | (inr packet, w') =>
        match (events !! packet_type packet : option handler) with
        | Some callback =>
            match callback packet w' with
            | (inr _, w2) => start events polls w2
            | (inl (PyExn KeyboardInterrupt), w2) => (inr tt, w2)
            | (inl e, w2) => (inl e, w2)
            end
        | None => start events polls w'
        end
    end.
Proof.
  cbn [start]. unfold on_poll, bind. cbn [for_events].
  unfold bind, on_event. change (POLLIN =? POLLIN) with true. cbv beta iota.
  destruct (wait_packet None None w) as [[[[]| |t d]|packet] w']; try reflexivity.
  unfold handler in *.
  destruct (events !! packet_type packet) as [callback|]; [|reflexivity].
  unfold bind. destruct (callback packet w') as [[[[]| |]|[]] w2]; reflexivity.
Qed.

(** The handler for [KeyError] in [wait_packet] covers the construction of
    the packet too: a [KeyError] raised by the class of a registered type
    while it decodes the payload is reported as an unknown packet, which
    [start] prints and skips; any other exception of the class leaves
    [wait_packet] and ends [start]. *)
Theorem decode_key_error_masked (events : gmap Z handler) chunks tail (w : chat)
    t p more (C : PacketClass Packet) e :
  sock_closed (socket w) = false ->
  sock_rx (socket w) = map RecvData chunks ++ tail ->
  Forall nonempty chunks ->
  concat chunks = frame t p ++ more ->
  0 <= t < 65536 -> Z.of_nat (length p) < 65536 ->
  SERVER_PACKETS !! t = Some C ->
  cls_make C p = Raise e ->
  exists rest,
    concat rest = more /\
    let w1 := received (map RecvData rest ++ tail) w in
    (e = KeyError ->
       wait_packet None None w = (inl (UnexpectedPacket t (inr p)), w1) /\
       forall fd polls,
         start events (PollReady [(fd, POLLIN)] :: polls) w
         = start events polls (logged (UnexpectedLine t (inr p)) w1)) /\
    (e <> KeyError -> e <> KeyboardInterrupt ->
       wait_packet None None w = (inl (PyExn e), w1) /\
       forall fd polls,
         start events (PollReady [(fd, POLLIN)] :: polls) w = (inl (PyExn e), w1)).
Proof.
  intros Ho Hrx Hne Hcat Ht Hp Hreg Hmake.
  destruct (wait_packet_frame None None chunks tail w _ p more
              Ho Hrx Hne Hcat Ht Hp) as (rest & E & Hc & _).
  exists rest. split; [exact Hc|]. cbv zeta.
  unfold make_packet in E. rewrite Hreg in E. unfold make_registered in E.
  rewrite Hmake in E. unfold Raise in E. cbv beta iota in E.
  split.
  - intros ->. cbn [isinstance] in E. cbv [bind raise] in E.
    split; [exact E|]. intros fd polls. rewrite start_pollin, E. reflexivity.
  - intros H1 H2.
    assert (Hi : isinstance e class_KeyError = false)
      by (destruct e; first [reflexivity|exfalso; apply H1; reflexivity]).
    rewrite Hi in E. cbv [bind raise] in E.
    split; [exact E|]. intros fd polls. rewrite start_pollin, E.
    destruct e; first [reflexivity|exfalso; apply H2; reflexivity].
Qed.

(** [wait_packet] takes exactly one frame off the stream: two frames of
    registered types that arrive one after the other, in whatever chunks,
    are returned in their order by two successive calls of [wait_packet],
    which print them, leave the bytes after them unread and write nothing;
    and when [start] has no callback for the type of either packet, two
    passes of its loop on a readable socket read both and go on from
    there. *)
Theorem start_reads_frames_in_order chunks tail (w : chat)
    t1 p1 t2 p2 more (C1 C2 : PacketClass Packet) packet1 packet2 :
  sock_closed (socket w) = false ->
  sock_rx (socket w) = map RecvData chunks ++ tail ->
  Forall nonempty chunks ->
  concat chunks = frame t1 p1 ++ frame t2 p2 ++ more ->
  0 <= t1 < 65536 -> Z.of_nat (length p1) < 65536 ->
  0 <= t2 < 65536 -> Z.of_nat (length p2) < 65536 ->
  SERVER_PACKETS !! t1 = Some C1 -> cls_make C1 p1 = Return packet1 ->
  SERVER_PACKETS !! t2 = Some C2 -> cls_make C2 p2 = Return packet2 ->
  exists rest w1 w',
    wait_packet None None w = (inr packet1, w1) /\
    wait_packet None None w1 = (inr packet2, w') /\
    concat rest = more /\
    sock_rx (socket w') = map RecvData rest ++ tail /\
    stdout w' = stdout w ++ [GotPacket packet1; GotPacket packet2] /\
    sock_sent (socket w') = sock_sent (socket w) /\
    forall (events : gmap Z handler) fd fd' polls,
      events !! packet_type packet1 = None ->
      events !! packet_type packet2 = None ->
      start events (PollReady [(fd, POLLIN)] :: PollReady [(fd', POLLIN)] :: polls) w
      = start events polls w'.
Proof.
  intros Ho Hrx Hne Hcat Ht1 Hp1 Ht2 Hp2 Hr1 Hm1 Hr2 Hm2.
  destruct (wait_packet_registered chunks tail w t1 p1 _ C1 packet1
              Ho Hrx Hne Hcat Ht1 Hp1 Hr1 Hm1) as (rest1 & E1 & Hc1 & Hne1).
  set (w1 := logged (GotPacket packet1) (received (map RecvData rest1 ++ tail) w)) in E1.
  destruct (wait_packet_registered rest1 tail w1 t2 p2 more C2 packet2
              Ho eq_refl Hne1 Hc1 Ht2 Hp2 Hr2 Hm2) as (rest & E2 & Hc2 & _).
  exists rest, w1. eexists.
  split; [exact E1|]. split; [exact E2|]. split; [exact Hc2|].
  split; [reflexivity|]. split.
  { cbn [stdout logged received set_socket w1]. rewrite <- app_assoc. reflexivity. }
  split; [reflexivity|].
  intros events fd fd' polls Hn1 Hn2.
  rewrite start_pollin, E1. cbv beta iota. unfold handler in *. rewrite Hn1.
  rewrite start_pollin, E2. cbv beta iota. unfold handler in *. rewrite Hn2.
  reflexivity.
Qed.

End Replies.

(* ================================================================= *)
(** * Construction of the session *)

Section Construction.
Context `{codec : Codec}.

(** With a packet class expected and no error class, [wait_packet] never
    raises [UnexpectedPacket]; so a first packet that is not the seed makes
    [__init__] raise "Unexpected error.", and the message "Invalid greeting
    packet" of its handler for [UnexpectedPacket] is never produced by the
    wait for the seed. *)
Theorem greeting_of_other_type :
  (forall expect (w : chat) r w' t a,
     wait_packet (Some expect) None w = (r, w') -> r <> inl (UnexpectedPacket t a)) /\
  (forall host dhx nonce username password s chunks tail t p more,
     sock_closed s = false ->
     sock_rx s = map RecvData chunks ++ tail ->
     Forall nonempty chunks ->
     concat chunks = frame t p ++ more ->
     0 <= t < 65536 -> Z.of_nat (length p) < 65536 ->
     t <> cls_type AOSP_SEED ->
     fst (__init__ host dhx nonce username password (inr s))
     = inl (ChatError "Unexpected error.")).
Proof.
  split.
  - intros expect w r w' t a H. unfold wait_packet, bind in H.
    destruct (__read_socket 4 w) as [[e|head] w1] eqn:E1.
    { injection H as <- _.
      destruct (read_loop_raises _ _ _ _ _ _ E1) as [[msg ->]| ->]; discriminate. }
    destruct (lift (struct_unpack_2H head) w1) as [[e|hdr] w2] eqn:E2.
    { injection H as <- _. unfold lift in E2.
      destruct (struct_unpack_2H head); [injection E2 as <- _; discriminate|discriminate E2]. }
    destruct (__read_socket (snd hdr) w2) as [[e|data] w3] eqn:E3.
    { injection H as <- _.
      destruct (read_loop_raises _ _ _ _ _ _ E3) as [[msg ->]| ->]; discriminate. }
    destruct (make_packet (Some expect) None (fst hdr) data w3) as [[e|packet] w4] eqn:E4.
    { injection H as <- _. unfold make_packet in E4.
      destruct (negb _); [injection E4 as <- _; discriminate|].
      unfold lift in E4.
      destruct (cls_make expect data); [injection E4 as <- _; discriminate|discriminate E4]. }
    injection H as <- _. discriminate.
  - intros host dhx nonce username password s chunks tail t p more
      Ho Hrx Hne Hcat Ht Hp Hneq.
    destruct (wait_packet_unexpected AOSP_SEED chunks tail (new_chat s) t p more
                Ho Hrx Hne Hcat Ht Hp Hneq) as (rest & E & _ & _).
    cbn [__init__]. unfold handshake.
    rewrite (bind_eq _ _ _ _ _ E). reflexivity.
Qed.

(** Construction that succeeds: the seed arrives, the login key is made
    from it, the authentication packet with the user name and that key is
    the one packet written, and the character list the server answers
    with is stored; no character is active yet. *)
Theorem init_success host dhx nonce username password (s : socket_state)
    chunks tail seed_data list_data more seed login_key reply :
  sock_closed s = false ->
  good_tx (sock_tx s) ->
  sock_rx s = map RecvData chunks ++ tail ->
  Forall nonempty chunks ->
  concat chunks = frame (cls_type AOSP_SEED) seed_data
                  ++ frame (cls_type AOSP_CHARACTERS_LIST) list_data ++ more ->
  0 <= cls_type AOSP_SEED < 65536 -> Z.of_nat (length seed_data) < 65536 ->
  0 <= cls_type AOSP_CHARACTERS_LIST < 65536 -> Z.of_nat (length list_data) < 65536 ->
  cls_make AOSP_SEED seed_data = Return seed ->
  generate_login_key host dhx nonce (packet_server_key seed) username password
  = Return login_key ->
  cls_make AOSP_CHARACTERS_LIST list_data = Return reply ->
  exists w rest,
    __init__ host dhx nonce username password (inr s) = (inr tt, Some w) /\
    character w = None /\
    characters w = packet_characters reply /\
    sock_sent (socket w) = sock_sent s ++ pack (AOCP_AUTH username login_key) /\
    sock_rx (socket w) = map RecvData rest ++ tail /\
    concat rest = more /\
    stdout w = [GotPacket seed; SentPacket (AOCP_AUTH username login_key);
                GotPacket reply].
Proof.
  intros Ho Htx Hrx Hne Hcat Ht1 Hp1 Ht2 Hp2 Hseed Hkey Hreply.
  destruct (wait_packet_expected AOSP_SEED None chunks tail (new_chat s) seed_data _ seed
              Ho Hrx Hne Hcat Ht1 Hp1 Hseed) as (rest1 & E1 & Hc1 & Hn1).
  set (w1 := logged (GotPacket seed) (received (map RecvData rest1 ++ tail) (new_chat s))) in E1.
  destruct (send_packet_written (AOCP_AUTH username login_key)
              (Some AOSP_CHARACTERS_LIST) (Some AOSP_AUTH_ERROR)
              (set_character None w1) Ho Htx) as (tx' & _ & Es).
  set (w2 := logged _ (transmitted tx' _ (set_character None w1))) in Es.
  destruct (wait_packet_expected AOSP_CHARACTERS_LIST (Some AOSP_AUTH_ERROR)
              rest1 tail w2 list_data more reply Ho eq_refl Hn1 Hc1 Ht2 Hp2 Hreply)
    as (rest & E2 & Hc2 & _).
  rewrite (bind_eq _ _ _ _ _ E2) in Es.
  eexists. exists rest.
  split.
  { cbn [__init__]. unfold handshake.
    rewrite (bind_eq _ _ _ _ _ E1). rewrite Hkey. cbn [lift Return ret].
    unfold bind at 1. unfold except_unexpected_message. rewrite Es. cbn [ret].
    reflexivity. }
  repeat split; try reflexivity. exact Hc2.
Qed.

(** Construction refused: when the server answers the authentication with
    its error packet, [__init__] raises [ChatError] with the message of that
    packet, after the authentication packet was written. *)
Theorem init_auth_error host dhx nonce username password (s : socket_state)
    chunks tail seed_data error_data more seed login_key error :
  sock_closed s = false ->
  good_tx (sock_tx s) ->
  sock_rx s = map RecvData chunks ++ tail ->
  Forall nonempty chunks ->
  concat chunks = frame (cls_type AOSP_SEED) seed_data
                  ++ frame (cls_type AOSP_AUTH_ERROR) error_data ++ more ->
  0 <= cls_type AOSP_SEED < 65536 -> Z.of_nat (length seed_data) < 65536 ->
  0 <= cls_type AOSP_AUTH_ERROR < 65536 -> Z.of_nat (length error_data) < 65536 ->
  cls_type AOSP_AUTH_ERROR <> cls_type AOSP_CHARACTERS_LIST ->
  cls_make AOSP_SEED seed_data = Return seed ->
  generate_login_key host dhx nonce (packet_server_key seed) username password
  = Return login_key ->
  cls_make AOSP_AUTH_ERROR error_data = Return error ->
  exists w,
    __init__ host dhx nonce username password (inr s)
    = (inl (ChatError (packet_message error)), Some w) /\
    sock_sent (socket w) = sock_sent s ++ pack (AOCP_AUTH username login_key) /\
    characters w = [].
Proof.
  intros Ho Htx Hrx Hne Hcat Ht1 Hp1 Ht2 Hp2 Hneq Hseed Hkey Herror.
  destruct (wait_packet_expected AOSP_SEED None chunks tail (new_chat s) seed_data _ seed
              Ho Hrx Hne Hcat Ht1 Hp1 Hseed) as (rest1 & E1 & Hc1 & Hn1).
  set (w1 := logged (GotPacket seed) (received (map RecvData rest1 ++ tail) (new_chat s))) in E1.
  destruct (send_packet_written (AOCP_AUTH username login_key)
              (Some AOSP_CHARACTERS_LIST) (Some AOSP_AUTH_ERROR)
              (set_character None w1) Ho Htx) as (tx' & _ & Es).
  set (w2 := logged _ (transmitted tx' _ (set_character None w1))) in Es.
  destruct (wait_packet_frame (Some AOSP_CHARACTERS_LIST) (Some AOSP_AUTH_ERROR)
              rest1 tail w2 _ error_data more Ho eq_refl Hn1 Hc1 Ht2 Hp2)
    as (rest & E2 & Hc2 & _).
  unfold make_packet in E2.
  destruct (Z.eqb_spec (cls_type AOSP_AUTH_ERROR) (cls_type AOSP_CHARACTERS_LIST)) as [|_];
    [contradiction|].
  cbn [negb] in E2. rewrite Z.eqb_refl, Herror in E2.
  cbv [bind lift Return ret raise] in E2.
  eexists. split; [|split].
  { cbn [__init__]. unfold handshake.
    rewrite (bind_eq _ _ _ _ _ E1). rewrite Hkey. cbn [lift Return ret].
    unfold bind at 1. unfold except_unexpected_message. rewrite Es.
    unfold bind. rewrite E2. reflexivity. }
  - reflexivity.
  - reflexivity.
Qed.

(** No connection, no object: a socket error of [create_connection]
    leaves [__init__] as [ChatError] with the number and the text of the
    error, and its timeout, caught by the same handler, as [TypeError]. *)
Theorem init_connection_failure host dhx nonce username password errno strerror :
  __init__ host dhx nonce username password (inl (SocketError [inl errno; inr strerror]))
  = (inl (ChatError ("Socket error " ++ str errno ++ ": " ++ strerror)), None) /\
  __init__ host dhx nonce username password (inl SocketTimeout)
  = (inl (PyExn TypeError), None).
Proof. split; reflexivity. Qed.

End Construction.

(* ================================================================= *)
(** * Instances *)

Lemma crypt_roundtrip_witness :
  Z.of_nat (length example_plain) mod 8 = 0 /\
  exists c,
    _crypt LittleEndian 0x112233445566778899aabbccddeeff00 example_plain = Return c /\
    cbc_tea_decrypt LittleEndian 0x112233445566778899aabbccddeeff00 c = Return example_plain.
Proof.
  split; [reflexivity|].
  destruct (crypt_roundtrip LittleEndian 0x112233445566778899aabbccddeeff00
              example_plain eq_refl) as [Hdec Hex].
  destruct (Hex ltac:(vm_compute; split; [discriminate|reflexivity])) as [c Hc].
  exists c. split; [exact Hc|exact (Hdec c Hc)].
Defined.

Lemma read_socket_chunk_invariant_witness :
  fst (__read_socket (codec := example_codec) 3
         (new_chat (ex_socket [RecvData [x01]; RecvData [x02; x03; x04]; RecvData [x05]])))
  = fst (__read_socket (codec := example_codec) 3
         (new_chat (ex_socket [RecvData [x01; x02; x03; x04; x05]]))).
Proof.
  destruct (read_socket_chunk_invariant (codec := example_codec) 3
              [[x01; x02; x03; x04; x05]] []
              (new_chat (ex_socket [RecvData [x01; x02; x03; x04; x05]]))
              eq_refl eq_refl) as [H _].
  { repeat constructor; discriminate. }
  destruct H as (_ & _ & Hinv); [simpl; lia|].
  apply (Hinv [[x01]; [x02; x03; x04]; [x05]] []); try reflexivity.
  repeat constructor; discriminate.
Defined.

Lemma login_contract_witness :
  login (codec := example_codec) 999 ex_session
    = (inl (ChatError "no valid characters to login."), ex_session) /\
  exists w', login (codec := example_codec) 42 ex_session = (inr tt, w') /\
             character w' = Some 42.
Proof.
  split.
  - apply (proj1 (login_contract (codec := example_codec) 999 ex_session)).
    repeat constructor; discriminate.
  - destruct (proj2 (login_contract (codec := example_codec) 42 ex_session))
      as (c & Hin & Hid & _ & Hwire).
    { right. right. left. reflexivity. }
    cbn [char_id example_codec] in Hid. subst c.
    destruct (Hwire [[x00; x05; x00]; [x00]] [] [] [] (mkExPacket 5 []))
      as (w' & E & Hc & _); try reflexivity.
    + constructor.
    + repeat constructor; discriminate.
    + simpl; lia.
    + exists w'. split; assumption.
Defined.

Lemma unknown_packet_skipped_witness :
  exists w',
    start (codec := example_codec) ∅ [PollReady [(3, POLLIN)]]
      (new_chat (ex_socket [RecvData [x03; xe7; x00; x01; x2a]]))
    = (inr tt, w') /\
    stdout w' = [@UnexpectedLine example_codec 999 (inr [x2a])].
Proof.
  destruct (unknown_packet_skipped (codec := example_codec) ∅
              [[x03; xe7; x00; x01; x2a]] []
              (new_chat (ex_socket [RecvData [x03; xe7; x00; x01; x2a]]))
              999 [x2a] [] eq_refl eq_refl) as (rest & _ & _ & _ & Hstart).
  - repeat constructor; discriminate.
  - reflexivity.
  - lia.
  - simpl; lia.
  - reflexivity.
  - eexists. rewrite Hstart. split; reflexivity.
Defined.

Lemma keepalive_ping_witness :
  exists w',
    start (codec := example_codec) ∅ [PollReady []]
      (new_chat (ex_socket [RecvData [x00; x64]; RecvData [x00; x00]]))
    = (inr tt, w') /\
    sock_sent (socket w') = [x00; x64; x00; x00] /\
    stdout w' = [@SentPacket example_codec (mkExPacket 100 []);
                 @GotPacket example_codec (mkExPacket 100 [])].
Proof.
  destruct (keepalive_ping (codec := example_codec) ∅ []
              [[x00; x64]; [x00; x00]] []
              (new_chat (ex_socket [RecvData [x00; x64]; RecvData [x00; x00]]))
              100 [] [] eq_refl) as (rest & tx' & _ & _ & Hpong & _).
  - constructor.
  - reflexivity.
  - repeat constructor; discriminate.
  - reflexivity.
  - lia.
  - simpl; lia.
  - eexists. rewrite (Hpong (mkExPacket 100 []) eq_refl eq_refl).
    split; [reflexivity|]. split; reflexivity.
Defined.

Lemma session_never_closes_socket_witness :
  sock_closed (socket (snd (start (codec := example_codec) ∅ [PollReady [(3, POLLHUP)]]
                              (new_chat (ex_socket []))))) = false.
Proof.
  change false with (sock_closed (socket (new_chat (codec := example_codec) (ex_socket [])))).
  eapply (proj2 (proj2 (session_never_closes_socket (codec := example_codec))));
    [|apply surjective_pairing].
  intros t callback packet H. rewrite lookup_empty in H. discriminate H.
Defined.

Lemma tea_encrypt_key_words_witness :
  _tea_encrypt (1, 2) [1; 2; 3] = Raise IndexError /\
  exists a b, _tea_encrypt (1, 2) [1; 2; 3; 4; 5] = Return (a, b) /\ word32 a /\ word32 b.
Proof.
  split.
  - apply (proj2 (tea_encrypt_key_words (1, 2) [1; 2; 3])). cbn [length]. lia.
  - destruct (proj1 (tea_encrypt_key_words (1, 2) [1; 2; 3; 4; 5]))
      as (a & b & E & Ha & Hb & _); [cbn [length]; lia|].
    exists a, b. split; [exact E|]. split; assumption.
Defined.

Lemma tea_encrypt_injective_witness :
  word_pair (1, 2) /\ word_pair (2, 1) /\
  _tea_encrypt (1, 2) [1; 2; 3; 4] <> _tea_encrypt (2, 1) [1; 2; 3; 4].
Proof.
  assert (H1 : word_pair (1, 2)) by (split; cbn [fst snd]; unfold word32; lia).
  assert (H2 : word_pair (2, 1)) by (split; cbn [fst snd]; unfold word32; lia).
  split; [exact H1|]. split; [exact H2|].
  intros E.
  destruct (_tea_encrypt (2, 1) [1; 2; 3; 4]) as [e|r] eqn:E2.
  - vm_compute in E2. discriminate E2.
  - pose proof (tea_encrypt_injective (1, 2) (2, 1) [1; 2; 3; 4] r H1 H2 E E2) as H.
    discriminate H.
Defined.

Lemma crypt_ciphertext_hex_witness :
  exists c,
    _crypt LittleEndian 0x112233445566778899aabbccddeeff00 example_plain = Return c /\
    String.length c = 64%nat /\ all_lower_hex c = true.
Proof.
  destruct (_crypt LittleEndian 0x112233445566778899aabbccddeeff00 example_plain)
    as [e|c] eqn:E.
  - exfalso. vm_compute in E. discriminate E.
  - exists c. split; [reflexivity|].
    exact (crypt_ciphertext_hex _ _ _ _ E).
Defined.

Lemma crypt_prefix_witness :
  exists c1 c2,
    _crypt LittleEndian 0x112233445566778899aabbccddeeff00 (take 8 example_plain)
    = Return c1 /\
    _crypt LittleEndian 0x112233445566778899aabbccddeeff00 example_plain
    = Return (c1 ++ c2)%string /\
    String.length c2 = 48%nat.
Proof.
  destruct (_crypt LittleEndian 0x112233445566778899aabbccddeeff00 (take 8 example_plain))
    as [e|c1] eqn:E1; [exfalso; vm_compute in E1; discriminate E1|].
  destruct (_crypt LittleEndian 0x112233445566778899aabbccddeeff00 example_plain)
    as [e|c] eqn:E; [exfalso; vm_compute in E; discriminate E|].
  destruct (crypt_prefix LittleEndian 0x112233445566778899aabbccddeeff00
              (take 8 example_plain) (drop 8 example_plain) c1 c E1)
    as (c2 & -> & L).
  - rewrite take_drop. exact E.
  - exists c1, c2. split; [reflexivity|]. split; [reflexivity|exact L].
Defined.

Lemma crypt_short_key_witness :
  _crypt LittleEndian 0x1234 example_plain = Raise StructError /\
  _crypt LittleEndian 0x12345678 example_plain = Raise IndexError.
Proof.
  split.
  - destruct (crypt_short_key LittleEndian 0x1234 example_plain) as [E|E].
    + vm_compute. split; [discriminate|reflexivity].
    + discriminate.
    + reflexivity.
    + exact E.
    + vm_compute in E. discriminate E.
  - destruct (crypt_short_key LittleEndian 0x12345678 example_plain) as [E|E].
    + vm_compute. split; [discriminate|reflexivity].
    + discriminate.
    + reflexivity.
    + vm_compute in E. discriminate E.
    + exact E.
Defined.

Lemma crypt_injective_witness :
  Z.of_nat (length (repeat x01 8)) mod 8 = 0 /\
  _crypt LittleEndian 0x112233445566778899aabbccddeeff00 (repeat x00 8)
  <> _crypt LittleEndian 0x112233445566778899aabbccddeeff00 (repeat x01 8).
Proof.
  split; [reflexivity|]. intros E.
  destruct (_crypt LittleEndian 0x112233445566778899aabbccddeeff00 (repeat x01 8))
    as [e|c] eqn:E'; [vm_compute in E'; discriminate E'|].
  pose proof (crypt_injective _ _ _ _ _ E E') as H. discriminate H.
Defined.

Lemma login_key_format_witness :
  exists plain crypted,
    login_plain 0 "seed" "user" "pass" = Return plain /\
    "5-0f1cb3a948928a1e0677f7dd6368f549619c6f85e2b2c48b7768b866409aa9ab"
    = (fmt_x (dhG ^ 1 mod dhN) ++ "-" ++ crypted)%string /\
    String.length crypted = (2 * length plain)%nat.
Proof.
  assert (H : generate_login_key LittleEndian 1 0 "seed" "user" "pass"
              = Return "5-0f1cb3a948928a1e0677f7dd6368f549619c6f85e2b2c48b7768b866409aa9ab")
    by (vm_compute; reflexivity).
  destruct (login_key_format _ _ _ _ _ _ _ H) as (plain & crypted & Hp & Hk & _ & _ & L & _).
  exists plain, crypted. split; [exact Hp|]. split; [exact Hk|exact L].
Defined.

Lemma transport_wraps_socket_errors_witness :
  exists msg,
    fst (__read_socket (codec := example_codec) 4
           (new_chat (ex_socket [RecvError [inl 104; inr "Connection reset by peer"]])))
    = inl (ChatError msg).
Proof.
  destruct (__read_socket (codec := example_codec) 4
              (new_chat (ex_socket [RecvError [inl 104; inr "Connection reset by peer"]])))
    as [[e|v] w'] eqn:E; [|discriminate E].
  destruct (proj1 (transport_wraps_socket_errors (codec := example_codec)) _ _ _ _ E)
    as [[msg ->]| ->].
  - exists msg. reflexivity.
  - discriminate E.
Defined.

Lemma read_socket_error_wrapped_witness :
  __read_socket (codec := example_codec) 4
    (new_chat (ex_socket [RecvData [x00; x05];
                          RecvError [inl 104; inr "Connection reset by peer"]]))
  = (inl (ChatError "Socket error 104: Connection reset by peer"),
     new_chat (ex_socket [])).
Proof.
  exact (read_socket_error_wrapped (codec := example_codec) 4 [[x00; x05]] []
           (new_chat (ex_socket [RecvData [x00; x05];
                                 RecvError [inl 104; inr "Connection reset by peer"]]))
           104 "Connection reset by peer" eq_refl eq_refl
           ltac:(repeat constructor; discriminate) ltac:(simpl; lia)).
Defined.

Lemma write_socket_partial_failure_witness :
  __write_socket (codec := example_codec) [x01; x02; x03; x04; x05]
    (new_chat (mkSocket [] [SendRoom 2; SendRoom 1; SendRoom 0] [] false))
  = (inl (ChatError "Connection broken."),
     new_chat (mkSocket [] [] [x01; x02; x03] false)) /\
  __write_socket (codec := example_codec) [x01; x02; x03; x04; x05]
    (new_chat (mkSocket [] [SendRoom 2; SendRoom 1; SendError [inl 32; inr "Broken pipe"]]
                 [] false))
  = (inl (ChatError "Socket error 32: Broken pipe"),
     new_chat (mkSocket [] [] [x01; x02; x03] false)).
Proof.
  split.
  - apply (proj1 (write_socket_partial_failure (codec := example_codec)
                    [x01; x02; x03; x04; x05] [2; 1]%nat []
                    (new_chat (mkSocket [] [SendRoom 2; SendRoom 1; SendRoom 0] [] false))
                    eq_refl ltac:(repeat constructor) ltac:(simpl; lia))).
    reflexivity.
  - apply (proj2 (write_socket_partial_failure (codec := example_codec)
                    [x01; x02; x03; x04; x05] [2; 1]%nat []
                    (new_chat (mkSocket [] [SendRoom 2; SendRoom 1;
                                            SendError [inl 32; inr "Broken pipe"]] [] false))
                    eq_refl ltac:(repeat constructor) ltac:(simpl; lia)) 32 "Broken pipe").
    reflexivity.
Defined.

Lemma write_socket_complete_witness :
  exists tx',
    __write_socket (codec := example_codec) [x01; x02; x03; x04; x05]
      (new_chat (mkSocket [] [SendRoom 2; SendRoom 1; SendRoom 7; SendRoom 1] [] false))
    = (inr tt, new_chat (mkSocket [] tx' [x01; x02; x03; x04; x05] false)).
Proof.
  destruct (write_socket_complete (codec := example_codec) [x01; x02; x03; x04; x05]
              (new_chat (mkSocket [] [SendRoom 2; SendRoom 1; SendRoom 7; SendRoom 1] [] false))
              eq_refl) as (tx' & E & _).
  - repeat constructor; eexists; reflexivity.
  - exists tx'. exact E.
Defined.

Lemma login_rejected_witness :
  exists w',
    login (codec := example_codec) 42
      (@mkChat example_codec
         (ex_socket [RecvData (frame 6 (list_byte_of_string "Banned."))]) None [1; 2; 42] [])
    = (inl (ChatError "Banned."), w') /\
    character w' = None /\
    sock_sent (socket w') = [x00; x03; x00; x04; x00; x00; x00; x2a].
Proof.
  destruct (login_rejected (codec := example_codec) 42
              (@mkChat example_codec
                 (ex_socket [RecvData (frame 6 (list_byte_of_string "Banned."))])
                 None [1; 2; 42] [])
              [frame 6 (list_byte_of_string "Banned.")] [] 6
              (list_byte_of_string "Banned.") [])
    as (rest & tx' & _ & _ & Hs & Herr & _).
  - right. right. left. reflexivity.
  - reflexivity.
  - constructor.
  - reflexivity.
  - repeat constructor; discriminate.
  - reflexivity.
  - lia.
  - simpl; lia.
  - discriminate.
  - eexists. split; [exact (Herr (mkExPacket 6 (list_byte_of_string "Banned."))
                             eq_refl eq_refl)|].
    split; [reflexivity|exact Hs].
Defined.

Lemma start_dispatches_witness :
  exists w',
    start (codec := example_codec)
      {[ 5 := (fun p => print (UnexpectedLine 5 (inl p))) : handler ]}
      [PollReady [(3, POLLIN)]]
      (new_chat (ex_socket [RecvData [x00; x05; x00; x01; x2a]]))
    = (inr tt, w') /\
    stdout w' = [@GotPacket example_codec (mkExPacket 5 [x2a]);
                 @UnexpectedLine example_codec 5 (inl (mkExPacket 5 [x2a]))].
Proof.
  destruct (start_dispatches (codec := example_codec)
              {[ 5 := (fun p => print (UnexpectedLine 5 (inl p))) : handler ]}
              [] [[x00; x05; x00; x01; x2a]] []
              (new_chat (ex_socket [RecvData [x00; x05; x00; x01; x2a]]))
              5 [x2a] [] (ex_class 5) (mkExPacket 5 [x2a]) 3 eq_refl eq_refl)
    as (rest & _ & _ & Hcall).
  - repeat constructor; discriminate.
  - reflexivity.
  - lia.
  - simpl; lia.
  - reflexivity.
  - reflexivity.
  - eexists. rewrite (Hcall (fun p => print (UnexpectedLine 5 (inl p))) eq_refl).
    split; reflexivity.
Defined.

Lemma start_ignores_other_masks_witness :
  start (codec := example_codec) ∅ [PollReady [(3, 17)]] (new_chat (ex_socket []))
  = (inr tt, new_chat (ex_socket [])).
Proof.
  rewrite (start_ignores_other_masks (codec := example_codec) ∅ [(3, 17)] []
             (new_chat (ex_socket []))).
  - reflexivity.
  - discriminate.
  - repeat constructor; discriminate.
Defined.

Lemma wait_packet_truncated_witness :
  start (codec := example_codec) ∅ [PollReady [(3, POLLIN)]]
    (new_chat (ex_socket [RecvData [x00; x05; x00; x03; x2a]; RecvData []]))
  = (inl (ChatError "Connection broken."), new_chat (ex_socket [RecvData []])).
Proof.
  apply (proj2 (wait_packet_truncated (codec := example_codec) None None
                  [[x00; x05; x00; x03; x2a]] []
                  (new_chat (ex_socket [RecvData [x00; x05; x00; x03; x2a]; RecvData []]))
                  5 [x2a; x2b; x2c] 5 eq_refl eq_refl
                  ltac:(repeat constructor; discriminate) eq_refl
                  ltac:(simpl; lia) ltac:(lia) ltac:(simpl; lia))).
Defined.

Lemma greeting_of_other_type_witness :
  fst (__init__ (codec := example_codec) LittleEndian 1 0 "user" "pass"
         (inr (ex_socket [RecvData [x00; x07; x00; x00]])))
  = inl (ChatError "Unexpected error.").
Proof.
  apply (proj2 (greeting_of_other_type (codec := example_codec)) LittleEndian 1 0
           "user" "pass" (ex_socket [RecvData [x00; x07; x00; x00]])
           [[x00; x07; x00; x00]] [] 7 [] []); try reflexivity.
  - repeat constructor; discriminate.
  - lia.
  - discriminate.
Defined.

Lemma init_success_witness :
  exists w,
    __init__ (codec := example_codec) LittleEndian 1 0 "user" "pass"
      (inr (ex_socket [RecvData (frame 0 (list_byte_of_string "seed")
                                 ++ frame 7 [x01; x02; x2a])]))
    = (inr tt, Some w) /\
    character w = None /\
    characters w = [1; 2; 42].
Proof.
  assert (Hkey : generate_login_key LittleEndian 1 0 "seed" "user" "pass"
                 = Return "5-0f1cb3a948928a1e0677f7dd6368f549619c6f85e2b2c48b7768b866409aa9ab")
    by (vm_compute; reflexivity).
  destruct (init_success (codec := example_codec) LittleEndian 1 0 "user" "pass"
              (ex_socket [RecvData (frame 0 (list_byte_of_string "seed")
                                    ++ frame 7 [x01; x02; x2a])])
              [frame 0 (list_byte_of_string "seed") ++ frame 7 [x01; x02; x2a]] []
              (list_byte_of_string "seed") [x01; x02; x2a] []
              (mkExPacket 0 (list_byte_of_string "seed"))
              "5-0f1cb3a948928a1e0677f7dd6368f549619c6f85e2b2c48b7768b866409aa9ab"
              (mkExPacket 7 [x01; x02; x2a]))
    as (w & rest & E & Hc & Hcs & _).
  - reflexivity.
  - constructor.
  - reflexivity.
  - repeat constructor; discriminate.
  - reflexivity.
  - simpl; lia.
  - simpl; lia.
  - simpl; lia.
  - simpl; lia.
  - reflexivity.
  - exact Hkey.
  - reflexivity.
  - exists w. split; [exact E|]. split; [exact Hc|exact Hcs].
Defined.

Lemma init_auth_error_witness :
  exists w,
    __init__ (codec := example_codec) LittleEndian 1 0 "user" "pass"
      (inr (ex_socket [RecvData seed_then_error]))
    = (inl (ChatError "Wrong password."), Some w) /\
    characters w = [].
Proof.
  assert (Hkey : generate_login_key LittleEndian 1 0 "seed" "user" "pass"
                 = Return "5-0f1cb3a948928a1e0677f7dd6368f549619c6f85e2b2c48b7768b866409aa9ab")
    by (vm_compute; reflexivity).
  destruct (init_auth_error (codec := example_codec) LittleEndian 1 0 "user" "pass"
              (ex_socket [RecvData seed_then_error]) [seed_then_error] []
              (list_byte_of_string "seed") (list_byte_of_string "Wrong password.") []
              (mkExPacket 0 (list_byte_of_string "seed"))
              "5-0f1cb3a948928a1e0677f7dd6368f549619c6f85e2b2c48b7768b866409aa9ab"
              (mkExPacket 6 (list_byte_of_string "Wrong password.")))
    as (w & E & _ & Hcs).
  - reflexivity.
  - constructor.
  - reflexivity.
  - repeat constructor; discriminate.
  - reflexivity.
  - simpl; lia.
  - simpl; lia.
  - simpl; lia.
  - simpl; lia.
  - discriminate.
  - reflexivity.
  - exact Hkey.
  - reflexivity.
  - exists w. split; [exact E|exact Hcs].
Defined.

Lemma write_socket_timeout_witness :
  __write_socket (codec := example_codec) [x01; x02; x03; x04; x05]
    (new_chat (mkSocket [] [SendRoom 2; SendTimeout] [] false))
  = (inl (PyExn TypeError), new_chat (mkSocket [] [] [x01; x02] false)).
Proof.
  exact (proj1 (write_socket_timeout (codec := example_codec))
           [x01; x02; x03; x04; x05] [2%nat] []
           (new_chat (mkSocket [] [SendRoom 2; SendTimeout] [] false))
           eq_refl ltac:(repeat constructor) ltac:(simpl; lia) eq_refl).
Defined.

Lemma decode_key_error_masked_witness :
  exists w',
    start (codec := keyed_codec) ∅ [PollReady [(3, POLLIN)]]
      (new_chat (ex_socket [RecvData [x00; x14; x00; x00]]))
    = (inr tt, w') /\
    stdout w' = [@UnexpectedLine keyed_codec 20 (inr [])].
Proof.
  destruct (decode_key_error_masked (codec := keyed_codec) ∅
              [[x00; x14; x00; x00]] []
              (new_chat (ex_socket [RecvData [x00; x14; x00; x00]]))
              20 [] [] (ex_keyed_class 20) KeyError eq_refl eq_refl)
    as (rest & _ & Hkey & _).
  - repeat constructor; discriminate.
  - reflexivity.
  - lia.
  - simpl; lia.
  - reflexivity.
  - reflexivity.
  - destruct (Hkey eq_refl) as [_ Hstart].
    eexists. rewrite Hstart. split; reflexivity.
Defined.

Lemma start_reads_frames_in_order_witness :
  exists w1 w',
    wait_packet (codec := example_codec) None None
      (new_chat (ex_socket [RecvData [x00; x05; x00]; RecvData [x00; x00; x64; x00; x01; x2a]]))
    = (inr (mkExPacket 5 []), w1) /\
    wait_packet (codec := example_codec) None None w1 = (inr (mkExPacket 100 [x2a]), w') /\
    start (codec := example_codec) ∅ [PollReady [(3, POLLIN)]; PollReady [(3, POLLIN)]]
      (new_chat (ex_socket [RecvData [x00; x05; x00]; RecvData [x00; x00; x64; x00; x01; x2a]]))
    = (inr tt, w') /\
    stdout w' = [@GotPacket example_codec (mkExPacket 5 []);
                 @GotPacket example_codec (mkExPacket 100 [x2a])].
Proof.
  destruct (start_reads_frames_in_order (codec := example_codec)
              [[x00; x05; x00]; [x00; x00; x64; x00; x01; x2a]] []
              (new_chat (ex_socket [RecvData [x00; x05; x00];
                                    RecvData [x00; x00; x64; x00; x01; x2a]]))
              5 [] 100 [x2a] [] (ex_class 5) (ex_class 100)
              (mkExPacket 5 []) (mkExPacket 100 [x2a]) eq_refl eq_refl)
    as (rest & w1 & w' & E1 & E2 & _ & _ & Hout & _ & Hstart).
  - repeat constructor; discriminate.
  - reflexivity.
  - lia.
  - simpl; lia.
  - lia.
  - simpl; lia.
  - reflexivity.
  - reflexivity.
  - reflexivity.
  - reflexivity.
  - exists w1, w'. split; [exact E1|]. split; [exact E2|].
    rewrite (Hstart ∅ 3 3 [] (lookup_empty _) (lookup_empty _)).
    split; [reflexivity|exact Hout].
Defined.

Lemma login_key_needs_long_secret_witness :
  0 <= 1 /\ 16 ^ 31 <= dhY ^ 1 mod dhN.
Proof.
  assert (H : generate_login_key LittleEndian 1 0 "seed" "user" "pass"
              = Return "5-0f1cb3a948928a1e0677f7dd6368f549619c6f85e2b2c48b7768b866409aa9ab")
    by (vm_compute; reflexivity).
  exact (login_key_needs_long_secret _ _ _ _ _ _ _ H).
Defined.

Lemma send_packet_exchange_witness :
  exists w',
    send_packet (codec := example_codec) (mkExPacket 100 []) None None
      (new_chat (ex_socket []))
    = (inr None, w') /\
    sock_sent (socket w') = [x00; x64; x00; x00] /\
    stdout w' = [@SentPacket example_codec (mkExPacket 100 [])].
Proof.
  destruct (send_packet_exchange (codec := example_codec) (mkExPacket 100 [])
              (new_chat (ex_socket [])) eq_refl) as (tx' & Hnone & _).
  - constructor.
  - eexists. split; [exact (Hnone None)|]. split; reflexivity.
Defined.

Lemma start_hangup_witness :
  start (codec := example_codec) ∅ [PollReady [(3, 17); (3, POLLHUP); (3, POLLIN)]]
    (new_chat (ex_socket []))
  = (inr tt, @mkChat example_codec (ex_socket []) None [] [@HupLine example_codec]).
Proof.
  exact (proj1 (start_hangup (codec := example_codec) ∅ [(3, 17)] [(3, POLLIN)] 3 []
                  (new_chat (ex_socket [])) (new_chat (ex_socket [])) eq_refl)).
Defined.

Lemma login_key_decrypts_witness :
  exists plain crypted,
    "5-0f1cb3a948928a1e0677f7dd6368f549619c6f85e2b2c48b7768b866409aa9ab"
    = (fmt_x (dhG ^ 1 mod dhN) ++ "-" ++ crypted)%string /\
    cbc_tea_decrypt LittleEndian (top32 (dhY ^ 1 mod dhN)) crypted = Return plain /\
    take 14 (drop 12 plain) = list_byte_of_string "user|seed|pass".
Proof.
  assert (H : generate_login_key LittleEndian 1 0 "seed" "user" "pass"
              = Return "5-0f1cb3a948928a1e0677f7dd6368f549619c6f85e2b2c48b7768b866409aa9ab")
    by (vm_compute; reflexivity).
  destruct (login_key_decrypts _ _ _ _ _ _ _ H) as (plain & crypted & Hk & Hd & _ & Hc).
  exists plain, crypted. split; [exact Hk|]. split; [exact Hd|exact Hc].
Defined.
